(** * The matchmaking and session engine of the Turing game server

    A shallow embedding of [src/turing-game/server/index.js]: the waiting
    list, the room registry, the two countdown timers and the socket
    handlers, followed by the properties of the engine.

    Conventions of the embedding.
    - A socket is identified by its [socket.id]; its only mutable property
      is [socket.roomId], kept in [socketRoomId].
    - [waitingPlayers] is a JavaScript [Map] whose iteration order is
      observed ([Array.from(values()).slice(0, 2)]), so it is an
      insertion-ordered association list.  The other [Map]s are only used
      through [has]/[get]/[set]/[delete] and are finite maps.
    - Room objects are shared between the registry [rooms], the closure of
      the room countdown and the handlers suspended on the database, which
      all hold the object itself.  They live in a store of objects ([heap])
      and are referred to by reference.
    - [setInterval] returns a handle that is never reused; the live
      intervals, with the variables their callbacks close over, are kept in
      [intervals].  [setTimeout] callbacks are kept in [timeouts] with their
      delay; their handles are discarded by the source.
    - The server runs one callback at a time, to completion.  An [async]
      handler runs up to its [await] of the database service; what it still
      has to do, with the variables it has captured, is kept in [pending]
      until the call settles, and other events may run in between.
    - [Math.random()], the clock and the outcome of a database call are
      supplied by the environment with the event that consumes them.
    - Every step returns the new state and the ordered trace of the effects
      it performed (emitted events, timer operations, database calls). *)

From stdpp Require Import gmap strings list fin_maps.

Local Open Scope Z_scope.

(** ** Identifiers *)

Abbreviation Pid := string.
Abbreviation RoomId := string.
Abbreviation Handle := nat.
Abbreviation RoomRef := nat.

(** JavaScript truthiness of a string: only the empty string is falsy. *)
Definition truthy (s : string) : bool :=
  match s with
  | EmptyString => false
  | String _ _ => true
  end.

(** ** Constants for timers *)

Definition ROOM_TIME_LIMIT : Z := 120000.
Definition TURN_TIME_LIMIT : Z := 900000.

(** ** Insertion-ordered [Map] with string keys *)

Module JsMap.
Section JsMap.
Context {V : Type}.

Definition has (k : string) (m : list (string * V)) : bool :=
  existsb (λ kv, bool_decide (kv.1 = k)) m.

(** [set] keeps the position of an existing key and appends a new one. *)
Definition set (k : string) (v : V) (m : list (string * V)) : list (string * V) :=
  if has k m
  then map (λ kv, if bool_decide (kv.1 = k) then (k, v) else kv) m
  else m ++ [(k, v)].

Definition delete (k : string) (m : list (string * V)) : list (string * V) :=
  List.filter (λ kv, negb (bool_decide (kv.1 = k))) m.

Definition values (m : list (string * V)) : list V := map snd m.

Definition size (m : list (string * V)) : nat := length m.
End JsMap.
End JsMap.

(** ** Data *)

(** A value of [waitingPlayers]: [{ socket, isAI }]. *)
Record WaitingEntry := {
  socket : Pid;
  isAI : bool
}.

(** An element of [room.messages]. *)
Record Message := {
  text : string;
  timestamp : string
}.

(** A room object.  The object literal of [handleMatchmaking] has the first
    eight properties.  [roomTimer] is read by the RETIRE handler; the
    literal does not define it, so it starts as [None] ([undefined]). *)
Record Room := {
  players : list Pid;
  messages : list Message;
  isFirstTurn : bool;
  playerTypes : gmap Pid bool;
  isActive : bool;
  startTime : Z;
  currentTurn : option Pid;
  turnTimer : option Handle;
  roomTimer : option Handle
}.

(** The variables a live [setInterval] callback closes over. *)
Inductive Interval :=
  | RoomInterval (roomId : RoomId) (room : RoomRef) (timeLeft : Z)
  | TurnInterval (roomId : RoomId) (playerId : Pid) (timeLeft : Z).

(** The three cleanup callbacks given to [setTimeout]: RETIRE and
    [handleDisconnect] delete [socket.roomId], read when the callback runs;
    the room countdown deletes its [roomId]. *)
Inductive TimeoutClosure :=
  | DeleteRoomOfSocket (s : Pid)
  | DeleteRoom (roomId : RoomId).

(** ** Events sent to clients *)

Inductive OutEvent :=
  | RECEIVE_MESSAGE (text timestamp : string) (isUser : bool)
  | YOUR_TURN (canSendMessage : bool) (canGuess : option bool) (timeLeft : option Z)
  | ERROR (message : string)
  | OPPONENT_TYPING (isTyping : bool)
  | GUESS_RESULT (isCorrect opponentGuess : bool) (actualType : string)
  | GAME_OVER (message : string)
  | OPPONENT_DISCONNECTED (message : string) (isAI : option bool)
  | MATCH_FOUND (roomId : RoomId) (conversationId : Z) (isAI isFirstTurn : bool) (timeLeft : Z)
  | WAITING_FOR_PLAYER (message : string)
  | TIME_UPDATE (timeLeft : Z) (isLowTime : bool)
  | ROOM_TIME_UP (message : string)
  | TURN_TIME_UPDATE (timeLeft : Z) (isLowTime : bool)
  | TURN_TIME_UP
  | FORFEIT_RESULT (message : string)
  | OPPONENT_FORFEIT.

(** ** The database service

    [./services/database] is an external collaborator.  A call either
    resolves with a value or rejects. *)

Inductive DbResult (A : Type) :=
  | DbOk (a : A)
  | DbThrow.
Arguments DbOk {A} a.
Arguments DbThrow {A}.

(** The object [createConversation] resolves with; [conversation_id] may be
    missing. *)
Record Conversation := {
  conversation_id : option Z
}.

(** The row [submitGuess] resolves with. *)
Record GuessRow := {
  player1_id : Pid;
  player1_is_ai : bool;
  player2_is_ai : bool
}.

Inductive DbRequest :=
  | CreateMessage (roomId : RoomId) (isPlayer1 : bool) (text : string) (sender : Pid)
  | SubmitGuess (roomId : RoomId) (player : Pid) (isAI : bool)
  | CreateConversation (roomId : RoomId) (p1 p2 : Pid) (p1IsAI p2IsAI : bool).

(** ** Suspended handlers

    The three [async] handlers each await one database call.  A suspended
    handler remembers the variables its continuation uses: its socket, and
    - SEND_MESSAGE: the room object, [otherPlayer] and [data.text];
    - MAKE_GUESS: the room object and [data.isAI];
    - [handleMatchmaking]: the array [players] and [roomId]. *)
Inductive Pending :=
  | AwaitMessage (s : Pid) (room : RoomRef) (otherPlayer : Pid) (data_text : string)
  | AwaitGuess (s : Pid) (room : RoomRef) (data_isAI : bool)
  | AwaitConversation (s : Pid) (players : list WaitingEntry) (roomId : RoomId).

(** ** Effects of a step, in program order *)

Inductive Effect :=
  | Emit (to : Pid) (ev : OutEvent)
  | ClearTimer (h : Handle)
  | SetInterval (h : Handle) (c : Interval)
  | SetTimeout (delay : Z) (c : TimeoutClosure)
  | DbCall (call : nat) (r : DbRequest)
  | UncaughtTypeError.

(** ** The state of the server *)

Record State := {
  waitingPlayers : list (Pid * WaitingEntry);
  rooms : gmap RoomId RoomRef;
  heap : gmap RoomRef Room;
  roomTimers : gmap RoomId Handle;
  turnTimers : gmap Pid Handle;
  socketRoomId : gmap Pid RoomId;
  intervals : gmap Handle Interval;
  timeouts : list (Z * TimeoutClosure);
  pending : gmap nat Pending;
  nextHandle : Handle;
  nextRef : RoomRef;
  nextCall : nat
}.

Definition initial : State := {|
  waitingPlayers := [];
  rooms := ∅;
  heap := ∅;
  roomTimers := ∅;
  turnTimers := ∅;
  socketRoomId := ∅;
  intervals := ∅;
  timeouts := [];
  pending := ∅;
  nextHandle := 0%nat;
  nextRef := 0%nat;
  nextCall := 0%nat
|}.

Definition with_waitingPlayers (f : list (Pid * WaitingEntry) → list (Pid * WaitingEntry)) (st : State) : State :=
  {| waitingPlayers := f (waitingPlayers st); rooms := rooms st; heap := heap st;
     roomTimers := roomTimers st; turnTimers := turnTimers st;
     socketRoomId := socketRoomId st; intervals := intervals st; timeouts := timeouts st;
     pending := pending st; nextHandle := nextHandle st; nextRef := nextRef st;
     nextCall := nextCall st |}.

Definition with_rooms (f : gmap RoomId RoomRef → gmap RoomId RoomRef) (st : State) : State :=
  {| waitingPlayers := waitingPlayers st; rooms := f (rooms st); heap := heap st;
     roomTimers := roomTimers st; turnTimers := turnTimers st;
     socketRoomId := socketRoomId st; intervals := intervals st; timeouts := timeouts st;
     pending := pending st; nextHandle := nextHandle st; nextRef := nextRef st;
     nextCall := nextCall st |}.

Definition with_heap (f : gmap RoomRef Room → gmap RoomRef Room) (st : State) : State :=
  {| waitingPlayers := waitingPlayers st; rooms := rooms st; heap := f (heap st);
     roomTimers := roomTimers st; turnTimers := turnTimers st;
     socketRoomId := socketRoomId st; intervals := intervals st; timeouts := timeouts st;
     pending := pending st; nextHandle := nextHandle st; nextRef := nextRef st;
     nextCall := nextCall st |}.

Definition with_roomTimers (f : gmap RoomId Handle → gmap RoomId Handle) (st : State) : State :=
  {| waitingPlayers := waitingPlayers st; rooms := rooms st; heap := heap st;
     roomTimers := f (roomTimers st); turnTimers := turnTimers st;
     socketRoomId := socketRoomId st; intervals := intervals st; timeouts := timeouts st;
     pending := pending st; nextHandle := nextHandle st; nextRef := nextRef st;
     nextCall := nextCall st |}.

Definition with_turnTimers (f : gmap Pid Handle → gmap Pid Handle) (st : State) : State :=
  {| waitingPlayers := waitingPlayers st; rooms := rooms st; heap := heap st;
     roomTimers := roomTimers st; turnTimers := f (turnTimers st);
     socketRoomId := socketRoomId st; intervals := intervals st; timeouts := timeouts st;
     pending := pending st; nextHandle := nextHandle st; nextRef := nextRef st;
     nextCall := nextCall st |}.

Definition with_socketRoomId (f : gmap Pid RoomId → gmap Pid RoomId) (st : State) : State :=
  {| waitingPlayers := waitingPlayers st; rooms := rooms st; heap := heap st;
     roomTimers := roomTimers st; turnTimers := turnTimers st;
     socketRoomId := f (socketRoomId st); intervals := intervals st;
     timeouts := timeouts st; pending := pending st; nextHandle := nextHandle st;
     nextRef := nextRef st; nextCall := nextCall st |}.

Definition with_intervals (f : gmap Handle Interval → gmap Handle Interval) (st : State) : State :=
  {| waitingPlayers := waitingPlayers st; rooms := rooms st; heap := heap st;
     roomTimers := roomTimers st; turnTimers := turnTimers st;
     socketRoomId := socketRoomId st; intervals := f (intervals st);
     timeouts := timeouts st; pending := pending st; nextHandle := nextHandle st;
     nextRef := nextRef st; nextCall := nextCall st |}.

Definition with_timeouts (f : list (Z * TimeoutClosure) → list (Z * TimeoutClosure)) (st : State) : State :=
  {| waitingPlayers := waitingPlayers st; rooms := rooms st; heap := heap st;
     roomTimers := roomTimers st; turnTimers := turnTimers st;
     socketRoomId := socketRoomId st; intervals := intervals st;
     timeouts := f (timeouts st); pending := pending st; nextHandle := nextHandle st;
     nextRef := nextRef st; nextCall := nextCall st |}.

Definition with_pending (f : gmap nat Pending → gmap nat Pending) (st : State) : State :=
  {| waitingPlayers := waitingPlayers st; rooms := rooms st; heap := heap st;
     roomTimers := roomTimers st; turnTimers := turnTimers st;
     socketRoomId := socketRoomId st; intervals := intervals st; timeouts := timeouts st;
     pending := f (pending st); nextHandle := nextHandle st; nextRef := nextRef st;
     nextCall := nextCall st |}.

Definition with_nextHandle (f : Handle → Handle) (st : State) : State :=
  {| waitingPlayers := waitingPlayers st; rooms := rooms st; heap := heap st;
     roomTimers := roomTimers st; turnTimers := turnTimers st;
     socketRoomId := socketRoomId st; intervals := intervals st; timeouts := timeouts st;
     pending := pending st; nextHandle := f (nextHandle st); nextRef := nextRef st;
     nextCall := nextCall st |}.

Definition with_nextRef (f : RoomRef → RoomRef) (st : State) : State :=
  {| waitingPlayers := waitingPlayers st; rooms := rooms st; heap := heap st;
     roomTimers := roomTimers st; turnTimers := turnTimers st;
     socketRoomId := socketRoomId st; intervals := intervals st; timeouts := timeouts st;
     pending := pending st; nextHandle := nextHandle st; nextRef := f (nextRef st);
     nextCall := nextCall st |}.

Definition with_nextCall (f : nat → nat) (st : State) : State :=
  {| waitingPlayers := waitingPlayers st; rooms := rooms st; heap := heap st;
     roomTimers := roomTimers st; turnTimers := turnTimers st;
     socketRoomId := socketRoomId st; intervals := intervals st; timeouts := timeouts st;
     pending := pending st; nextHandle := nextHandle st; nextRef := nextRef st;
     nextCall := f (nextCall st) |}.

(** ** Commands

    A command transforms the state and reports the effects it performed. *)

Definition Cmd : Type := State → State * list Effect.

Definition skip : Cmd := λ st, (st, []).

Definition seq (c1 c2 : Cmd) : Cmd := λ st,
  let '(st1, e1) := c1 st in
  let '(st2, e2) := c2 st1 in
  (st2, e1 ++ e2).

Notation "c1 >> c2" := (seq c1 c2) (at level 62, right associativity).

Definition modify (f : State → State) : Cmd := λ st, (f st, []).

Definition when (b : bool) (c : Cmd) : Cmd := if b then c else skip.

(** [l.forEach((x, index) => body)]. *)
Fixpoint forEachFrom {A : Type} (i : nat) (l : list A) (body : nat → A → Cmd) : Cmd :=
  match l with
  | [] => skip
  | x :: l' => body i x >> forEachFrom (S i) l' body
  end.

Definition forEachI {A : Type} (l : list A) (body : nat → A → Cmd) : Cmd :=
  forEachFrom 0%nat l body.

Definition forEach {A : Type} (l : list A) (body : A → Cmd) : Cmd :=
  forEachI l (λ _, body).

(** [socket.emit(..)] on the socket [to], or [io.to(to).emit(..)]. *)
Definition emit (to : Pid) (ev : OutEvent) : Cmd := λ st, (st, [Emit to ev]).

(** A [TypeError] leaves the listener that is running; nothing in the
    program catches it.  What the host does with it is not part of the
    program: the state stays as the listener left it. *)
Definition throw : Cmd := λ st, (st, [UncaughtTypeError]).

(** [await dbService.f(..)]: the call is issued and the handler is suspended
    with what its continuation needs; the step ends here. *)
Definition await (r : DbRequest) (k : Pending) : Cmd := λ st,
  let call := nextCall st in
  (with_nextCall S (with_pending (insert call k) st), [DbCall call r]).

(** [clearInterval(h)] / [clearTimeout(h)]: the callback of [h] never runs
    again; clearing a handle that is not live does nothing. *)
Definition clearTimer (h : Handle) : Cmd := λ st,
  (with_intervals (delete h) st, [ClearTimer h]).

(** [const timer = setInterval(callback, 1000); register(timer)]. *)
Definition setInterval (c : Interval) (register : Handle → State → State) : Cmd := λ st,
  let h := nextHandle st in
  (register h (with_nextHandle S (with_intervals (insert h c) st)), [SetInterval h c]).

Definition setTimeout (c : TimeoutClosure) (delay : Z) : Cmd := λ st,
  (with_timeouts (λ l, l ++ [(delay, c)]) st, [SetTimeout delay c]).

(** Assignment to a property of a room object. *)
Definition updateRoom (ref : RoomRef) (f : Room → Room) : Cmd :=
  modify (with_heap (alter f ref)).

Definition set_isActive (b : bool) (r : Room) : Room :=
  {| players := players r; messages := messages r; isFirstTurn := isFirstTurn r;
     playerTypes := playerTypes r; isActive := b; startTime := startTime r;
     currentTurn := currentTurn r; turnTimer := turnTimer r; roomTimer := roomTimer r |}.

Definition set_roomTimer (t : option Handle) (r : Room) : Room :=
  {| players := players r; messages := messages r; isFirstTurn := isFirstTurn r;
     playerTypes := playerTypes r; isActive := isActive r; startTime := startTime r;
     currentTurn := currentTurn r; turnTimer := turnTimer r; roomTimer := t |}.

Definition push_message (m : Message) (r : Room) : Room :=
  {| players := players r; messages := messages r ++ [m]; isFirstTurn := isFirstTurn r;
     playerTypes := playerTypes r; isActive := isActive r; startTime := startTime r;
     currentTurn := currentTurn r; turnTimer := turnTimer r; roomTimer := roomTimer r |}.

(** The variable [timeLeft] of a live interval callback. *)
Definition set_timeLeft (t : Z) (c : Interval) : Interval :=
  match c with
  | RoomInterval roomId room _ => RoomInterval roomId room t
  | TurnInterval roomId playerId _ => TurnInterval roomId playerId t
  end.

(** ** Looking a room up *)

(** [socket.roomId && rooms.has(socket.roomId)], with the room id when the
    test passes. *)
Definition socketRoom (st : State) (s : Pid) : option RoomId :=
  match socketRoomId st !! s with
  | Some roomId =>
      if truthy roomId && bool_decide (is_Some (rooms st !! roomId))
      then Some roomId else None
  | None => None
  end.

(** [rooms.get(roomId)] with the object it refers to. *)
Definition getRoom (st : State) (roomId : RoomId) : option (RoomRef * Room) :=
  match rooms st !! roomId with
  | Some ref =>
      match heap st !! ref with
      | Some room => Some (ref, room)
      | None => None
      end
  | None => None
  end.

(** The shape shared by the socket handlers:
    [if (socket.roomId && rooms.has(socket.roomId)) { const room = rooms.get(socket.roomId); .. } else { .. }].
    A registry entry always refers to an object of the store (see
    [wf_state]); the remaining branch does nothing. *)
Definition ifInRoom (s : Pid) (body : RoomId → RoomRef → Room → Cmd) (otherwise : Cmd) : Cmd := λ st,
  match socketRoom st s with
  | Some roomId =>
      match getRoom st roomId with
      | Some (ref, room) => body roomId ref room st
      | None => (st, [])
      end
  | None => otherwise st
  end.

(** [room.players.find(p => p !== id)] *)
Definition findOther (id : Pid) (r : Room) : option Pid :=
  find (λ p, negb (bool_decide (p = id))) (players r).

(** [room.players.find(p => p === id)] *)
Definition findSelf (id : Pid) (r : Room) : option Pid :=
  find (λ p, bool_decide (p = id)) (players r).

(** [if (roomTimers.has(roomId)) { clearInterval(roomTimers.get(roomId)); roomTimers.delete(roomId); }] *)
Definition stopRoomTimer (roomId : RoomId) : Cmd := λ st,
  match roomTimers st !! roomId with
  | Some h => (clearTimer h >> modify (with_roomTimers (delete roomId))) st
  | None => (st, [])
  end.

(** ** Countdown timers *)

(** [handleForfeit(roomId, playerId)] *)
Definition handleForfeit (roomId : RoomId) (playerId : Pid) : Cmd := λ st,
  match getRoom st roomId with
  | None => (st, [])
  | Some (_, room) =>
      (stopRoomTimer roomId >>
       emit playerId (FORFEIT_RESULT "You've lost your turn due to time running out.") >>
       match findOther playerId room with
       | Some otherPlayer => when (truthy otherPlayer) (emit otherPlayer OPPONENT_FORFEIT)
       | None => skip
       end) st
  end.

(** [startRoomCountdown(roomId)]: the callback captures the room object. *)
Definition startRoomCountdown (roomId : RoomId) : Cmd := λ st,
  match rooms st !! roomId with
  | None => (st, [])
  | Some ref =>
      (match roomTimers st !! roomId with
       | Some h => clearTimer h
       | None => skip
       end >>
       setInterval (RoomInterval roomId ref (ROOM_TIME_LIMIT / 1000))
                   (λ timer, with_roomTimers (insert roomId timer))) st
  end.

(** One run of the callback of [startRoomCountdown], whose handle is
    [timer]. *)
Definition roomCountdownTick (timer : Handle) (roomId : RoomId) (ref : RoomRef) (timeLeft : Z) : Cmd := λ st,
  match heap st !! ref with
  | None => (st, [])
  | Some room =>
      if negb (isActive room)
      then (clearTimer timer >> modify (with_roomTimers (delete roomId))) st
      else
        let timeLeft' := timeLeft - 1 in
        (modify (with_intervals (alter (set_timeLeft timeLeft') timer)) >>
         forEach (players room) (λ playerId,
           emit playerId (TIME_UPDATE timeLeft' (timeLeft' <=? 30))) >>
         when (timeLeft' <=? 0)
           (clearTimer timer >>
            modify (with_roomTimers (delete roomId)) >>
            forEach (players room) (λ playerId,
              emit playerId (ROOM_TIME_UP "Time's up! Make your guess about your opponent.")) >>
            updateRoom ref (set_isActive false) >>
            setTimeout (DeleteRoom roomId) 5000)) st
  end.

(** [startTurnCountdown(roomId, playerId)] *)
Definition startTurnCountdown (roomId : RoomId) (playerId : Pid) : Cmd := λ st,
  match rooms st !! roomId with
  | None => (st, [])
  | Some _ =>
      (match turnTimers st !! playerId with
       | Some h => clearTimer h
       | None => skip
       end >>
       setInterval (TurnInterval roomId playerId (TURN_TIME_LIMIT / 1000))
                   (λ timer, with_turnTimers (insert playerId timer))) st
  end.

(** One run of the callback of [startTurnCountdown], whose handle is
    [timer]. *)
Definition turnCountdownTick (timer : Handle) (roomId : RoomId) (playerId : Pid) (timeLeft : Z) : Cmd :=
  let timeLeft' := timeLeft - 1 in
  modify (with_intervals (alter (set_timeLeft timeLeft') timer)) >>
  emit playerId (TURN_TIME_UPDATE timeLeft' (timeLeft' <=? 5)) >>
  when (timeLeft' <=? 0)
    (clearTimer timer >>
     modify (with_turnTimers (delete playerId)) >>
     emit playerId TURN_TIME_UP >>
     handleForfeit roomId playerId).

(** The timer subsystem runs the callback of a live interval. *)
Definition intervalTick (h : Handle) : Cmd := λ st,
  match intervals st !! h with
  | Some (RoomInterval roomId ref timeLeft) => roomCountdownTick h roomId ref timeLeft st
  | Some (TurnInterval roomId playerId timeLeft) => turnCountdownTick h roomId playerId timeLeft st
  | None => (st, [])
  end.

(** The callback of a cleanup [setTimeout]. *)
Definition runTimeout (c : TimeoutClosure) : Cmd := λ st,
  match c with
  | DeleteRoomOfSocket s =>
      match socketRoomId st !! s with
      | Some roomId => (with_rooms (delete roomId) st, [])
      | None => (st, [])
      end
  | DeleteRoom roomId => (with_rooms (delete roomId) st, [])
  end.

(** The timer subsystem runs the pending timeout at position [k]. *)
Definition timeoutFire (k : nat) : Cmd := λ st,
  match timeouts st !! k with
  | Some (_, c) => runTimeout c (with_timeouts (delete k) st)
  | None => (st, [])
  end.

(** ** Socket handlers *)

(** [socket.on('CANCEL_MATCHMAKING', ..)] *)
Definition on_CANCEL_MATCHMAKING (s : Pid) : Cmd :=
  modify (with_waitingPlayers (JsMap.delete s)).

(** [socket.on('SEND_MESSAGE', ..)], up to [await dbService.createMessage(..)].
    The arguments of the call are evaluated inside the [try]: with no
    payload, [data.text] throws there and the [catch] block answers. *)
Definition on_SEND_MESSAGE (s : Pid) (data : option string) : Cmd :=
  ifInRoom s (λ roomId ref room,
    match findSelf s room, findOther s room with
    | Some sender, Some otherPlayer =>
        if truthy sender && truthy otherPlayer then
          let isPlayer1 := bool_decide (players room !! 0%nat = Some s) in
          match data with
          | Some data_text =>
              await (CreateMessage roomId isPlayer1 data_text s)
                    (AwaitMessage s ref otherPlayer data_text)
          | None => emit s (ERROR "Failed to send message")
          end
        else emit s (ERROR "Invalid sender or receiver")
    | _, _ => emit s (ERROR "Invalid sender or receiver")
    end)
  (emit s (ERROR "Invalid room")).

(** The SEND_MESSAGE handler from the point where [createMessage] settles:
    the rest of the [try] block, or the [catch] block.  [now] is
    [new Date().toISOString()]; [socket.roomId] is read again for
    [startTurnCountdown]. *)
Definition resume_SEND_MESSAGE (s : Pid) (ref : RoomRef) (otherPlayer : Pid) (data_text : string)
    (db : DbResult unit) (now : string) : Cmd :=
  match db with
  | DbOk _ =>
      let message := {| text := data_text; timestamp := now |} in
      updateRoom ref (push_message message) >>
      emit s (RECEIVE_MESSAGE (text message) (timestamp message) true) >>
      emit otherPlayer (RECEIVE_MESSAGE (text message) (timestamp message) false) >>
      emit otherPlayer (YOUR_TURN true None (Some TURN_TIME_LIMIT)) >>
      (λ st, match socketRoomId st !! s with
             | Some roomId => startTurnCountdown roomId otherPlayer st
             | None => (st, [])
             end)
  | DbThrow => emit s (ERROR "Failed to send message")
  end.

(** [socket.on('TYPING_STATUS', ..)].  The listener is synchronous and has
    no [try]: with no payload, [data.isTyping] throws out of it before
    anything is emitted. *)
Definition on_TYPING_STATUS (s : Pid) (data : option bool) : Cmd :=
  ifInRoom s (λ roomId ref room,
    match findOther s room with
    | Some otherPlayer =>
        when (truthy otherPlayer)
          match data with
          | Some data_isTyping => emit otherPlayer (OPPONENT_TYPING data_isTyping)
          | None => throw
          end
    | None => skip
    end)
  skip.

(** The two conditional expressions of the MAKE_GUESS handler. *)
Definition isCorrect (id : Pid) (data_isAI : bool) (result : GuessRow) : bool :=
  if bool_decide (id = player1_id result)
  then Bool.eqb data_isAI (player2_is_ai result)
  else Bool.eqb data_isAI (player1_is_ai result).

Definition actualType (id : Pid) (result : GuessRow) : string :=
  if bool_decide (id = player1_id result)
  then (if player2_is_ai result then "AI" else "Human")
  else (if player1_is_ai result then "AI" else "Human").

(** [socket.on('MAKE_GUESS', ..)], up to [await dbService.submitGuess(..)].
    The room countdown is stopped before the arguments of the call are
    evaluated: with no payload, [data.isAI] throws then, inside the [try],
    and the [catch] block answers. *)
Definition on_MAKE_GUESS (s : Pid) (data : option bool) : Cmd :=
  ifInRoom s (λ roomId ref room,
    stopRoomTimer roomId >>
    match data with
    | Some data_isAI => await (SubmitGuess roomId s data_isAI) (AwaitGuess s ref data_isAI)
    | None => emit s (ERROR "Failed to submit guess")
    end)
  (emit s (ERROR "Invalid room")).

(** The MAKE_GUESS handler from the point where [submitGuess] settles: the
    rest of the [try] block, or the [catch] block.  [room] is the object
    obtained before the call. *)
Definition resume_MAKE_GUESS (s : Pid) (ref : RoomRef) (data_isAI : bool)
    (db : DbResult GuessRow) : Cmd :=
  match db with
  | DbOk result =>
      emit s (GUESS_RESULT (isCorrect s data_isAI result) data_isAI (actualType s result)) >>
      (λ st, match heap st !! ref with
             | Some room =>
                 match findOther s room with
                 | Some otherPlayer =>
                     when (truthy otherPlayer)
                       (emit otherPlayer
                          (GAME_OVER "Your opponent has made their guess. The game is over.")) st
                 | None => (st, [])
                 end
             | None => (st, [])
             end)
  | DbThrow => emit s (ERROR "Failed to submit guess")
  end.

(** [socket.on('RETIRE', ..)] *)
Definition on_RETIRE (s : Pid) : Cmd :=
  ifInRoom s (λ roomId ref room,
    match findOther s room with
    | Some otherPlayer =>
        when (truthy otherPlayer)
          (emit otherPlayer (OPPONENT_DISCONNECTED "Your opponent has retired from the game."
                                                   (playerTypes room !! s)) >>
           match roomTimer room with
           | Some t => clearTimer t >> updateRoom ref (set_roomTimer None)
           | None => skip
           end >>
           emit otherPlayer (YOUR_TURN false (Some true) None))
    | None => skip
    end >>
    updateRoom ref (set_isActive false) >>
    setTimeout (DeleteRoomOfSocket s) 5000)
  skip.

(** [handleDisconnect(socket)] *)
Definition handleDisconnect (s : Pid) : Cmd :=
  modify (with_waitingPlayers (JsMap.delete s)) >>
  ifInRoom s (λ roomId ref room,
    stopRoomTimer roomId >>
    match findOther s room with
    | Some otherPlayer =>
        when (truthy otherPlayer)
          (emit otherPlayer (OPPONENT_DISCONNECTED "Your opponent has disconnected."
                                                   (playerTypes room !! s)) >>
           emit otherPlayer (YOUR_TURN false (Some true) None))
    | None => skip
    end >>
    updateRoom ref (set_isActive false) >>
    setTimeout (DeleteRoomOfSocket s) 5000)
  skip.

(** ** Matchmaking *)

(** [!conversation || !conversation.conversation_id] fails exactly when the
    call resolved with an object whose [conversation_id] is truthy; ids are
    numbers, of which [0] is falsy. *)
Definition usableConversation (c : option Conversation) : option Z :=
  match c with
  | Some {| conversation_id := Some n |} => if n =? 0 then None else Some n
  | _ => None
  end.

(** [new Map(players.map(p => [p.socket.id, p.isAI]))]: a later pair
    overwrites an earlier one with the same key. *)
Definition playerTypesOf (ps : list WaitingEntry) : gmap Pid bool :=
  fold_left (λ m p, <[socket p := isAI p]> m) ps ∅.

(** The object literal given to [rooms.set]; [first] is
    [Math.random() < 0.5] and [now] is [Date.now()]. *)
Definition newRoom (ps : list WaitingEntry) (first : bool) (now : Z) : Room :=
  {| players := map socket ps;
     messages := [];
     isFirstTurn := first;
     playerTypes := playerTypesOf ps;
     isActive := true;
     startTime := now;
     currentTurn := None;
     turnTimer := None;
     roomTimer := None |}.

(** [rooms.set(roomId, {..})] with a freshly allocated object. *)
Definition roomsSet (roomId : RoomId) (room : Room) : Cmd := λ st,
  let ref := nextRef st in
  (with_rooms (insert roomId ref) (with_heap (insert ref room) (with_nextRef S st)), []).

(** The [catch] block of [handleMatchmaking]. *)
Definition catchMatchmaking (s : Pid) : Cmd :=
  emit s (ERROR "Failed to join matchmaking") >>
  modify (with_waitingPlayers (JsMap.delete s)).

(** The [MATCH_FOUND] notification of the player at position [index];
    [isFirstTurn] is read from the registry. *)
Definition notifyMatch (roomId : RoomId) (cid : Z) (index : nat) (player : WaitingEntry) : Cmd := λ st,
  match getRoom st roomId with
  | Some (_, room) =>
      emit (socket player)
           (MATCH_FOUND roomId cid (isAI player)
              (if (index =? 0)%nat then isFirstTurn room else negb (isFirstTurn room))
              ROOM_TIME_LIMIT) st
  | None => (st, [])
  end.

(** The body of [if (waitingPlayers.size >= 2) { .. }], up to
    [await dbService.createConversation(..)]; [roomId] is
    [generateRoomId()].  Reading [players[0]] or [players[1]] of a shorter
    array would throw inside the [try]. *)
Definition beginMatch (s : Pid) (roomId : RoomId) : Cmd := λ st,
  let ps := take 2 (JsMap.values (waitingPlayers st)) in
  match ps !! 0%nat, ps !! 1%nat with
  | Some p0, Some p1 =>
      await (CreateConversation roomId (socket p0) (socket p1) (isAI p0) (isAI p1))
            (AwaitConversation s ps roomId) st
  | _, _ => catchMatchmaking s st
  end.

(** [handleMatchmaking(socket)], up to the [await]; [coinIsAI] is
    [Math.random() < 0.5]. *)
Definition handleMatchmaking (s : Pid) (coinIsAI : bool) (newRoomId : RoomId) : Cmd := λ st,
  if bool_decide (is_Some (socketRoom st s)) then (st, [])
  else if JsMap.has s (waitingPlayers st) then (st, [])
  else
    (modify (with_waitingPlayers (JsMap.set s {| socket := s; isAI := coinIsAI |})) >>
     (λ st1,
        if (2 <=? JsMap.size (waitingPlayers st1))%nat
        then beginMatch s newRoomId st1
        else emit s (WAITING_FOR_PLAYER "Waiting for another player to join...") st1)) st.

(** [handleMatchmaking] from the point where [createConversation] settles:
    the rest of the [try] block, or the [catch] block. *)
Definition resume_handleMatchmaking (s : Pid) (ps : list WaitingEntry) (roomId : RoomId)
    (db : DbResult (option Conversation)) (coinFirstTurn : bool) (clock : Z) : Cmd :=
  match db with
  | DbThrow => catchMatchmaking s
  | DbOk c =>
      match usableConversation c with
      | None => catchMatchmaking s
      | Some cid =>
          roomsSet roomId (newRoom ps coinFirstTurn clock) >>
          forEach ps (λ player,
            modify (with_socketRoomId (insert (socket player) roomId)) >>
            modify (with_waitingPlayers (JsMap.delete (socket player)))) >>
          forEachI ps (notifyMatch roomId cid) >>
          startRoomCountdown roomId
      end
  end.

(** ** The server as a transition system *)

(** What can happen: a socket event, a run of a live interval callback, a
    run of a pending timeout callback, the settlement of a database call.
    Each carries the values the environment supplies to the code it runs.
    The payload [data] of a socket event is [None] when the client sent
    none ([data] is [undefined] or [null], and reading a property of it
    throws); otherwise it holds the property the handler reads,
    [data.text], [data.isTyping] or [data.isAI], taken to have the type
    the client gives it: a string, a boolean, a boolean. *)
Inductive Event :=
  | JOIN_MATCHMAKING (s : Pid) (coinIsAI : bool) (newRoomId : RoomId)
  | CANCEL_MATCHMAKING (s : Pid)
  | SEND_MESSAGE (s : Pid) (data : option string)
  | TYPING_STATUS (s : Pid) (data : option bool)
  | MAKE_GUESS (s : Pid) (data : option bool)
  | RETIRE (s : Pid)
  | DISCONNECT (s : Pid)
  | INTERVAL (h : Handle)
  | TIMEOUT (k : nat)
  | CONVERSATION_SETTLED (call : nat) (db : DbResult (option Conversation))
                         (coinFirstTurn : bool) (clock : Z)
  | MESSAGE_SETTLED (call : nat) (db : DbResult unit) (now : string)
  | GUESS_SETTLED (call : nat) (db : DbResult GuessRow).

(** The call [call] settles and the handler suspended on it goes on.  A
    call that is not pending, or is of another kind, settles nothing. *)
Definition settle (call : nat) (resume : Pending → option Cmd) : Cmd := λ st,
  match pending st !! call with
  | Some k =>
      match resume k with
      | Some c => c (with_pending (delete call) st)
      | None => (st, [])
      end
  | None => (st, [])
  end.

Definition step (e : Event) : Cmd :=
  match e with
  | JOIN_MATCHMAKING s coinIsAI newRoomId => handleMatchmaking s coinIsAI newRoomId
  | CANCEL_MATCHMAKING s => on_CANCEL_MATCHMAKING s
  | SEND_MESSAGE s data => on_SEND_MESSAGE s data
  | TYPING_STATUS s data => on_TYPING_STATUS s data
  | MAKE_GUESS s data => on_MAKE_GUESS s data
  | RETIRE s => on_RETIRE s
  | DISCONNECT s => handleDisconnect s
  | INTERVAL h => intervalTick h
  | TIMEOUT k => timeoutFire k
  | CONVERSATION_SETTLED call db coinFirstTurn clock =>
      settle call (λ k, match k with
                        | AwaitConversation s ps roomId =>
                            Some (resume_handleMatchmaking s ps roomId db coinFirstTurn clock)
                        | _ => None
                        end)
  | MESSAGE_SETTLED call db now =>
      settle call (λ k, match k with
                        | AwaitMessage s ref otherPlayer data_text =>
                            Some (resume_SEND_MESSAGE s ref otherPlayer data_text db now)
                        | _ => None
                        end)
  | GUESS_SETTLED call db =>
      settle call (λ k, match k with
                        | AwaitGuess s ref data_isAI =>
                            Some (resume_MAKE_GUESS s ref data_isAI db)
                        | _ => None
                        end)
  end.

Fixpoint run (es : list Event) : Cmd :=
  match es with
  | [] => skip
  | e :: es' => step e >> run es'
  end.

(** The states the server can be in. *)
Inductive reachable : State → Prop :=
  | reachable_initial : reachable initial
  | reachable_step st e : reachable st → reachable (step e st).1.

(** ** A small session used in the examples *)

Module Scenario.
Definition alice : Pid := "A".
Definition bob : Pid := "B".

Definition conv : DbResult (option Conversation) :=
  DbOk (Some {| conversation_id := Some 7 |}).

Definition entryA : WaitingEntry := {| socket := alice; isAI := true |}.
Definition entryB : WaitingEntry := {| socket := bob; isAI := true |}.

(** Alice has joined and waits. *)
Definition waiting : State :=
  (run [JOIN_MATCHMAKING alice true "r0"] initial).1.

(** Bob has joined too; the conversation of Alice and Bob, for room
    ["r1"], is being recorded (call [0]). *)
Definition pairing : State :=
  (run [JOIN_MATCHMAKING bob true "r1"] waiting).1.

(** The room object made for Alice and Bob. *)
Definition room1 : Room := newRoom [entryA; entryB] true 0.

(** The row the persistence service keeps for ["r1"]. *)
Definition row1 : GuessRow :=
  {| player1_id := alice; player1_is_ai := true; player2_is_ai := true |}.

(** The conversation is recorded: Alice and Bob share room ["r1"]. *)
Definition matched : State :=
  (run [CONVERSATION_SETTLED 0 conv true 0] pairing).1.

(** Alice has sent a message (call [1]), which started Bob's turn
    countdown (handle [1]), and has retired; the cleanup has removed the
    room from the registry. *)
Definition abandoned : State :=
  (run [SEND_MESSAGE alice (Some "hi"); MESSAGE_SETTLED 1 (DbOk ()) "t0";
        RETIRE alice; TIMEOUT 0] matched).1.

(** While the conversation of Alice and Bob is being recorded, Carol
    joins, which hands Alice and Bob to a second call (call [1], for room
    ["r2"]).  Both calls resolve: Alice and Bob are the players of ["r1"]
    and of ["r2"], and their [roomId] is ["r2"].  Alice retires, and the
    cleanup removes ["r2"]. *)
Definition carol : Pid := "C".

Definition stale : State :=
  (run [JOIN_MATCHMAKING carol false "r2";
        CONVERSATION_SETTLED 0 conv true 0; CONVERSATION_SETTLED 1 conv true 0;
        RETIRE alice; TIMEOUT 0] pairing).1.
End Scenario.

(** ** Well-formed states *)

Definition is_room_interval (c : Interval) : Prop :=
  match c with
  | RoomInterval _ _ _ => True
  | TurnInterval _ _ _ => False
  end.

Definition is_turn_interval_of (p : Pid) (c : Interval) : Prop :=
  match c with
  | RoomInterval _ _ _ => False
  | TurnInterval _ playerId _ => playerId = p
  end.

(** The room object a suspended handler holds. *)
Definition pendingRoom (k : Pending) : option RoomRef :=
  match k with
  | AwaitMessage _ ref _ _ => Some ref
  | AwaitGuess _ ref _ => Some ref
  | AwaitConversation _ _ _ => None
  end.

(** What every reachable state satisfies: the waiting list is keyed by the
    id of the socket it stores, without repetition; no room object has a
    [roomTimer]; handles, references and calls are allocated in order; a
    handle kept in [roomTimers] is that of a room countdown and a handle
    kept in [turnTimers] under a player is that of a turn countdown of this
    player; the registry, the room countdowns and the suspended handlers
    refer to objects of the store. *)
Record wf_state (st : State) : Prop := {
  wf_queue_keys : Forall (λ kv, kv.1 = socket kv.2) (waitingPlayers st);
  wf_queue_nodup : NoDup (waitingPlayers st).*1;
  wf_roomTimer_undefined : ∀ ref room, heap st !! ref = Some room → roomTimer room = None;
  wf_intervals_allocated : ∀ h c, intervals st !! h = Some c → (h < nextHandle st)%nat;
  wf_roomTimers : ∀ roomId h, roomTimers st !! roomId = Some h →
    (h < nextHandle st)%nat ∧ ∀ c, intervals st !! h = Some c → is_room_interval c;
  wf_turnTimers : ∀ p h, turnTimers st !! p = Some h →
    (h < nextHandle st)%nat ∧ ∀ c, intervals st !! h = Some c → is_turn_interval_of p c;
  wf_heap_allocated : ∀ ref room, heap st !! ref = Some room → (ref < nextRef st)%nat;
  wf_rooms_heap : ∀ roomId ref, rooms st !! roomId = Some ref → is_Some (heap st !! ref);
  wf_intervals_heap : ∀ h roomId ref timeLeft,
    intervals st !! h = Some (RoomInterval roomId ref timeLeft) → is_Some (heap st !! ref);
  wf_pending_allocated : ∀ call k, pending st !! call = Some k → (call < nextCall st)%nat;
  wf_pending_heap : ∀ call k ref,
    pending st !! call = Some k → pendingRoom k = Some ref → is_Some (heap st !! ref)
}.

(** A command that keeps states well formed. *)
Definition preserves (c : Cmd) : Prop := ∀ st, wf_state st → wf_state (c st).1.

(** An update of a room object that leaves [roomTimer] undefined. *)
Definition keeps_roomTimer (f : Room → Room) : Prop :=
  ∀ r, roomTimer r = None → roomTimer (f r) = None.

(** ** Vocabulary of the properties *)

(** The socket [s] is in the room [roomId] of the registry, whose object,
    at [ref], is [room]: the test
    [socket.roomId && rooms.has(socket.roomId)] passes. *)
Definition inRoom (st : State) (s : Pid) (roomId : RoomId) (ref : RoomRef) (room : Room) : Prop :=
  socketRoom st s = Some roomId ∧ getRoom st roomId = Some (ref, room).

(** [isActive] of the room registered as [roomId], if there is one. *)
Definition roomActive (st : State) (roomId : RoomId) : option bool :=
  (λ x, isActive x.2) <$> getRoom st roomId.

(** [messages] of the room registered as [roomId], if there is one. *)
Definition roomMessages (st : State) (roomId : RoomId) : option (list Message) :=
  (λ x, messages x.2) <$> getRoom st roomId.

(** The turn countdown with handle [h], of player [playerId] in room
    [roomId], is live with [timeLeft] seconds left. *)
Definition turnTimerLive (h : Handle) (roomId : RoomId) (playerId : Pid) (timeLeft : Z) (st : State) : Prop :=
  intervals st !! h = Some (TurnInterval roomId playerId timeLeft).

(** A command that keeps states well formed and a given live turn countdown
    as it is. *)
Definition keeps (h : Handle) (roomId : RoomId) (playerId : Pid) (timeLeft : Z) (c : Cmd) : Prop :=
  ∀ st, wf_state st → turnTimerLive h roomId playerId timeLeft st →
        wf_state (c st).1 ∧ turnTimerLive h roomId playerId timeLeft (c st).1.

(** An event that is neither the settlement of a message nor a run of the
    countdown [h]. *)
Definition leavesTurnTimer (h : Handle) (e : Event) : Prop :=
  match e with
  | MESSAGE_SETTLED _ _ _ => False
  | INTERVAL h' => h' ≠ h
  | _ => True
  end.

(** The timer operations that end the relay of a message: what
    [startTurnCountdown(socket.roomId, otherPlayer)] does in [st]. *)
Definition turnTimerEffects (st : State) (s otherPlayer : Pid) : list Effect :=
  match socketRoomId st !! s with
  | Some roomId =>
      match rooms st !! roomId with
      | Some _ =>
          match turnTimers st !! otherPlayer with Some h => [ClearTimer h] | None => [] end ++
          [SetInterval (nextHandle st) (TurnInterval roomId otherPlayer 900)]
      | None => []
      end
  | None => []
  end.


(** ** Further invariants *)

(** A command that keeps the property [I] of states. *)
Definition invariant (I : State → Prop) (c : Cmd) : Prop :=
  ∀ st, I st → I (c st).1.

(** Every room object has exactly two players, they differ, and
    [playerTypes] has an entry for each; every pair a suspended
    [handleMatchmaking] holds has two different sockets. *)
Definition paired (st : State) : Prop :=
  (∀ ref room, heap st !! ref = Some room →
     ∃ a b, players room = [a; b] ∧ a ≠ b ∧
            is_Some (playerTypes room !! a) ∧ is_Some (playerTypes room !! b)) ∧
  (∀ call s ps roomId,
     pending st !! call = Some (AwaitConversation s ps roomId) →
     ∃ e0 e1, ps = [e0; e1] ∧ socket e0 ≠ socket e1).

(** Every live room countdown is the one registered in [roomTimers] for its
    room id, and every live turn countdown is the one registered in
    [turnTimers] for its player. *)
Definition timers_registered (st : State) : Prop :=
  (∀ h roomId ref t, intervals st !! h = Some (RoomInterval roomId ref t) →
                     roomTimers st !! roomId = Some h) ∧
  (∀ h roomId p t, intervals st !! h = Some (TurnInterval roomId p t) →
                   turnTimers st !! p = Some h).

(** No socket of the waiting list passes the test
    [socket.roomId && rooms.has(socket.roomId)]. *)
Definition exclusive (st : State) : Prop :=
  ∀ s, JsMap.has s (waitingPlayers st) = true → socketRoom st s = None.

(** The room id under which an event registers a new room is stored on no
    socket: [generateRoomId()] has not returned it before. *)
Definition freshRoomId (st : State) (e : Event) : Prop :=
  match e with
  | CONVERSATION_SETTLED call (DbOk c) _ _ =>
      ∀ s ps roomId cid,
        pending st !! call = Some (AwaitConversation s ps roomId) →
        usableConversation c = Some cid →
        ∀ s', socketRoomId st !! s' ≠ Some roomId
  | _ => True
  end.
(** * Properties *)

(** ** Commands *)

Lemma seq_state (c1 c2 : Cmd) st : ((c1 >> c2) st).1 = (c2 (c1 st).1).1.
Proof. unfold seq. destruct (c1 st) as [st1 e1]. simpl. by destruct (c2 st1). Qed.

Lemma seq_effects (c1 c2 : Cmd) st :
  ((c1 >> c2) st).2 = (c1 st).2 ++ (c2 (c1 st).1).2.
Proof. unfold seq. destruct (c1 st) as [st1 e1]. simpl. by destruct (c2 st1). Qed.

Lemma seq_modify f (c : Cmd) st : (modify f >> c) st = c (f st).
Proof. unfold seq, modify. by destruct (c (f st)). Qed.

Lemma seq_emit to ev (c : Cmd) st :
  (emit to ev >> c) st = ((c st).1, Emit to ev :: (c st).2).
Proof. unfold seq, emit. by destruct (c st). Qed.

Lemma seq_silent (c1 c2 : Cmd) st : (c1 st).2 = [] → (c1 >> c2) st = c2 (c1 st).1.
Proof.
  unfold seq. destruct (c1 st) as [st1 e1]. simpl. intros ->. by destruct (c2 st1).
Qed.

Lemma seq_skip (c : Cmd) st : (skip >> c) st = c st.
Proof. unfold seq, skip. by destruct (c st). Qed.

Lemma seq_assoc (c1 c2 c3 : Cmd) st : ((c1 >> c2) >> c3) st = (c1 >> (c2 >> c3)) st.
Proof.
  unfold seq. destruct (c1 st) as [st1 e1]. destruct (c2 st1) as [st2 e2].
  destruct (c3 st2) as [st3 e3]. by rewrite app_assoc.
Qed.

Lemma seq_clearTimer h (c : Cmd) st :
  (clearTimer h >> c) st =
  ((c (with_intervals (delete h) st)).1, ClearTimer h :: (c (with_intervals (delete h) st)).2).
Proof. unfold seq, clearTimer. by destruct (c _). Qed.

(** ** The insertion-ordered map *)

Lemma JsMap_has_elem_of {V} (k : string) (m : list (string * V)) :
  JsMap.has k m = true ↔ k ∈ m.*1.
Proof.
  unfold JsMap.has. induction m as [|[k' v] m IH]; simpl.
  - split; [done|]. by intros ?%elem_of_nil.
  - rewrite orb_true_iff, IH, elem_of_cons, bool_decide_eq_true.
    split; intros [?|?]; auto.
Qed.

Lemma JsMap_delete_absent {V} (k : string) (m : list (string * V)) :
  JsMap.has k m = false → JsMap.delete k m = m.
Proof.
  unfold JsMap.has, JsMap.delete. induction m as [|[k' v] m IH]; simpl; [done|].
  intros [Hk Hm]%orb_false_iff. rewrite Hk. simpl. by rewrite IH.
Qed.

Lemma JsMap_delete_app {V} (k : string) (m1 m2 : list (string * V)) :
  JsMap.delete k (m1 ++ m2) = JsMap.delete k m1 ++ JsMap.delete k m2.
Proof. unfold JsMap.delete. apply List.filter_app. Qed.


Lemma JsMap_delete_keys {V} (k : string) (m : list (string * V)) :
  (JsMap.delete k m).*1 = List.filter (λ k', negb (bool_decide (k' = k))) m.*1.
Proof.
  unfold JsMap.delete. induction m as [|[k' v] m IH]; [done|].
  csimpl. destruct (bool_decide (k' = k)); csimpl; by rewrite IH.
Qed.

Lemma JsMap_delete_nodup {V} (k : string) (m : list (string * V)) :
  NoDup m.*1 → NoDup (JsMap.delete k m).*1.
Proof.
  rewrite JsMap_delete_keys. rewrite !NoDup_ListNoDup. apply List.NoDup_filter.
Qed.

Lemma JsMap_delete_Forall {V} (P : string * V → Prop) (k : string) (m : list (string * V)) :
  Forall P m → Forall P (JsMap.delete k m).
Proof.
  unfold JsMap.delete. rewrite !Forall_forall. intros H x Hx.
  apply H. apply list_elem_of_In in Hx. apply List.filter_In in Hx.
  apply list_elem_of_In. tauto.
Qed.

Lemma JsMap_set_fresh {V} (k : string) (v : V) (m : list (string * V)) :
  JsMap.has k m = false → JsMap.set k v m = m ++ [(k, v)].
Proof. unfold JsMap.set. by intros ->. Qed.

(** ** Well-formedness is an invariant *)

Lemma wf_initial : wf_state initial.
Proof.
  constructor; simpl; try (intros; simplify_map_eq; done); constructor.
Qed.

Lemma preserves_skip : preserves skip.
Proof. by intros st H. Qed.

Lemma preserves_seq c1 c2 : preserves c1 → preserves c2 → preserves (c1 >> c2).
Proof. intros H1 H2 st H. rewrite seq_state. by apply H2, H1. Qed.

Lemma preserves_when b c : preserves c → preserves (when b c).
Proof. destruct b; simpl; [done|]. intros _. apply preserves_skip. Qed.

Lemma preserves_emit to ev : preserves (emit to ev).
Proof. by intros st H. Qed.

Lemma preserves_forEachFrom {A} (l : list A) body i :
  (∀ i x, preserves (body i x)) → preserves (forEachFrom i l body).
Proof.
  intros Hb. revert i. induction l as [|x l IH]; intros i; simpl.
  - apply preserves_skip.
  - apply preserves_seq; [apply Hb | apply IH].
Qed.

Lemma preserves_forEachI {A} (l : list A) body :
  (∀ i x, preserves (body i x)) → preserves (forEachI l body).
Proof. apply preserves_forEachFrom. Qed.

Lemma preserves_forEach {A} (l : list A) body :
  (∀ x, preserves (body x)) → preserves (forEach l body).
Proof. intros Hb. apply preserves_forEachI. intros _. apply Hb. Qed.

Lemma is_room_interval_set_timeLeft t c :
  is_room_interval (set_timeLeft t c) ↔ is_room_interval c.
Proof. by destruct c. Qed.

Lemma is_turn_interval_of_set_timeLeft p t c :
  is_turn_interval_of p (set_timeLeft t c) ↔ is_turn_interval_of p c.
Proof. by destruct c. Qed.

Lemma preserves_clearTimer h : preserves (clearTimer h).
Proof.
  intros st [Hk Hn Hu Ha Hr Ht Hh Hrh Hih Hpa Hph]. constructor; simpl; try done.
  - intros h' c [_ H]%lookup_delete_Some. eauto.
  - intros roomId h' H. destruct (Hr _ _ H) as [? Hc]. split; [done|].
    intros c [_ H']%lookup_delete_Some. eauto.
  - intros p h' H. destruct (Ht _ _ H) as [? Hc]. split; [done|].
    intros c [_ H']%lookup_delete_Some. eauto.
  - intros h' roomId ref timeLeft [_ H]%lookup_delete_Some. eauto.
Qed.

Lemma preserves_set_timeLeft h t :
  preserves (modify (with_intervals (alter (set_timeLeft t) h))).
Proof.
  intros st [Hk Hn Hu Ha Hr Ht Hh Hrh Hih Hpa Hph]. constructor; simpl; try done.
  - intros h' c [(-> & x & H & ->)|[_ H]]%lookup_alter_Some; eauto.
  - intros roomId h' H. destruct (Hr _ _ H) as [? Hc]. split; [done|].
    intros c [(-> & x & H' & ->)|[_ H']]%lookup_alter_Some; [|by eauto].
    apply is_room_interval_set_timeLeft. eauto.
  - intros p h' H. destruct (Ht _ _ H) as [? Hc]. split; [done|].
    intros c [(-> & x & H' & ->)|[_ H']]%lookup_alter_Some; [|by eauto].
    apply is_turn_interval_of_set_timeLeft. eauto.
  - intros h' roomId ref timeLeft [(-> & x & H & Hx)|[_ H]]%lookup_alter_Some; [|by eauto].
    destruct x; simpl in Hx; [|done]. injection Hx as <- <- _. eauto.
Qed.

Lemma preserves_setTimeout c delay : preserves (setTimeout c delay).
Proof. by intros st []. Qed.

Lemma preserves_updateRoom ref f : keeps_roomTimer f → preserves (updateRoom ref f).
Proof.
  intros Hf st [Hk Hn Hu Ha Hr Ht Hh Hrh Hih Hpa Hph]. constructor; simpl; try done.
  - intros ref' room [(-> & x & H & ->)|[_ H]]%lookup_alter_Some; eauto.
  - intros ref' room [(-> & x & H & ->)|[_ H]]%lookup_alter_Some; eauto.
  - intros roomId ref' H. rewrite lookup_alter_is_Some. eauto.
  - intros h roomId ref' timeLeft H. rewrite lookup_alter_is_Some. eauto.
  - intros call k ref' H1 H2. rewrite lookup_alter_is_Some. eauto.
Qed.

Lemma keeps_roomTimer_isActive b : keeps_roomTimer (set_isActive b).
Proof. by intros r. Qed.

Lemma keeps_roomTimer_clear : keeps_roomTimer (set_roomTimer None).
Proof. by intros r. Qed.

Lemma keeps_roomTimer_push m : keeps_roomTimer (push_message m).
Proof. by intros r. Qed.

Lemma preserves_delete_roomTimer roomId :
  preserves (modify (with_roomTimers (delete roomId))).
Proof.
  intros st [Hk Hn Hu Ha Hr Ht Hh Hrh Hih Hpa Hph]. constructor; simpl; try done.
  intros roomId' h [_ H]%lookup_delete_Some. eauto.
Qed.

Lemma preserves_delete_turnTimer p :
  preserves (modify (with_turnTimers (delete p))).
Proof.
  intros st [Hk Hn Hu Ha Hr Ht Hh Hrh Hih Hpa Hph]. constructor; simpl; try done.
  intros p' h [_ H]%lookup_delete_Some. eauto.
Qed.

Lemma preserves_delete_waiting s :
  preserves (modify (with_waitingPlayers (JsMap.delete s))).
Proof.
  intros st [Hk Hn Hu Ha Hr Ht Hh Hrh Hih Hpa Hph]. constructor; simpl; try done.
  - by apply JsMap_delete_Forall.
  - by apply JsMap_delete_nodup.
Qed.

Lemma preserves_set_socketRoomId s roomId :
  preserves (modify (with_socketRoomId (insert s roomId))).
Proof. by intros st []. Qed.

Lemma wf_delete_room roomId st :
  wf_state st → wf_state (with_rooms (delete roomId) st).
Proof.
  intros [Hk Hn Hu Ha Hr Ht Hh Hrh Hih Hpa Hph]. constructor; simpl; try done.
  intros roomId' ref [_ H]%lookup_delete_Some. eauto.
Qed.

Lemma preserves_stopRoomTimer roomId : preserves (stopRoomTimer roomId).
Proof.
  intros st H. unfold stopRoomTimer. destruct (roomTimers st !! roomId); [|done].
  revert st H. apply preserves_seq; [apply preserves_clearTimer | apply preserves_delete_roomTimer].
Qed.

Lemma preserves_setInterval_turn roomId p timeLeft :
  preserves (setInterval (TurnInterval roomId p timeLeft)
                         (λ timer, with_turnTimers (insert p timer))).
Proof.
  intros st [Hk Hn Hu Ha Hr Ht Hh Hrh Hih Hpa Hph]. constructor; simpl; try done.
  - intros h c [[<- _]|[_ H]]%lookup_insert_Some; [lia|]. apply Ha in H. lia.
  - intros roomId' h H. destruct (Hr _ _ H) as [Hlt Hc]. split; [lia|].
    intros c. rewrite lookup_insert_ne by lia. apply Hc.
  - intros p' h [[<- <-]|[_ H]]%lookup_insert_Some.
    + split; [lia|]. intros c. rewrite lookup_insert_eq. by intros [= <-].
    + destruct (Ht _ _ H) as [Hlt Hc]. split; [lia|].
      intros c. rewrite lookup_insert_ne by lia. apply Hc.
  - intros h roomId' ref timeLeft' [[_ ?]|[_ H]]%lookup_insert_Some; [done|]. eauto.
Qed.

Lemma wf_setInterval_room roomId ref timeLeft st :
  wf_state st → is_Some (heap st !! ref) →
  wf_state (setInterval (RoomInterval roomId ref timeLeft)
                        (λ timer, with_roomTimers (insert roomId timer)) st).1.
Proof.
  intros [Hk Hn Hu Ha Hr Ht Hh Hrh Hih Hpa Hph] Href. constructor; simpl; try done.
  - intros h c [[<- _]|[_ H]]%lookup_insert_Some; [lia|]. apply Ha in H. lia.
  - intros roomId' h [[<- <-]|[_ H]]%lookup_insert_Some.
    + split; [lia|]. intros c. rewrite lookup_insert_eq. by intros [= <-].
    + destruct (Hr _ _ H) as [Hlt Hc]. split; [lia|].
      intros c. rewrite lookup_insert_ne by lia. apply Hc.
  - intros p h H. destruct (Ht _ _ H) as [Hlt Hc]. split; [lia|].
    intros c. rewrite lookup_insert_ne by lia. apply Hc.
  - intros h roomId' ref' timeLeft' [[_ [= _ <- _]]|[_ H]]%lookup_insert_Some; eauto.
Qed.

Lemma preserves_delete_pending call :
  preserves (modify (with_pending (delete call))).
Proof.
  intros st [Hk Hn Hu Ha Hr Ht Hh Hrh Hih Hpa Hph]. constructor; simpl; try done.
  - intros call' k [_ H]%lookup_delete_Some. eauto.
  - intros call' k ref [_ H]%lookup_delete_Some. eauto.
Qed.

(** A handler may be suspended with a room object of the store. *)
Lemma wf_await r k st :
  wf_state st →
  (∀ ref, pendingRoom k = Some ref → is_Some (heap st !! ref)) →
  wf_state (await r k st).1.
Proof.
  intros [Hk Hn Hu Ha Hr Ht Hh Hrh Hih Hpa Hph] Href. constructor; simpl; try done.
  - intros call k' [[<- _]|[_ H]]%lookup_insert_Some; [lia|]. apply Hpa in H. lia.
  - intros call k' ref [[_ <-]|[_ H]]%lookup_insert_Some; eauto.
Qed.

Lemma preserves_handleForfeit roomId playerId : preserves (handleForfeit roomId playerId).
Proof.
  intros st H. unfold handleForfeit. destruct (getRoom st roomId) as [[ref room]|]; [|done].
  revert st H. apply preserves_seq; [apply preserves_stopRoomTimer|].
  apply preserves_seq; [apply preserves_emit|].
  destruct (findOther playerId room); [|apply preserves_skip].
  apply preserves_when, preserves_emit.
Qed.

Lemma preserves_startTurnCountdown roomId playerId :
  preserves (startTurnCountdown roomId playerId).
Proof.
  intros st H. unfold startTurnCountdown. destruct (rooms st !! roomId); [|done].
  revert st H. apply preserves_seq; [|apply preserves_setInterval_turn].
  intros st H. destruct (turnTimers st !! playerId); [by apply preserves_clearTimer | done].
Qed.

Lemma preserves_startRoomCountdown roomId : preserves (startRoomCountdown roomId).
Proof.
  intros st H. unfold startRoomCountdown.
  destruct (rooms st !! roomId) as [ref|] eqn:Hroom; [|done].
  rewrite seq_state. apply wf_setInterval_room.
  - destruct (roomTimers st !! roomId); [by apply preserves_clearTimer | done].
  - pose proof (wf_rooms_heap _ H _ _ Hroom) as Href.
    by destruct (roomTimers st !! roomId).
Qed.

Lemma preserves_roomCountdownTick timer roomId ref timeLeft :
  preserves (roomCountdownTick timer roomId ref timeLeft).
Proof.
  intros st H. unfold roomCountdownTick. destruct (heap st !! ref) as [room|]; [|done].
  destruct (negb (isActive room)); revert st H.
  - apply preserves_seq; [apply preserves_clearTimer | apply preserves_delete_roomTimer].
  - apply preserves_seq; [apply preserves_set_timeLeft|].
    apply preserves_seq; [apply preserves_forEach; intros; apply preserves_emit|].
    apply preserves_when.
    apply preserves_seq; [apply preserves_clearTimer|].
    apply preserves_seq; [apply preserves_delete_roomTimer|].
    apply preserves_seq; [apply preserves_forEach; intros; apply preserves_emit|].
    apply preserves_seq; [apply preserves_updateRoom, keeps_roomTimer_isActive|].
    apply preserves_setTimeout.
Qed.

Lemma preserves_turnCountdownTick timer roomId playerId timeLeft :
  preserves (turnCountdownTick timer roomId playerId timeLeft).
Proof.
  unfold turnCountdownTick.
  apply preserves_seq; [apply preserves_set_timeLeft|].
  apply preserves_seq; [apply preserves_emit|].
  apply preserves_when.
  apply preserves_seq; [apply preserves_clearTimer|].
  apply preserves_seq; [apply preserves_delete_turnTimer|].
  apply preserves_seq; [apply preserves_emit|].
  apply preserves_handleForfeit.
Qed.

Lemma preserves_intervalTick h : preserves (intervalTick h).
Proof.
  intros st H. unfold intervalTick. destruct (intervals st !! h) as [[]|]; [| |done].
  - by apply preserves_roomCountdownTick.
  - by apply preserves_turnCountdownTick.
Qed.

Lemma preserves_timeoutFire k : preserves (timeoutFire k).
Proof.
  intros st H. unfold timeoutFire. destruct (timeouts st !! k) as [[delay c]|]; [|done].
  assert (wf_state (with_timeouts (delete k) st)) as H' by (by destruct H).
  revert H'. generalize (with_timeouts (delete k) st). clear. intros st H.
  destruct c as [s|roomId]; simpl.
  - destruct (socketRoomId st !! s); [by apply wf_delete_room | done].
  - by apply wf_delete_room.
Qed.

Lemma getRoom_heap st roomId ref room :
  getRoom st roomId = Some (ref, room) → heap st !! ref = Some room.
Proof.
  unfold getRoom. destruct (rooms st !! roomId) as [ref'|]; [|done].
  destruct (heap st !! ref') as [room'|] eqn:Hh; [|done]. by intros [= <- <-].
Qed.

Lemma getRoom_rooms st roomId ref room :
  getRoom st roomId = Some (ref, room) → rooms st !! roomId = Some ref.
Proof.
  unfold getRoom. destruct (rooms st !! roomId) as [ref'|]; [|done].
  destruct (heap st !! ref') as [room'|]; [|done]. by intros [= <- <-].
Qed.

Lemma stopRoomTimer_effects roomId st :
  (stopRoomTimer roomId st).2 =
  match roomTimers st !! roomId with Some h => [ClearTimer h] | None => [] end.
Proof. unfold stopRoomTimer. by destruct (roomTimers st !! roomId). Qed.

Lemma stopRoomTimer_state roomId st :
  (stopRoomTimer roomId st).1 =
  match roomTimers st !! roomId with
  | Some h => with_roomTimers (delete roomId) (with_intervals (delete h) st)
  | None => st
  end.
Proof. unfold stopRoomTimer. by destruct (roomTimers st !! roomId). Qed.

Lemma preserves_ifInRoom s body otherwise :
  (∀ roomId ref room st, heap st !! ref = Some room →
     wf_state st → wf_state (body roomId ref room st).1) →
  preserves otherwise →
  preserves (ifInRoom s body otherwise).
Proof.
  intros Hb Ho st H. unfold ifInRoom. destruct (socketRoom st s) as [roomId|]; [|by apply Ho].
  destruct (getRoom st roomId) as [[ref room]|] eqn:Hget; [|done].
  apply Hb; [|done]. by apply getRoom_heap in Hget.
Qed.

Lemma preserves_on_SEND_MESSAGE s data : preserves (on_SEND_MESSAGE s data).
Proof.
  apply preserves_ifInRoom; [|apply preserves_emit]. intros roomId ref room st Hh.
  destruct (findSelf s room) as [sender|];
    [|destruct (findOther s room); revert st Hh; intros st _; apply preserves_emit].
  destruct (findOther s room) as [otherPlayer|]; [|apply preserves_emit].
  destruct (truthy sender && truthy otherPlayer); [|apply preserves_emit].
  destruct data as [data_text|]; [|apply preserves_emit].
  intros Hwf. apply wf_await; [done|]. intros ref' [= <-]. eauto.
Qed.

Lemma preserves_resume_SEND_MESSAGE s ref otherPlayer data_text db now :
  preserves (resume_SEND_MESSAGE s ref otherPlayer data_text db now).
Proof.
  unfold resume_SEND_MESSAGE. destruct db; [|apply preserves_emit].
  apply preserves_seq; [apply preserves_updateRoom, keeps_roomTimer_push|].
  repeat (apply preserves_seq; [apply preserves_emit|]).
  intros st H. destruct (socketRoomId st !! s); [by apply preserves_startTurnCountdown | done].
Qed.

Lemma preserves_throw : preserves throw.
Proof. by intros st H. Qed.

Lemma preserves_on_TYPING_STATUS s data :
  preserves (on_TYPING_STATUS s data).
Proof.
  apply preserves_ifInRoom; [|apply preserves_skip]. intros roomId ref room st _. revert st.
  destruct (findOther s room); [|apply preserves_skip].
  apply preserves_when. destruct data; [apply preserves_emit | apply preserves_throw].
Qed.

Lemma preserves_on_MAKE_GUESS s data : preserves (on_MAKE_GUESS s data).
Proof.
  apply preserves_ifInRoom; [|apply preserves_emit]. intros roomId ref room st Hh Hwf.
  rewrite seq_state. destruct data as [data_isAI|]; [|by apply preserves_stopRoomTimer].
  apply wf_await; [by apply preserves_stopRoomTimer|].
  intros ref' [= <-]. rewrite stopRoomTimer_state.
  destruct (roomTimers st !! roomId); simpl; eauto.
Qed.

Lemma preserves_resume_MAKE_GUESS s ref data_isAI db :
  preserves (resume_MAKE_GUESS s ref data_isAI db).
Proof.
  unfold resume_MAKE_GUESS. destruct db; [|apply preserves_emit].
  apply preserves_seq; [apply preserves_emit|].
  intros st H. destruct (heap st !! ref) as [room|]; [|done].
  destruct (findOther s room) as [o|]; [|done]. by destruct (truthy o).
Qed.

Lemma preserves_on_RETIRE s : preserves (on_RETIRE s).
Proof.
  apply preserves_ifInRoom; [|apply preserves_skip]. intros roomId ref room st _. revert st.
  apply preserves_seq.
  - destruct (findOther s room); [|apply preserves_skip].
    apply preserves_when. apply preserves_seq; [apply preserves_emit|].
    apply preserves_seq; [|apply preserves_emit].
    destruct (roomTimer room); [|apply preserves_skip].
    apply preserves_seq; [apply preserves_clearTimer|].
    apply preserves_updateRoom, keeps_roomTimer_clear.
  - apply preserves_seq; [apply preserves_updateRoom, keeps_roomTimer_isActive|].
    apply preserves_setTimeout.
Qed.

Lemma preserves_handleDisconnect s : preserves (handleDisconnect s).
Proof.
  apply preserves_seq; [apply preserves_delete_waiting|].
  apply preserves_ifInRoom; [|apply preserves_skip]. intros roomId ref room st _. revert st.
  apply preserves_seq; [apply preserves_stopRoomTimer|].
  apply preserves_seq.
  - destruct (findOther s room); [|apply preserves_skip].
    apply preserves_when. apply preserves_seq; apply preserves_emit.
  - apply preserves_seq; [apply preserves_updateRoom, keeps_roomTimer_isActive|].
    apply preserves_setTimeout.
Qed.

Lemma wf_roomsSet roomId room st :
  wf_state st → roomTimer room = None → wf_state (roomsSet roomId room st).1.
Proof.
  intros [Hk Hn Hu Ha Hr Ht Hh Hrh Hih Hpa Hph] Hroom. constructor; simpl; try done.
  - intros ref room' [[_ <-]|[_ H]]%lookup_insert_Some; eauto.
  - intros ref room' [[<- _]|[_ H]]%lookup_insert_Some; [lia|]. apply Hh in H. lia.
  - intros roomId' ref [[_ <-]|[_ H]]%lookup_insert_Some.
    + rewrite lookup_insert_eq. eauto.
    + rewrite lookup_insert_is_Some. destruct (decide (nextRef st = ref)); eauto.
  - intros h roomId' ref timeLeft H. rewrite lookup_insert_is_Some.
    destruct (decide (nextRef st = ref)); eauto.
  - intros call k ref H1 H2. rewrite lookup_insert_is_Some.
    destruct (decide (nextRef st = ref)); eauto.
Qed.

Lemma wf_enqueue s entry st :
  wf_state st → JsMap.has s (waitingPlayers st) = false → socket entry = s →
  wf_state (with_waitingPlayers (JsMap.set s entry) st).
Proof.
  intros [Hk Hn Hu Ha Hr Ht Hh Hrh Hih Hpa Hph] Hhas Hs. constructor; simpl; try done.
  - rewrite JsMap_set_fresh by done. apply Forall_app. split; [done|].
    by constructor.
  - rewrite JsMap_set_fresh by done. rewrite fmap_app. apply NoDup_app.
    split; [done|]. split; [|apply NoDup_singleton].
    intros k Hk' Heq%list_elem_of_singleton. simpl in Heq. subst k.
    apply JsMap_has_elem_of in Hk'. congruence.
Qed.

Lemma preserves_catchMatchmaking s : preserves (catchMatchmaking s).
Proof. apply preserves_seq; [apply preserves_emit | apply preserves_delete_waiting]. Qed.

Lemma preserves_notifyMatch roomId cid index player :
  preserves (notifyMatch roomId cid index player).
Proof.
  intros st H. unfold notifyMatch. by destruct (getRoom st roomId) as [[ref room]|].
Qed.

Lemma preserves_beginMatch s roomId : preserves (beginMatch s roomId).
Proof.
  intros st H. unfold beginMatch.
  destruct (_ !! 0%nat) as [p0|]; [|by apply preserves_catchMatchmaking].
  destruct (_ !! 1%nat) as [p1|]; [|by apply preserves_catchMatchmaking].
  by apply wf_await.
Qed.

Lemma preserves_handleMatchmaking s coinIsAI newRoomId :
  preserves (handleMatchmaking s coinIsAI newRoomId).
Proof.
  intros st H. unfold handleMatchmaking.
  destruct (bool_decide _); [done|].
  destruct (JsMap.has s (waitingPlayers st)) eqn:Hhas; [done|].
  rewrite seq_state. unfold modify. cbn [fst].
  pose proof (wf_enqueue s {| socket := s; isAI := coinIsAI |} st H Hhas eq_refl) as H'.
  destruct (Nat.leb _ _); [by apply preserves_beginMatch | done].
Qed.

Lemma preserves_resume_handleMatchmaking s ps roomId db coinFirstTurn clock :
  preserves (resume_handleMatchmaking s ps roomId db coinFirstTurn clock).
Proof.
  unfold resume_handleMatchmaking.
  destruct db as [c|]; [|apply preserves_catchMatchmaking].
  destruct (usableConversation c) as [cid|]; [|apply preserves_catchMatchmaking].
  apply preserves_seq; [intros st H; by apply wf_roomsSet|].
  apply preserves_seq.
  { apply preserves_forEach. intros player.
    apply preserves_seq; [apply preserves_set_socketRoomId | apply preserves_delete_waiting]. }
  apply preserves_seq; [apply preserves_forEachI; intros; apply preserves_notifyMatch|].
  apply preserves_startRoomCountdown.
Qed.

Lemma preserves_settle call resume :
  (∀ k c, resume k = Some c → preserves c) → preserves (settle call resume).
Proof.
  intros Hr st H. unfold settle. destruct (pending st !! call) as [k|]; [|done].
  destruct (resume k) as [c|] eqn:Hk; [|done].
  apply (Hr _ _ Hk). by apply (preserves_delete_pending call) in H.
Qed.

Lemma preserves_step e : preserves (step e).
Proof.
  destruct e; simpl.
  - apply preserves_handleMatchmaking.
  - apply preserves_delete_waiting.
  - apply preserves_on_SEND_MESSAGE.
  - apply preserves_on_TYPING_STATUS.
  - apply preserves_on_MAKE_GUESS.
  - apply preserves_on_RETIRE.
  - apply preserves_handleDisconnect.
  - apply preserves_intervalTick.
  - apply preserves_timeoutFire.
  - apply preserves_settle. intros [] c [= <-]. apply preserves_resume_handleMatchmaking.
  - apply preserves_settle. intros [] c [= <-]. apply preserves_resume_SEND_MESSAGE.
  - apply preserves_settle. intros [] c [= <-]. apply preserves_resume_MAKE_GUESS.
Qed.

Lemma preserves_run es : preserves (run es).
Proof.
  induction es as [|e es IH]; simpl; [apply preserves_skip|].
  apply preserves_seq; [apply preserves_step | done].
Qed.

(** Every reachable state is well formed. *)
Lemma reachable_wf st : reachable st → wf_state st.
Proof.
  induction 1 as [|st e _ IH]; [apply wf_initial | by apply preserves_step].
Qed.

Lemma reachable_run es st : reachable st → reachable (run es st).1.
Proof.
  revert st. induction es as [|e es IH]; intros st H; simpl; [done|].
  rewrite seq_state. apply IH. by constructor.
Qed.

(** ** Handlers on a socket that is, or is not, in a room *)

Lemma ifInRoom_found s body otherwise st roomId ref room :
  inRoom st s roomId ref room → ifInRoom s body otherwise st = body roomId ref room st.
Proof. intros [H1 H2]. unfold ifInRoom. by rewrite H1, H2. Qed.

Lemma ifInRoom_missing s body otherwise st :
  socketRoom st s = None → ifInRoom s body otherwise st = otherwise st.
Proof. intros H. unfold ifInRoom. by rewrite H. Qed.

(** The settlement of a pending call runs its continuation on the state
    without the call. *)
Lemma settle_pending call resume st k c :
  pending st !! call = Some k → resume k = Some c →
  settle call resume st = c (with_pending (delete call) st).
Proof. intros H1 H2. unfold settle. by rewrite H1, H2. Qed.

Lemma State_eta st :
  {| waitingPlayers := waitingPlayers st; rooms := rooms st; heap := heap st;
     roomTimers := roomTimers st; turnTimers := turnTimers st;
     socketRoomId := socketRoomId st; intervals := intervals st;
     timeouts := timeouts st; pending := pending st; nextHandle := nextHandle st;
     nextRef := nextRef st; nextCall := nextCall st |} = st.
Proof. by destruct st. Qed.

(** ** Guessing *)

(** MAKE_GUESS on a socket in a room: the registered room countdown is
    stopped, [submitGuess] is called and the handler is suspended.  Nothing
    else changes. *)
Lemma on_MAKE_GUESS_suspends st s g roomId ref room :
  inRoom st s roomId ref room →
  let r := step (MAKE_GUESS s (Some g)) st in
  r.2 = match roomTimers st !! roomId with Some h => [ClearTimer h] | None => [] end ++
        [DbCall (nextCall st) (SubmitGuess roomId s g)] ∧
  pending r.1 = <[nextCall st := AwaitGuess s ref g]> (pending st) ∧
  roomTimers r.1 = delete roomId (roomTimers st) ∧
  intervals r.1 = match roomTimers st !! roomId with
                  | Some h => delete h (intervals st)
                  | None => intervals st
                  end ∧
  rooms r.1 = rooms st ∧ heap r.1 = heap st ∧ timeouts r.1 = timeouts st ∧
  waitingPlayers r.1 = waitingPlayers st ∧ socketRoomId r.1 = socketRoomId st ∧
  turnTimers r.1 = turnTimers st ∧ nextHandle r.1 = nextHandle st.
Proof.
  intros Hin. simpl. unfold on_MAKE_GUESS. rewrite (ifInRoom_found _ _ _ _ _ _ _ Hin).
  rewrite seq_effects, seq_state, stopRoomTimer_effects, stopRoomTimer_state.
  destruct (roomTimers st !! roomId) as [h|] eqn:Ht; simpl; repeat split; try done.
  symmetry. by apply delete_id.
Qed.

(** The effects of the settlement of a guess that was accepted. *)
Lemma resume_MAKE_GUESS_ok_effects st call s ref g result :
  pending st !! call = Some (AwaitGuess s ref g) →
  (step (GUESS_SETTLED call (DbOk result)) st).2 =
  Emit s (GUESS_RESULT (isCorrect s g result) g (actualType s result)) ::
  match heap st !! ref with
  | Some room =>
      match findOther s room with
      | Some otherPlayer =>
          if truthy otherPlayer
          then [Emit otherPlayer (GAME_OVER "Your opponent has made their guess. The game is over.")]
          else []
      | None => []
      end
  | None => []
  end.
Proof.
  intros Hp. simpl. rewrite (settle_pending _ _ _ _ _ Hp eq_refl).
  unfold resume_MAKE_GUESS. rewrite seq_emit. cbn [snd]. f_equal.
  cbn [heap with_pending]. destruct (heap st !! ref) as [room|]; [|done].
  destruct (findOther s room) as [o|]; [|done]. by destruct (truthy o).
Qed.

(** The settlement of a guess, whatever its outcome, only removes the call
    from the pending ones. *)
Lemma resume_MAKE_GUESS_state st call s ref g db :
  pending st !! call = Some (AwaitGuess s ref g) →
  (step (GUESS_SETTLED call db) st).1 = with_pending (delete call) st.
Proof.
  intros Hp. simpl. rewrite (settle_pending _ _ _ _ _ Hp eq_refl).
  unfold resume_MAKE_GUESS. destruct db; [|done].
  rewrite seq_emit. cbn [fst heap with_pending]. destruct (heap st !! ref) as [room|]; [|done].
  destruct (findOther s room) as [o|]; [|done]. by destruct (truthy o).
Qed.

(** C7: a guess by [s] in a room suspends the handler with [s] and the
    guess.  Whenever the persistence service then answers with a row, the
    guess result sent to the guesser is computed from that row: a guesser
    whose id is the persisted player-1 id is correct exactly when the guess
    equals player 2's flag, any other guesser exactly when it equals
    player 1's flag; no other guess result is emitted. *)
Theorem guess_scored_against_persisted_roles st s g roomId ref room :
  inRoom st s roomId ref room →
  let call := nextCall st in
  pending (step (MAKE_GUESS s (Some g)) st).1 !! call = Some (AwaitGuess s ref g) ∧
  ∀ st' result,
    pending st' !! call = Some (AwaitGuess s ref g) →
    let effects := (step (GUESS_SETTLED call (DbOk result)) st').2 in
    ∃ correct,
      In (Emit s (GUESS_RESULT correct g (actualType s result))) effects ∧
      (s = player1_id result → (correct = true ↔ g = player2_is_ai result)) ∧
      (s ≠ player1_id result → (correct = true ↔ g = player1_is_ai result)) ∧
      (∀ to c g' t, In (Emit to (GUESS_RESULT c g' t)) effects →
         to = s ∧ c = correct ∧ g' = g ∧ t = actualType s result).
Proof.
  intros Hin call. split.
  { destruct (on_MAKE_GUESS_suspends st s g roomId ref room Hin) as (_ & -> & _).
    apply lookup_insert_eq. }
  intros st' result Hp effects. subst effects.
  rewrite (resume_MAKE_GUESS_ok_effects _ _ _ _ _ _ Hp).
  exists (isCorrect s g result). unfold isCorrect. split; [|split; [|split]].
  - by left.
  - intros Hp1. rewrite bool_decide_eq_true_2 by done. split.
    + apply Bool.eqb_prop.
    + intros ->. apply Bool.eqb_reflx.
  - intros Hp1. rewrite bool_decide_eq_false_2 by done. split.
    + apply Bool.eqb_prop.
    + intros ->. apply Bool.eqb_reflx.
  - intros to c g' t [H|H].
    + by injection H as <- <- <- <-.
    + destruct (heap st' !! ref) as [room'|]; [|done].
      destruct (findOther s room') as [o|]; [destruct (truthy o)|]; simpl in H; try done.
      by destruct H.
Qed.

Lemma guess_scored_against_persisted_roles_witness :
  let st := Scenario.matched in
  let st' := (step (MAKE_GUESS Scenario.alice (Some true)) st).1 in
  inRoom st Scenario.alice "r1" 0%nat Scenario.room1 ∧
  pending st' !! 1%nat = Some (AwaitGuess Scenario.alice 0%nat true) ∧
  ∃ correct,
    In (Emit Scenario.alice (GUESS_RESULT correct true (actualType Scenario.alice Scenario.row1)))
       (step (GUESS_SETTLED 1 (DbOk Scenario.row1)) st').2 ∧
    (Scenario.alice = player1_id Scenario.row1 →
       (correct = true ↔ true = player2_is_ai Scenario.row1)).
Proof.
  intros st st'.
  assert (inRoom st Scenario.alice "r1" 0%nat Scenario.room1) as Hin.
  { split; vm_compute; reflexivity. }
  destruct (guess_scored_against_persisted_roles st Scenario.alice true "r1" 0%nat
              Scenario.room1 Hin) as [Hp Hsettle].
  split; [exact Hin|]. split; [exact Hp|].
  destruct (Hsettle st' Scenario.row1 Hp) as (correct & H1 & H2 & _).
  exists correct. split; [exact H1 | exact H2].
Defined.

(** C9: a guess in a room stops the registered room countdown, then calls
    the persistence service and suspends; registry, room objects, queue,
    sockets, turn timers and cleanups are as before.  Whenever the call then
    fails, the guesser is sent one error and the state loses the pending
    call and nothing else: the room keeps its [isActive] and no countdown is
    registered or started again. *)
Theorem failed_guess_keeps_session st s g roomId ref room :
  inRoom st s roomId ref room →
  let call := nextCall st in
  let r := step (MAKE_GUESS s (Some g)) st in
  r.2 = match roomTimers st !! roomId with Some h => [ClearTimer h] | None => [] end ++
        [DbCall call (SubmitGuess roomId s g)] ∧
  pending r.1 !! call = Some (AwaitGuess s ref g) ∧
  roomTimers r.1 !! roomId = None ∧
  (∀ h, roomTimers st !! roomId = Some h → intervals r.1 !! h = None) ∧
  inRoom r.1 s roomId ref room ∧
  roomActive r.1 roomId = Some (isActive room) ∧
  rooms r.1 = rooms st ∧ heap r.1 = heap st ∧ timeouts r.1 = timeouts st ∧
  waitingPlayers r.1 = waitingPlayers st ∧ socketRoomId r.1 = socketRoomId st ∧
  turnTimers r.1 = turnTimers st ∧
  (∀ st', pending st' !! call = Some (AwaitGuess s ref g) →
          step (GUESS_SETTLED call DbThrow) st' =
          (with_pending (delete call) st', [Emit s (ERROR "Failed to submit guess")])).
Proof.
  intros Hin call r.
  destruct (on_MAKE_GUESS_suspends st s g roomId ref room Hin)
    as (He & Hp & Hrt & Hi & Hr & Hh & Hto & Hw & Hs & Htt & _).
  fold r in He, Hp, Hrt, Hi, Hr, Hh, Hto, Hw, Hs, Htt.
  assert (inRoom r.1 s roomId ref room) as Hin'.
  { destruct Hin as [H1 H2]. split.
    - unfold socketRoom in *. by rewrite Hs, Hr.
    - unfold getRoom in *. by rewrite Hr, Hh. }
  split; [done|]. split; [rewrite Hp; apply lookup_insert_eq|].
  split; [rewrite Hrt; apply lookup_delete_eq|]. split.
  { intros h Hh'. rewrite Hi, Hh'. apply lookup_delete_eq. }
  split; [done|]. split.
  { unfold roomActive. destruct Hin' as [_ ->]. done. }
  repeat (split; [done|]).
  intros st' Hp'. simpl. by rewrite (settle_pending _ _ _ _ _ Hp' eq_refl).
Qed.

Lemma failed_guess_keeps_session_witness :
  let st := Scenario.matched in
  let r := step (MAKE_GUESS Scenario.alice (Some true)) st in
  inRoom st Scenario.alice "r1" 0%nat Scenario.room1 ∧
  r.2 = [ClearTimer 0%nat; DbCall 1 (SubmitGuess "r1" Scenario.alice true)] ∧
  roomActive r.1 "r1" = Some true ∧
  step (GUESS_SETTLED 1 DbThrow) r.1 =
  (with_pending (delete 1%nat) r.1, [Emit Scenario.alice (ERROR "Failed to submit guess")]).
Proof.
  intros st r.
  assert (inRoom st Scenario.alice "r1" 0%nat Scenario.room1) as Hin.
  { split; vm_compute; reflexivity. }
  destruct (failed_guess_keeps_session st Scenario.alice true "r1" 0%nat Scenario.room1 Hin)
    as (He & Hp & _ & _ & _ & Hact & _ & _ & _ & _ & _ & _ & Hfail).
  split; [exact Hin|]. split; [exact He|]. split; [exact Hact|].
  exact (Hfail _ Hp).
Defined.

(** C1: on the session of Alice and Bob, with its countdown running, Alice
    guesses and the persistence service accepts the guess: the result is
    sent to Alice and Bob is told the game is over, and then the room is
    still registered, its [isActive] is still [true] and no cleanup is
    scheduled.  The guess path performs none of the terminal steps
    ([room.isActive = false], [setTimeout(.., 5000)]) that RETIRE,
    [handleDisconnect] and the countdown expiry perform. *)
Theorem successful_guess_is_not_terminal :
  let r := run [MAKE_GUESS Scenario.alice (Some true); GUESS_SETTLED 1 (DbOk Scenario.row1)]
               Scenario.matched in
  r.2 = [ClearTimer 0%nat;
         DbCall 1 (SubmitGuess "r1" Scenario.alice true);
         Emit Scenario.alice (GUESS_RESULT true true "AI");
         Emit Scenario.bob (GAME_OVER "Your opponent has made their guess. The game is over.")] ∧
  roomActive Scenario.matched "r1" = Some true ∧
  roomActive r.1 "r1" = Some true ∧
  timeouts r.1 = [] ∧
  (∀ delay c, ¬ In (SetTimeout delay c) r.2).
Proof.
  split; [vm_compute; reflexivity|].
  split; [vm_compute; reflexivity|].
  split; [vm_compute; reflexivity|].
  split; [vm_compute; reflexivity|].
  intros delay c. vm_compute. intros [H|[H|[H|[H|[]]]]]; discriminate.
Qed.

(** Neither half of a guess touches the registry, the room objects or the
    pending cleanups, in any state. *)
Lemma guess_is_never_terminal st s g call db :
  let st1 := (step (MAKE_GUESS s g) st).1 in
  let st2 := (step (GUESS_SETTLED call db) st).1 in
  (rooms st1 = rooms st ∧ heap st1 = heap st ∧ timeouts st1 = timeouts st) ∧
  (rooms st2 = rooms st ∧ heap st2 = heap st ∧ timeouts st2 = timeouts st).
Proof.
  split.
  - simpl. unfold on_MAKE_GUESS, ifInRoom.
    destruct (socketRoom st s) as [roomId|]; [|done].
    destruct (getRoom st roomId) as [[ref room]|]; [|done].
    rewrite seq_state, stopRoomTimer_state.
    by destruct g, (roomTimers st !! roomId).
  - simpl. unfold settle. destruct (pending st !! call) as [[]|] eqn:Hp; try done.
    pose proof (resume_MAKE_GUESS_state st call _ _ _ db Hp) as H. simpl in H.
    rewrite (settle_pending _ _ _ _ _ Hp eq_refl) in H. by rewrite H.
Qed.

(** ** Retiring *)

(** C2: on the session of Alice and Bob, with its countdown running and
    registered in [roomTimers], RETIRE by Alice first notifies Bob and
    clears no timer at all: the countdown is still registered and live
    afterwards.  The handler tests [room.roomTimer], a property no room
    object has, where [handleDisconnect] stops [roomTimers.get(roomId)]
    before it notifies. *)
Theorem retire_does_not_stop_room_timer :
  let r := step (RETIRE Scenario.alice) Scenario.matched in
  roomTimers Scenario.matched !! "r1" = Some 0%nat ∧
  r.2 = [Emit Scenario.bob (OPPONENT_DISCONNECTED "Your opponent has retired from the game." (Some true));
         Emit Scenario.bob (YOUR_TURN false (Some true) None);
         SetTimeout 5000 (DeleteRoomOfSocket Scenario.alice)] ∧
  roomTimers r.1 !! "r1" = Some 0%nat ∧
  intervals r.1 !! 0%nat = Some (RoomInterval "r1" 0%nat 120) ∧
  (step (DISCONNECT Scenario.alice) Scenario.matched).2 =
    [ClearTimer 0%nat;
     Emit Scenario.bob (OPPONENT_DISCONNECTED "Your opponent has disconnected." (Some true));
     Emit Scenario.bob (YOUR_TURN false (Some true) None);
     SetTimeout 5000 (DeleteRoomOfSocket Scenario.alice)].
Proof.
  repeat split; vm_compute; reflexivity.
Qed.

(** In a well-formed state RETIRE clears no timer: the registered room
    countdown and all live intervals are as before. *)
Lemma retire_clears_no_timer st s :
  wf_state st →
  let r := step (RETIRE s) st in
  roomTimers r.1 = roomTimers st ∧ intervals r.1 = intervals st ∧
  (∀ h, ¬ In (ClearTimer h) r.2).
Proof.
  intros Hwf. simpl. unfold on_RETIRE, ifInRoom.
  destruct (socketRoom st s) as [roomId|]; [|by repeat split; auto].
  destruct (getRoom st roomId) as [[ref room]|] eqn:Hget; [|by repeat split; auto].
  rewrite (wf_roomTimer_undefined _ Hwf _ _ (getRoom_heap _ _ _ _ Hget)).
  destruct (findOther s room) as [o|]; [destruct (truthy o)|];
    (split; [done|]; split; [done|]); intros h; simpl; intuition discriminate.
Qed.

(** The room countdown left running by RETIRE stops itself at its next
    run, without any update, because the room is no longer active. *)
Example room_timer_stops_itself_after_retire :
  let st1 := (step (RETIRE Scenario.alice) Scenario.matched).1 in
  let r := step (INTERVAL 0) st1 in
  r.2 = [ClearTimer 0%nat] ∧ roomTimers r.1 !! "r1" = None ∧ intervals r.1 !! 0%nat = None.
Proof. repeat split; vm_compute; reflexivity. Qed.

(** ** Joining the queue *)




(** A player of a registered room can be queued: Alice is a player of
    ["r1"], which is registered and active, but her [roomId] is ["r2"],
    which is registered no more; her join appends her to the queue and
    starts a pairing with Carol. *)
Example stale_room_id_lets_a_player_queue :
  let st := Scenario.stale in
  let r := step (JOIN_MATCHMAKING Scenario.alice false "r4") st in
  reachable st ∧
  getRoom st "r1" = Some (0%nat, Scenario.room1) ∧
  isActive Scenario.room1 = true ∧
  players Scenario.room1 = [Scenario.alice; Scenario.bob] ∧
  socketRoomId st !! Scenario.alice = Some "r2" ∧
  rooms st !! "r2" = None ∧
  socketRoom st Scenario.alice = None ∧
  waitingPlayers st = [(Scenario.carol, {| socket := Scenario.carol; isAI := false |})] ∧
  waitingPlayers r.1 = [(Scenario.carol, {| socket := Scenario.carol; isAI := false |});
                        (Scenario.alice, {| socket := Scenario.alice; isAI := false |})] ∧
  r.2 = [DbCall 2 (CreateConversation "r4" Scenario.carol Scenario.alice false false)].
Proof.
  intros st r. split; [repeat apply reachable_run; constructor|].
  repeat split; vm_compute; reflexivity.
Qed.


(** ** Pairing *)

Lemma JsMap_has_delete_ne {V} (k k' : string) (m : list (string * V)) :
  k' ≠ k → JsMap.has k' (JsMap.delete k m) = JsMap.has k' m.
Proof.
  intros Hne. unfold JsMap.has, JsMap.delete.
  induction m as [|[k0 v] m IH]; simpl; [done|].
  destruct (bool_decide (k0 = k)) eqn:E; simpl; rewrite IH; [|done].
  apply bool_decide_eq_true in E. subst k0. by rewrite bool_decide_eq_false_2.
Qed.

Lemma JsMap_has_delete {V} (k : string) (m : list (string * V)) :
  JsMap.has k (JsMap.delete k m) = false.
Proof.
  unfold JsMap.has, JsMap.delete. induction m as [|[k0 v] m IH]; simpl; [done|].
  destruct (bool_decide (k0 = k)) eqn:E; simpl; [done|]. by rewrite E.
Qed.

(** A join that brings the queue to two entries or more: the caller is
    appended, [createConversation] is called for the two entries at the
    front of the queue, and the handler is suspended with them. *)
Lemma handleMatchmaking_suspends st s coinIsAI roomId k0 e0 k1 e1 rest :
  socketRoom st s = None →
  JsMap.has s (waitingPlayers st) = false →
  waitingPlayers st ++ [(s, {| socket := s; isAI := coinIsAI |})]
    = (k0, e0) :: (k1, e1) :: rest →
  step (JOIN_MATCHMAKING s coinIsAI roomId) st =
  (with_nextCall S
     (with_pending (insert (nextCall st) (AwaitConversation s [e0; e1] roomId))
        (with_waitingPlayers (λ _, (k0, e0) :: (k1, e1) :: rest) st)),
   [DbCall (nextCall st)
      (CreateConversation roomId (socket e0) (socket e1) (isAI e0) (isAI e1))]).
Proof.
  intros Hroom Hhas Hq. simpl. unfold handleMatchmaking.
  rewrite Hroom, Hhas. rewrite bool_decide_eq_false_2 by (by intros [? ?]).
  rewrite seq_modify.
  set (e := {| socket := s; isAI := coinIsAI |}) in *.
  assert (with_waitingPlayers (JsMap.set s e) st
          = with_waitingPlayers (λ _, (k0, e0) :: (k1, e1) :: rest) st) as ->.
  { unfold with_waitingPlayers. by rewrite JsMap_set_fresh, Hq. }
  reflexivity.
Qed.

Lemma notifyMatch_state roomId cid index player st :
  (notifyMatch roomId cid index player st).1 = st.
Proof. unfold notifyMatch. by destruct (getRoom st roomId) as [[ref room]|]. Qed.

Lemma startRoomCountdown_effects roomId st :
  (startRoomCountdown roomId st).2 =
  match rooms st !! roomId with
  | Some ref =>
      match roomTimers st !! roomId with Some h => [ClearTimer h] | None => [] end ++
      [SetInterval (nextHandle st) (RoomInterval roomId ref 120)]
  | None => []
  end.
Proof.
  unfold startRoomCountdown. destruct (rooms st !! roomId); [|done].
  by destruct (roomTimers st !! roomId).
Qed.

Lemma startRoomCountdown_frame roomId st :
  let st' := (startRoomCountdown roomId st).1 in
  waitingPlayers st' = waitingPlayers st ∧ rooms st' = rooms st ∧ heap st' = heap st ∧
  socketRoomId st' = socketRoomId st ∧ turnTimers st' = turnTimers st ∧
  timeouts st' = timeouts st ∧ pending st' = pending st.
Proof.
  unfold startRoomCountdown. destruct (rooms st !! roomId); [|done].
  by destruct (roomTimers st !! roomId).
Qed.

(** The state in which the room countdown is started when a conversation
    has been recorded for the entries [e0] and [e1]. *)
Lemma resume_handleMatchmaking_ok st s e0 e1 roomId c cid coinFirstTurn clock :
  usableConversation c = Some cid →
  let room := newRoom [e0; e1] coinFirstTurn clock in
  let st3 := with_waitingPlayers (JsMap.delete (socket e1))
               (with_socketRoomId (insert (socket e1) roomId)
                  (with_waitingPlayers (JsMap.delete (socket e0))
                     (with_socketRoomId (insert (socket e0) roomId)
                        (roomsSet roomId room st).1))) in
  resume_handleMatchmaking s [e0; e1] roomId (DbOk c) coinFirstTurn clock st =
  ((startRoomCountdown roomId st3).1,
   [Emit (socket e0) (MATCH_FOUND roomId cid (isAI e0) coinFirstTurn ROOM_TIME_LIMIT);
    Emit (socket e1) (MATCH_FOUND roomId cid (isAI e1) (negb coinFirstTurn) ROOM_TIME_LIMIT)]
   ++ (startRoomCountdown roomId st3).2).
Proof.
  intros Hcid room st3. unfold resume_handleMatchmaking. rewrite Hcid. fold room.
  assert (getRoom st3 roomId = Some (nextRef st, room)) as Hget.
  { unfold getRoom.
    assert (rooms st3 !! roomId = Some (nextRef st)) as -> by apply lookup_insert_eq.
    assert (heap st3 !! nextRef st = Some room) as -> by apply lookup_insert_eq.
    done. }
  assert (∀ index player,
            notifyMatch roomId cid index player st3 =
            (st3, [Emit (socket player)
                     (MATCH_FOUND roomId cid (isAI player)
                        (if (index =? 0)%nat then coinFirstTurn else negb coinFirstTurn)
                        ROOM_TIME_LIMIT)])) as Hnotify.
  { intros index player. unfold notifyMatch. by rewrite Hget. }
  rewrite (seq_silent (roomsSet roomId room)) by done.
  assert (∀ c : Cmd,
            (forEach [e0; e1] (λ player,
               modify (with_socketRoomId (insert (socket player) roomId)) >>
               modify (with_waitingPlayers (JsMap.delete (socket player)))) >> c)
              (roomsSet roomId room st).1 = c st3) as ->.
  { intros c'. unfold forEach, forEachI, forEachFrom.
    rewrite seq_assoc, seq_assoc, seq_modify, seq_modify.
    rewrite seq_assoc, seq_assoc, seq_modify, seq_modify.
    by rewrite seq_skip. }
  unfold forEachI, forEachFrom.
  rewrite seq_assoc. unfold seq at 1. rewrite Hnotify. cbv iota beta.
  rewrite seq_assoc. unfold seq at 1. rewrite Hnotify. cbv iota beta.
  rewrite seq_skip. by destruct (startRoomCountdown roomId st3).
Qed.

(** The settlement of a recorded conversation for the entries [e0] and
    [e1], in any state. *)
Lemma pairing_settled st' call s e0 e1 roomId c cid coinFirstTurn clock :
  pending st' !! call = Some (AwaitConversation s [e0; e1] roomId) →
  usableConversation c = Some cid →
  let r' := step (CONVERSATION_SETTLED call (DbOk c) coinFirstTurn clock) st' in
  r'.2 = [Emit (socket e0) (MATCH_FOUND roomId cid (isAI e0) coinFirstTurn ROOM_TIME_LIMIT);
          Emit (socket e1) (MATCH_FOUND roomId cid (isAI e1) (negb coinFirstTurn) ROOM_TIME_LIMIT)] ++
         match roomTimers st' !! roomId with Some h => [ClearTimer h] | None => [] end ++
         [SetInterval (nextHandle st') (RoomInterval roomId (nextRef st') 120)] ∧
  getRoom r'.1 roomId = Some (nextRef st', newRoom [e0; e1] coinFirstTurn clock) ∧
  waitingPlayers r'.1
    = JsMap.delete (socket e1) (JsMap.delete (socket e0) (waitingPlayers st')) ∧
  socketRoomId r'.1 !! socket e0 = Some roomId ∧
  socketRoomId r'.1 !! socket e1 = Some roomId.
Proof.
  intros Hp Hcid r'.
  pose proof (resume_handleMatchmaking_ok (with_pending (delete call) st')
                s e0 e1 roomId c cid coinFirstTurn clock Hcid) as Hres.
  cbv zeta in Hres.
  set (st3 := with_waitingPlayers (JsMap.delete (socket e1)) _) in Hres.
  assert (r' = ((startRoomCountdown roomId st3).1,
                [Emit (socket e0) (MATCH_FOUND roomId cid (isAI e0) coinFirstTurn ROOM_TIME_LIMIT);
                 Emit (socket e1) (MATCH_FOUND roomId cid (isAI e1) (negb coinFirstTurn) ROOM_TIME_LIMIT)]
                ++ (startRoomCountdown roomId st3).2)) as ->.
  { subst r'. rewrite <- Hres. unfold step. by rewrite (settle_pending _ _ _ _ _ Hp eq_refl). }
  clear Hres. cbn [fst snd].
  destruct (startRoomCountdown_frame roomId st3) as (Hw & Hr' & Hh & Hs & _).
  rewrite startRoomCountdown_effects.
  assert (rooms st3 !! roomId = Some (nextRef st')) as Hrooms by apply lookup_insert_eq.
  assert (heap st3 !! nextRef st' = Some (newRoom [e0; e1] coinFirstTurn clock)) as Hheap
    by apply lookup_insert_eq.
  rewrite Hrooms.
  split; [reflexivity|]. split.
  { unfold getRoom. by rewrite Hr', Hh, Hrooms, Hheap. }
  split; [by rewrite Hw|].
  rewrite Hs. split; [|apply lookup_insert_eq].
  change (socketRoomId st3)
    with (<[socket e1 := roomId]> (<[socket e0 := roomId]> (socketRoomId st'))).
  destruct (decide (socket e1 = socket e0)) as [->|Hne].
  - apply lookup_insert_eq.
  - by rewrite lookup_insert_ne, lookup_insert_eq.
Qed.




(** C3: when the caller's join brings the queue to two entries or more, the
    two entries at the front are handed to [createConversation].  Whenever
    that call then rejects, or resolves without a usable
    [conversation_id], no room is created; one error is emitted, to the
    caller, and the caller alone is taken out of the queue: every other
    entry, the chosen partner included, is queued exactly if it was. *)
Theorem failed_pairing_undoes_only_the_caller st s coinIsAI roomId k0 e0 k1 e1 rest :
  socketRoom st s = None →
  JsMap.has s (waitingPlayers st) = false →
  waitingPlayers st ++ [(s, {| socket := s; isAI := coinIsAI |})]
    = (k0, e0) :: (k1, e1) :: rest →
  let call := nextCall st in
  let r := step (JOIN_MATCHMAKING s coinIsAI roomId) st in
  r.2 = [DbCall call (CreateConversation roomId (socket e0) (socket e1) (isAI e0) (isAI e1))] ∧
  pending r.1 !! call = Some (AwaitConversation s [e0; e1] roomId) ∧
  (∀ st' db coinFirstTurn clock,
     pending st' !! call = Some (AwaitConversation s [e0; e1] roomId) →
     (db = DbThrow ∨ ∃ c, db = DbOk c ∧ usableConversation c = None) →
     let r' := step (CONVERSATION_SETTLED call db coinFirstTurn clock) st' in
     r' = (with_waitingPlayers (JsMap.delete s) (with_pending (delete call) st'),
           [Emit s (ERROR "Failed to join matchmaking")]) ∧
     rooms r'.1 = rooms st' ∧ heap r'.1 = heap st' ∧ socketRoomId r'.1 = socketRoomId st' ∧
     JsMap.has s (waitingPlayers r'.1) = false ∧
     (∀ p, p ≠ s → JsMap.has p (waitingPlayers r'.1) = JsMap.has p (waitingPlayers st'))).
Proof.
  intros Hroom Hhas Hq call r. subst r.
  rewrite (handleMatchmaking_suspends st s coinIsAI roomId k0 e0 k1 e1 rest) by done.
  cbn [fst snd]. split; [done|]. split; [simpl; apply lookup_insert_eq|].
  intros st' db coinFirstTurn clock Hp Hdb.
  assert (step (CONVERSATION_SETTLED call db coinFirstTurn clock) st'
          = (with_waitingPlayers (JsMap.delete s) (with_pending (delete call) st'),
             [Emit s (ERROR "Failed to join matchmaking")])) as ->.
  { unfold step. rewrite (settle_pending _ _ _ _ _ Hp eq_refl).
    unfold resume_handleMatchmaking. by destruct Hdb as [->|(c & -> & ->)]. }
  cbn [fst]. repeat (split; [done|]). split.
  - apply JsMap_has_delete.
  - intros p Hne. by apply JsMap_has_delete_ne.
Qed.

Lemma failed_pairing_undoes_only_the_caller_witness :
  let st := Scenario.waiting in
  let r := step (JOIN_MATCHMAKING Scenario.bob true "r1") st in
  r.2 = [DbCall 0 (CreateConversation "r1" Scenario.alice Scenario.bob true true)] ∧
  step (CONVERSATION_SETTLED 0 DbThrow true 0) r.1 =
  (with_waitingPlayers (JsMap.delete Scenario.bob) (with_pending (delete 0%nat) r.1),
   [Emit Scenario.bob (ERROR "Failed to join matchmaking")]).
Proof.
  intros st r.
  assert (socketRoom st Scenario.bob = None) as Hroom by (vm_compute; reflexivity).
  assert (JsMap.has Scenario.bob (waitingPlayers st) = false) as Hhas by (vm_compute; reflexivity).
  assert (waitingPlayers st ++ [(Scenario.bob, {| socket := Scenario.bob; isAI := true |})]
          = (Scenario.alice, Scenario.entryA) :: (Scenario.bob, Scenario.entryB) :: []) as Hq
    by (vm_compute; reflexivity).
  destruct (failed_pairing_undoes_only_the_caller st Scenario.bob true "r1"
              Scenario.alice Scenario.entryA Scenario.bob Scenario.entryB [] Hroom Hhas Hq)
    as (He & Hp & Hfail).
  split; [exact He|].
  exact (proj1 (Hfail _ DbThrow true 0 Hp (or_introl eq_refl))).
Defined.

(** C3, as stated, fails: Alice waits, Bob joins and the pair (Alice, Bob)
    is handed to [createConversation], which rejects.  Alice is still in the
    queue afterwards and is sent nothing. *)
Lemma failed_pairing_leaves_partner_queued :
  let r := run [JOIN_MATCHMAKING Scenario.bob true "r1";
                CONVERSATION_SETTLED 0 DbThrow true 0] Scenario.waiting in
  r.2 = [DbCall 0 (CreateConversation "r1" Scenario.alice Scenario.bob true true);
         Emit Scenario.bob (ERROR "Failed to join matchmaking")] ∧
  JsMap.has Scenario.alice (waitingPlayers r.1) = true ∧
  rooms r.1 = ∅ ∧
  (∀ ev, ¬ In (Emit Scenario.alice ev) r.2).
Proof.
  split; [vm_compute; reflexivity|]. split; [vm_compute; reflexivity|].
  split; [vm_compute; reflexivity|].
  intros ev. vm_compute. intros [H|[H|[]]]; discriminate.
Qed.

(** ** Relaying a message *)

Lemma startTurnCountdown_effects roomId playerId st :
  (startTurnCountdown roomId playerId st).2 =
  match rooms st !! roomId with
  | Some _ =>
      match turnTimers st !! playerId with Some h => [ClearTimer h] | None => [] end ++
      [SetInterval (nextHandle st) (TurnInterval roomId playerId 900)]
  | None => []
  end.
Proof.
  unfold startTurnCountdown. destruct (rooms st !! roomId); [|done].
  by destruct (turnTimers st !! playerId).
Qed.

(** SEND_MESSAGE on a socket in a room with another player: [createMessage]
    is called and the handler is suspended; nothing else changes. *)
Lemma on_SEND_MESSAGE_suspends st s data_text roomId ref room sender otherPlayer :
  inRoom st s roomId ref room →
  findSelf s room = Some sender → findOther s room = Some otherPlayer →
  truthy sender = true → truthy otherPlayer = true →
  step (SEND_MESSAGE s (Some data_text)) st =
  (with_nextCall S
     (with_pending (insert (nextCall st) (AwaitMessage s ref otherPlayer data_text)) st),
   [DbCall (nextCall st)
      (CreateMessage roomId (bool_decide (players room !! 0%nat = Some s)) data_text s)]).
Proof.
  intros Hin Hself Hother Hts Hto. unfold step, on_SEND_MESSAGE.
  rewrite (ifInRoom_found _ _ _ _ _ _ _ Hin). by rewrite Hself, Hother, Hts, Hto.
Qed.

(** The effects of the settlement of a message that was stored. *)
Lemma resume_SEND_MESSAGE_ok_effects st call s ref otherPlayer data_text now :
  pending st !! call = Some (AwaitMessage s ref otherPlayer data_text) →
  (step (MESSAGE_SETTLED call (DbOk ()) now) st).2 =
  [Emit s (RECEIVE_MESSAGE data_text now true);
   Emit otherPlayer (RECEIVE_MESSAGE data_text now false);
   Emit otherPlayer (YOUR_TURN true None (Some TURN_TIME_LIMIT))] ++
  turnTimerEffects st s otherPlayer.
Proof.
  intros Hp. unfold step. rewrite (settle_pending _ _ _ _ _ Hp eq_refl).
  unfold resume_SEND_MESSAGE, updateRoom. rewrite seq_modify, !seq_emit. cbn [snd].
  do 3 f_equal. unfold turnTimerEffects. cbn [socketRoomId with_heap with_pending].
  destruct (socketRoomId st !! s) as [roomId|]; [|done].
  by rewrite startTurnCountdown_effects.
Qed.

(** C5: a message from [s], in a room with another participant, suspends
    the handler with that participant as the recipient.  Whenever the
    message is then stored, the sender is sent the echo, the recipient is
    sent the message with [isUser: false] and, next, [YOUR_TURN] with
    [canSendMessage: true] and [timeLeft: TURN_TIME_LIMIT], which is
    900000, the turn budget in milliseconds; nothing else is emitted. *)
Theorem relayed_message_grants_turn st s data_text roomId ref room sender otherPlayer :
  inRoom st s roomId ref room →
  findSelf s room = Some sender → findOther s room = Some otherPlayer →
  truthy sender = true → truthy otherPlayer = true →
  let call := nextCall st in
  pending (step (SEND_MESSAGE s (Some data_text)) st).1 !! call
    = Some (AwaitMessage s ref otherPlayer data_text) ∧
  ∀ st' now,
    pending st' !! call = Some (AwaitMessage s ref otherPlayer data_text) →
    ∃ after,
      (step (MESSAGE_SETTLED call (DbOk ()) now) st').2 =
      [Emit s (RECEIVE_MESSAGE data_text now true);
       Emit otherPlayer (RECEIVE_MESSAGE data_text now false);
       Emit otherPlayer (YOUR_TURN true None (Some 900000))] ++ after ∧
      (∀ to ev, ¬ In (Emit to ev) after).
Proof.
  intros Hin Hself Hother Hts Hto call. split.
  { rewrite (on_SEND_MESSAGE_suspends _ _ _ _ _ _ _ _ Hin Hself Hother Hts Hto).
    apply lookup_insert_eq. }
  intros st' now Hp. rewrite (resume_SEND_MESSAGE_ok_effects _ _ _ _ _ _ _ Hp).
  eexists. split; [reflexivity|].
  intros to ev. unfold turnTimerEffects.
  destruct (socketRoomId st' !! s) as [roomId'|]; [|simpl; tauto].
  destruct (rooms st' !! roomId'); [|simpl; tauto].
  destruct (turnTimers st' !! otherPlayer); simpl; intuition discriminate.
Qed.

Lemma relayed_message_grants_turn_witness :
  let st := Scenario.matched in
  let st' := (step (SEND_MESSAGE Scenario.alice (Some "hi")) st).1 in
  pending st' !! 1%nat = Some (AwaitMessage Scenario.alice 0%nat Scenario.bob "hi") ∧
  ∃ after,
    (step (MESSAGE_SETTLED 1 (DbOk ()) "t0") st').2 =
    [Emit Scenario.alice (RECEIVE_MESSAGE "hi" "t0" true);
     Emit Scenario.bob (RECEIVE_MESSAGE "hi" "t0" false);
     Emit Scenario.bob (YOUR_TURN true None (Some 900000))] ++ after ∧
    (∀ to ev, ¬ In (Emit to ev) after).
Proof.
  intros st st'.
  assert (inRoom st Scenario.alice "r1" 0%nat Scenario.room1) as Hin
    by (split; vm_compute; reflexivity).
  destruct (relayed_message_grants_turn st Scenario.alice "hi" "r1" 0%nat Scenario.room1
              Scenario.alice Scenario.bob Hin eq_refl eq_refl eq_refl eq_refl) as [Hp Hsettle].
  split; [exact Hp|]. exact (Hsettle st' "t0" Hp).
Defined.

(** C5, as stated, fails: Alice sends ["hi"] and the message is stored; the
    [YOUR_TURN] Bob is sent carries [timeLeft: 900000], and no [YOUR_TURN]
    with [timeLeft: 900] is emitted. *)
Lemma your_turn_timeLeft_is_not_900 :
  let effects := (run [SEND_MESSAGE Scenario.alice (Some "hi"); MESSAGE_SETTLED 1 (DbOk ()) "t0"]
                      Scenario.matched).2 in
  effects = [DbCall 1 (CreateMessage "r1" true "hi" Scenario.alice);
             Emit Scenario.alice (RECEIVE_MESSAGE "hi" "t0" true);
             Emit Scenario.bob (RECEIVE_MESSAGE "hi" "t0" false);
             Emit Scenario.bob (YOUR_TURN true None (Some 900000));
             SetInterval 1%nat (TurnInterval "r1" Scenario.bob 900)] ∧
  (∀ to a b, ¬ In (Emit to (YOUR_TURN a b (Some 900))) effects).
Proof.
  split; [vm_compute; reflexivity|].
  intros to a b. vm_compute. intros [H|[H|[H|[H|[H|[]]]]]]; discriminate.
Qed.

(** C4: a message from a socket that is in no registered room ([roomId]
    unset or falsy, or not a key of [rooms]) is answered with an error and
    changes nothing.  For a socket in a registered room, what the handler
    does up to the persistence call, and what it emits when the call
    settles, do not depend on the room's [isActive]. *)
Theorem message_needs_registered_room st s data :
  (socketRoom st s = None →
   step (SEND_MESSAGE s data) st = (st, [Emit s (ERROR "Invalid room")])) ∧
  (∀ roomId ref room b,
     inRoom st s roomId ref room →
     (step (SEND_MESSAGE s data) (with_heap (alter (set_isActive b) ref) st)).2 =
     (step (SEND_MESSAGE s data) st).2 ∧
     pending (step (SEND_MESSAGE s data) (with_heap (alter (set_isActive b) ref) st)).1 =
     pending (step (SEND_MESSAGE s data) st).1) ∧
  (∀ call db now ref b,
     (step (MESSAGE_SETTLED call db now) (with_heap (alter (set_isActive b) ref) st)).2 =
     (step (MESSAGE_SETTLED call db now) st).2).
Proof.
  split; [|split].
  - intros H. unfold step, on_SEND_MESSAGE. by rewrite ifInRoom_missing.
  - intros roomId ref room b Hin.
    assert (inRoom (with_heap (alter (set_isActive b) ref) st) s roomId ref
                   (set_isActive b room)) as Hin'.
    { destruct Hin as [H1 H2]. split; [done|]. unfold getRoom in *.
      cbn [rooms heap with_heap].
      destruct (rooms st !! roomId) as [ref'|]; [|done].
      destruct (heap st !! ref') as [room'|] eqn:Hh; [|done].
      injection H2 as -> ->. by rewrite lookup_alter_eq, Hh. }
    unfold step, on_SEND_MESSAGE.
    rewrite (ifInRoom_found _ _ _ _ _ _ _ Hin), (ifInRoom_found _ _ _ _ _ _ _ Hin').
    change (findSelf s (set_isActive b room)) with (findSelf s room).
    change (findOther s (set_isActive b room)) with (findOther s room).
    change (players (set_isActive b room)) with (players room).
    destruct (findSelf s room) as [sender|]; [|by destruct (findOther s room)].
    destruct (findOther s room) as [otherPlayer|]; [|done].
    destruct (truthy sender && truthy otherPlayer); [|done]. by destruct data.
  - intros call db now ref b. unfold step, settle. cbn [pending with_heap].
    destruct (pending st !! call) as [[s' ref' o t| |]|]; try done.
    unfold resume_SEND_MESSAGE. destruct db; [|done].
    unfold updateRoom. rewrite !seq_modify, !seq_emit. cbn [snd]. do 3 f_equal.
    cbn [socketRoomId with_heap with_pending].
    destruct (socketRoomId st !! s') as [roomId|]; [|done].
    by rewrite !startTurnCountdown_effects.
Qed.

Lemma message_needs_registered_room_witness :
  socketRoom Scenario.waiting Scenario.alice = None ∧
  step (SEND_MESSAGE Scenario.alice (Some "hi")) Scenario.waiting =
  (Scenario.waiting, [Emit Scenario.alice (ERROR "Invalid room")]).
Proof.
  assert (socketRoom Scenario.waiting Scenario.alice = None) as H by (vm_compute; reflexivity).
  split; [exact H|].
  exact (proj1 (message_needs_registered_room Scenario.waiting Scenario.alice (Some "hi")) H).
Defined.

(** C4, as stated, fails: Alice retires, which makes the room inactive and
    leaves it registered until its cleanup runs; Bob then sends ["hi"]; the
    message is stored, delivered to both, and a turn timer is started for
    Alice. *)
Lemma message_relayed_in_inactive_room :
  let st1 := (step (RETIRE Scenario.alice) Scenario.matched).1 in
  let r := run [SEND_MESSAGE Scenario.bob (Some "hi"); MESSAGE_SETTLED 1 (DbOk ()) "t0"] st1 in
  roomActive st1 "r1" = Some false ∧
  r.2 = [DbCall 1 (CreateMessage "r1" false "hi" Scenario.bob);
         Emit Scenario.bob (RECEIVE_MESSAGE "hi" "t0" true);
         Emit Scenario.alice (RECEIVE_MESSAGE "hi" "t0" false);
         Emit Scenario.alice (YOUR_TURN true None (Some 900000));
         SetInterval 1%nat (TurnInterval "r1" Scenario.alice 900)] ∧
  roomMessages st1 "r1" = Some [] ∧
  roomMessages r.1 "r1" = Some [{| text := "hi"; timestamp := "t0" |}] ∧
  turnTimers r.1 !! Scenario.alice = Some 1%nat ∧
  intervals r.1 !! 1%nat = Some (TurnInterval "r1" Scenario.alice 900).
Proof.
  repeat split; vm_compute; reflexivity.
Qed.

(** ** Turn countdowns are only stopped by a replacement or by expiry *)

Section TurnTimer.
Variables (h : Handle) (roomId : RoomId) (playerId : Pid) (timeLeft : Z).

Local Abbreviation keeps := (keeps h roomId playerId timeLeft).
Local Abbreviation live := (turnTimerLive h roomId playerId timeLeft).

Lemma keeps_intro (c : Cmd) :
  preserves c →
  (∀ st, wf_state st → live st → intervals (c st).1 !! h = intervals st !! h) →
  keeps c.
Proof.
  intros Hp Hc st Hwf Hl. split; [by apply Hp|].
  unfold turnTimerLive in *. by rewrite Hc.
Qed.

Lemma keeps_skip : keeps skip.
Proof. by intros st Hwf Hl. Qed.

Lemma keeps_seq c1 c2 : keeps c1 → keeps c2 → keeps (c1 >> c2).
Proof.
  intros H1 H2 st Hwf Hl. rewrite seq_state.
  destruct (H1 st Hwf Hl) as [Hwf1 Hl1]. by apply H2.
Qed.

Lemma keeps_when b c : keeps c → keeps (when b c).
Proof. destruct b; simpl; [done|]. intros _. apply keeps_skip. Qed.

Lemma keeps_emit to ev : keeps (emit to ev).
Proof. by intros st Hwf Hl. Qed.

Lemma keeps_forEachFrom {A} (l : list A) body i :
  (∀ i x, keeps (body i x)) → keeps (forEachFrom i l body).
Proof.
  intros Hb. revert i. induction l as [|x l IH]; intros i; simpl.
  - apply keeps_skip.
  - apply keeps_seq; [apply Hb | apply IH].
Qed.

Lemma keeps_forEach {A} (l : list A) body :
  (∀ x, keeps (body x)) → keeps (forEach l body).
Proof. intros Hb. apply keeps_forEachFrom. intros _. apply Hb. Qed.

Lemma keeps_setTimeout c delay : keeps (setTimeout c delay).
Proof. apply keeps_intro; [apply preserves_setTimeout | done]. Qed.

Lemma keeps_updateRoom ref f : keeps_roomTimer f → keeps (updateRoom ref f).
Proof. intros Hf. apply keeps_intro; [by apply preserves_updateRoom | done]. Qed.

Lemma keeps_delete_roomTimer roomId' : keeps (modify (with_roomTimers (delete roomId'))).
Proof. apply keeps_intro; [apply preserves_delete_roomTimer | done]. Qed.

Lemma keeps_delete_turnTimer p : keeps (modify (with_turnTimers (delete p))).
Proof. apply keeps_intro; [apply preserves_delete_turnTimer | done]. Qed.

Lemma keeps_delete_waiting s : keeps (modify (with_waitingPlayers (JsMap.delete s))).
Proof. apply keeps_intro; [apply preserves_delete_waiting | done]. Qed.

Lemma keeps_set_socketRoomId s roomId' :
  keeps (modify (with_socketRoomId (insert s roomId'))).
Proof. apply keeps_intro; [apply preserves_set_socketRoomId | done]. Qed.

(** Clearing, or advancing, another handle. *)
Lemma keeps_clearTimer h' : h' ≠ h → keeps (clearTimer h').
Proof.
  intros Hne. apply keeps_intro; [apply preserves_clearTimer|].
  intros st _ _. simpl. by apply lookup_delete_ne.
Qed.

Lemma keeps_set_timeLeft h' t :
  h' ≠ h → keeps (modify (with_intervals (alter (set_timeLeft t) h'))).
Proof.
  intros Hne. apply keeps_intro; [apply preserves_set_timeLeft|].
  intros st _ _. simpl. by apply lookup_alter_ne.
Qed.

(** The handle registered for a room is not that of a turn countdown. *)
Lemma keeps_stopRoomTimer roomId' : keeps (stopRoomTimer roomId').
Proof.
  intros st Hwf Hl. unfold stopRoomTimer.
  destruct (roomTimers st !! roomId') as [h'|] eqn:Ht; [|done].
  revert st Hwf Hl Ht. intros st Hwf Hl Ht.
  assert (h' ≠ h) as Hne.
  { intros ->. destruct (wf_roomTimers _ Hwf _ _ Ht) as [_ Hc]. by apply Hc in Hl. }
  revert Hwf Hl. clear Ht. revert st.
  apply keeps_seq; [by apply keeps_clearTimer | apply keeps_delete_roomTimer].
Qed.

Lemma keeps_handleForfeit roomId' p : keeps (handleForfeit roomId' p).
Proof.
  intros st Hwf Hl. unfold handleForfeit.
  destruct (getRoom st roomId') as [[ref room]|]; [|done].
  revert st Hwf Hl. apply keeps_seq; [apply keeps_stopRoomTimer|].
  apply keeps_seq; [apply keeps_emit|].
  destruct (findOther p room); [|apply keeps_skip].
  apply keeps_when, keeps_emit.
Qed.

Lemma keeps_startRoomCountdown roomId' : keeps (startRoomCountdown roomId').
Proof.
  intros st Hwf Hl. split; [by apply preserves_startRoomCountdown|].
  unfold turnTimerLive in *. unfold startRoomCountdown.
  destruct (rooms st !! roomId') as [ref|]; [|done].
  pose proof (wf_intervals_allocated _ Hwf _ _ Hl) as Hlt.
  destruct (roomTimers st !! roomId') as [h'|] eqn:Ht; simpl.
  - assert (h' ≠ h) as Hne.
    { intros ->. destruct (wf_roomTimers _ Hwf _ _ Ht) as [_ Hc]. by apply Hc in Hl. }
    rewrite lookup_insert_ne by lia. by rewrite lookup_delete_ne.
  - by rewrite lookup_insert_ne by lia.
Qed.

Lemma keeps_delete_pending call : keeps (modify (with_pending (delete call))).
Proof. apply keeps_intro; [apply preserves_delete_pending | done]. Qed.

Lemma keeps_ifInRoom s body otherwise :
  (∀ roomId' ref room st, heap st !! ref = Some room →
     wf_state st → live st →
     wf_state (body roomId' ref room st).1 ∧ live (body roomId' ref room st).1) →
  keeps otherwise →
  keeps (ifInRoom s body otherwise).
Proof.
  intros Hb Ho st Hwf Hl. unfold ifInRoom.
  destruct (socketRoom st s) as [roomId'|]; [|by apply Ho].
  destruct (getRoom st roomId') as [[ref room]|] eqn:Hget; [|done].
  apply Hb; [|done|done]. by apply getRoom_heap in Hget.
Qed.

(** Up to its persistence call a message touches no timer. *)
Lemma keeps_on_SEND_MESSAGE s data : keeps (on_SEND_MESSAGE s data).
Proof.
  apply keeps_intro; [apply preserves_on_SEND_MESSAGE|].
  intros st _ _. unfold on_SEND_MESSAGE, ifInRoom.
  destruct (socketRoom st s) as [roomId'|]; [|done].
  destruct (getRoom st roomId') as [[ref room]|]; [|done].
  destruct (findSelf s room) as [sender|]; [|by destruct (findOther s room)].
  destruct (findOther s room) as [otherPlayer|]; [|done].
  destruct (truthy sender && truthy otherPlayer); [|done]. by destruct data.
Qed.

Lemma keeps_on_TYPING_STATUS s data : keeps (on_TYPING_STATUS s data).
Proof.
  apply keeps_ifInRoom; [|apply keeps_skip]. intros roomId' ref room st _. revert st.
  destruct (findOther s room); [|apply keeps_skip].
  apply keeps_when. destruct data; [apply keeps_emit|].
  apply keeps_intro; [apply preserves_throw | done].
Qed.

Lemma keeps_on_MAKE_GUESS s data : keeps (on_MAKE_GUESS s data).
Proof.
  intros st Hwf Hl. split; [by apply preserves_on_MAKE_GUESS|].
  unfold on_MAKE_GUESS, ifInRoom.
  destruct (socketRoom st s) as [roomId'|]; [|done].
  destruct (getRoom st roomId') as [[ref room]|]; [|done].
  rewrite seq_state. destruct data; by apply keeps_stopRoomTimer.
Qed.

Lemma keeps_resume_MAKE_GUESS s ref data_isAI db : keeps (resume_MAKE_GUESS s ref data_isAI db).
Proof.
  apply keeps_intro; [apply preserves_resume_MAKE_GUESS|].
  intros st _ _. unfold resume_MAKE_GUESS. destruct db; [|done].
  rewrite seq_emit. cbn [fst]. destruct (heap st !! ref) as [room|]; [|done].
  destruct (findOther s room) as [o|]; [|done]. by destruct (truthy o).
Qed.

(** No room object has a [roomTimer], so RETIRE clears nothing. *)
Lemma keeps_on_RETIRE s : keeps (on_RETIRE s).
Proof.
  apply keeps_ifInRoom; [|apply keeps_skip]. intros roomId' ref room st Hh Hwf.
  rewrite (wf_roomTimer_undefined _ Hwf _ _ Hh). clear Hh. revert st Hwf.
  apply keeps_seq.
  - destruct (findOther s room); [|apply keeps_skip].
    apply keeps_when. apply keeps_seq; [apply keeps_emit|].
    apply keeps_seq; [apply keeps_skip | apply keeps_emit].
  - apply keeps_seq; [apply keeps_updateRoom, keeps_roomTimer_isActive|].
    apply keeps_setTimeout.
Qed.

Lemma keeps_handleDisconnect s : keeps (handleDisconnect s).
Proof.
  apply keeps_seq; [apply keeps_delete_waiting|].
  apply keeps_ifInRoom; [|apply keeps_skip]. intros roomId' ref room st _. revert st.
  apply keeps_seq; [apply keeps_stopRoomTimer|].
  apply keeps_seq.
  - destruct (findOther s room); [|apply keeps_skip].
    apply keeps_when. apply keeps_seq; apply keeps_emit.
  - apply keeps_seq; [apply keeps_updateRoom, keeps_roomTimer_isActive|].
    apply keeps_setTimeout.
Qed.

Lemma keeps_roomCountdownTick timer roomId' ref t :
  timer ≠ h → keeps (roomCountdownTick timer roomId' ref t).
Proof.
  intros Hne st Hwf Hl. unfold roomCountdownTick.
  destruct (heap st !! ref) as [room|]; [|done].
  destruct (negb (isActive room)); revert st Hwf Hl.
  - apply keeps_seq; [by apply keeps_clearTimer | apply keeps_delete_roomTimer].
  - apply keeps_seq; [by apply keeps_set_timeLeft|].
    apply keeps_seq; [apply keeps_forEach; intros; apply keeps_emit|].
    apply keeps_when.
    apply keeps_seq; [by apply keeps_clearTimer|].
    apply keeps_seq; [apply keeps_delete_roomTimer|].
    apply keeps_seq; [apply keeps_forEach; intros; apply keeps_emit|].
    apply keeps_seq; [apply keeps_updateRoom, keeps_roomTimer_isActive|].
    apply keeps_setTimeout.
Qed.

Lemma keeps_turnCountdownTick timer roomId' p t :
  timer ≠ h → keeps (turnCountdownTick timer roomId' p t).
Proof.
  intros Hne. unfold turnCountdownTick.
  apply keeps_seq; [by apply keeps_set_timeLeft|].
  apply keeps_seq; [apply keeps_emit|].
  apply keeps_when.
  apply keeps_seq; [by apply keeps_clearTimer|].
  apply keeps_seq; [apply keeps_delete_turnTimer|].
  apply keeps_seq; [apply keeps_emit|].
  apply keeps_handleForfeit.
Qed.

Lemma keeps_intervalTick h' : h' ≠ h → keeps (intervalTick h').
Proof.
  intros Hne st Hwf Hl. unfold intervalTick.
  destruct (intervals st !! h') as [[]|]; [| |done].
  - by apply keeps_roomCountdownTick.
  - by apply keeps_turnCountdownTick.
Qed.

Lemma keeps_timeoutFire k : keeps (timeoutFire k).
Proof.
  apply keeps_intro; [apply preserves_timeoutFire|].
  intros st _ _. unfold timeoutFire. destruct (timeouts st !! k) as [[delay c]|]; [|done].
  destruct c as [s|roomId']; simpl; [|done]. by destruct (socketRoomId st !! s).
Qed.

Lemma keeps_roomsSet roomId' room : roomTimer room = None → keeps (roomsSet roomId' room).
Proof. intros Hroom st Hwf Hl. split; [by apply wf_roomsSet | done]. Qed.

Lemma keeps_catchMatchmaking s : keeps (catchMatchmaking s).
Proof. apply keeps_seq; [apply keeps_emit | apply keeps_delete_waiting]. Qed.

Lemma keeps_notifyMatch roomId' cid index player :
  keeps (notifyMatch roomId' cid index player).
Proof.
  intros st Hwf Hl. unfold notifyMatch. by destruct (getRoom st roomId') as [[ref room]|].
Qed.

Lemma keeps_resume_handleMatchmaking s ps roomId' db coinFirstTurn clock :
  keeps (resume_handleMatchmaking s ps roomId' db coinFirstTurn clock).
Proof.
  unfold resume_handleMatchmaking.
  destruct db as [c|]; [|apply keeps_catchMatchmaking].
  destruct (usableConversation c) as [cid|]; [|apply keeps_catchMatchmaking].
  apply keeps_seq; [by apply keeps_roomsSet|].
  apply keeps_seq.
  { apply keeps_forEach. intros player.
    apply keeps_seq; [apply keeps_set_socketRoomId | apply keeps_delete_waiting]. }
  apply keeps_seq; [apply keeps_forEachFrom; intros; apply keeps_notifyMatch|].
  apply keeps_startRoomCountdown.
Qed.

Lemma keeps_handleMatchmaking s coinIsAI newRoomId :
  keeps (handleMatchmaking s coinIsAI newRoomId).
Proof.
  apply keeps_intro; [apply preserves_handleMatchmaking|].
  intros st _ _. unfold handleMatchmaking.
  destruct (bool_decide _); [done|].
  destruct (JsMap.has s (waitingPlayers st)); [done|].
  rewrite seq_modify. destruct (Nat.leb _ _); [|done].
  unfold beginMatch. destruct (_ !! 0%nat) as [p0|]; [|done].
  by destruct (_ !! 1%nat).
Qed.

Lemma keeps_settle call resume :
  (∀ k c, resume k = Some c → keeps c) → keeps (settle call resume).
Proof.
  intros Hr st Hwf Hl. unfold settle. destruct (pending st !! call) as [k|]; [|done].
  destruct (resume k) as [c|] eqn:Hk; [|done].
  apply (Hr _ _ Hk); [|done]. by apply (preserves_delete_pending call) in Hwf.
Qed.

(** Every event other than the settlement of a message and a run of the
    countdown itself leaves the countdown as it is. *)
Lemma keeps_step e : leavesTurnTimer h e → keeps (step e).
Proof.
  destruct e; simpl; intros He.
  - apply keeps_handleMatchmaking.
  - apply keeps_delete_waiting.
  - apply keeps_on_SEND_MESSAGE.
  - apply keeps_on_TYPING_STATUS.
  - apply keeps_on_MAKE_GUESS.
  - apply keeps_on_RETIRE.
  - apply keeps_handleDisconnect.
  - by apply keeps_intervalTick.
  - apply keeps_timeoutFire.
  - apply keeps_settle. intros [] c [= <-]. apply keeps_resume_handleMatchmaking.
  - done.
  - apply keeps_settle. intros [] c [= <-]. apply keeps_resume_MAKE_GUESS.
Qed.

Lemma keeps_run es : Forall (leavesTurnTimer h) es → keeps (run es).
Proof.
  induction 1 as [|e es He _ IH]; simpl; [apply keeps_skip|].
  apply keeps_seq; [by apply keeps_step | done].
Qed.

(** The settlement of a message either leaves the countdown as it is or
    replaces it with a fresh countdown of the same player. *)
Lemma message_replaces_turn_timer call db now st :
  wf_state st → live st →
  let st' := (step (MESSAGE_SETTLED call db now) st).1 in
  live st' ∨
  (intervals st' !! h = None ∧
   ∃ h' roomId', turnTimers st' !! playerId = Some h' ∧
                 turnTimerLive h' roomId' playerId 900 st').
Proof.
  intros Hwf Hl. unfold step, settle.
  destruct (pending st !! call) as [[s ref otherPlayer data_text| |]|]; try by left.
  unfold resume_SEND_MESSAGE. destruct db; [|by left].
  unfold updateRoom. rewrite seq_modify, !seq_emit. cbn [fst].
  cbn [socketRoomId with_heap with_pending].
  destruct (socketRoomId st !! s) as [roomId'|]; [|by left].
  unfold startTurnCountdown. cbn [rooms turnTimers with_heap with_pending].
  destruct (rooms st !! roomId') as [ref'|]; [|by left].
  pose proof (wf_intervals_allocated _ Hwf _ _ Hl) as Hlt.
  unfold turnTimerLive in *.
  destruct (turnTimers st !! otherPlayer) as [h0|] eqn:Ht; simpl.
  - destruct (decide (h0 = h)) as [->|Hne].
    + right. destruct (wf_turnTimers _ Hwf _ _ Ht) as [_ Hc].
      apply Hc in Hl. simpl in Hl. subst otherPlayer.
      split; [by rewrite lookup_insert_ne, lookup_delete_eq by lia|].
      exists (nextHandle st), roomId'.
      by rewrite !lookup_insert_eq.
    + left. by rewrite lookup_insert_ne, lookup_delete_ne by (done || lia).
  - left. by rewrite lookup_insert_ne by lia.
Qed.

(** A run of the countdown with more than a second left: one
    [TURN_TIME_UPDATE], and the countdown goes on.  The registry is not
    consulted. *)
Lemma turn_tick_running st :
  live st → 1 < timeLeft →
  step (INTERVAL h) st =
  (with_intervals (alter (set_timeLeft (timeLeft - 1)) h) st,
   [Emit playerId (TURN_TIME_UPDATE (timeLeft - 1) (timeLeft - 1 <=? 5))]).
Proof.
  intros Hl Hlt. simpl. unfold intervalTick. rewrite Hl. unfold turnCountdownTick.
  rewrite seq_modify, seq_emit.
  replace (timeLeft - 1 <=? 0) with false by (symmetry; apply Z.leb_gt; lia).
  done.
Qed.

(** The last run of the countdown: the update, the end of the interval,
    [TURN_TIME_UP], then [handleForfeit], which returns at once when the
    room is no longer registered. *)
Lemma turn_tick_expiry st :
  live st → timeLeft ≤ 1 →
  let r := step (INTERVAL h) st in
  (∃ forfeit,
     r.2 = [Emit playerId (TURN_TIME_UPDATE (timeLeft - 1) true);
            ClearTimer h;
            Emit playerId TURN_TIME_UP] ++ forfeit ∧
     (rooms st !! roomId = None → forfeit = [])) ∧
  intervals r.1 !! h = None ∧
  (rooms st !! roomId = None →
   r.1 = with_turnTimers (delete playerId)
           (with_intervals (delete h)
              (with_intervals (alter (set_timeLeft (timeLeft - 1)) h) st))).
Proof.
  intros Hl Hle r.
  set (st1 := with_turnTimers (delete playerId)
                (with_intervals (delete h)
                   (with_intervals (alter (set_timeLeft (timeLeft - 1)) h) st))).
  assert (r = ((handleForfeit roomId playerId st1).1,
               [Emit playerId (TURN_TIME_UPDATE (timeLeft - 1) true);
                ClearTimer h;
                Emit playerId TURN_TIME_UP] ++ (handleForfeit roomId playerId st1).2)) as ->.
  { subst r. change (step (INTERVAL h) st) with (intervalTick h st).
    unfold intervalTick. rewrite Hl. unfold turnCountdownTick.
    rewrite seq_modify, seq_emit.
    replace (timeLeft - 1 <=? 0) with true by (symmetry; apply Z.leb_le; lia).
    replace (timeLeft - 1 <=? 5) with true by (symmetry; apply Z.leb_le; lia).
    unfold when. rewrite seq_clearTimer, seq_modify, seq_emit. done. }
  cbn [fst snd].
  assert (intervals st1 !! h = None) as Hgone by (simpl; apply lookup_delete_eq).
  assert (rooms st1 = rooms st) as Hrooms by done.
  destruct (handleForfeit roomId playerId st1) as [st2 forfeit] eqn:Hf.
  cbn [fst snd].
  assert (rooms st !! roomId = None → st2 = st1 ∧ forfeit = []) as Hnone.
  { intros Hr. unfold handleForfeit, getRoom in Hf. rewrite Hrooms, Hr in Hf.
    by injection Hf as <- <-. }
  split; [|split].
  - exists forfeit. split; [done|]. intros Hr. by apply Hnone.
  - unfold handleForfeit in Hf. destruct (getRoom st1 roomId) as [[ref room]|].
    + apply (f_equal fst) in Hf. cbn [fst] in Hf. subst st2. rewrite !seq_state.
      assert (∀ c : Cmd, (∀ st, (c st).1 = st) →
                intervals (c (emit playerId
                   (FORFEIT_RESULT "You've lost your turn due to time running out.")
                   (stopRoomTimer roomId st1).1).1).1 !! h = None) as Hc.
      { intros c ->. cbn [emit fst]. rewrite stopRoomTimer_state.
        destruct (roomTimers st1 !! roomId) as [h'|]; [|done].
        simpl. rewrite lookup_delete_None. right. apply lookup_delete_eq. }
      destruct (findOther playerId room) as [o|]; [destruct (truthy o)|]; by apply Hc.
    + by injection Hf as <- _.
  - intros Hr. by apply Hnone.
Qed.
End TurnTimer.

(** C10: a live turn countdown is left as it is by every event other than
    the settlement of a message and its own run: disconnect, retire, either
    half of a guess, a run or the expiry of a room countdown, a cleanup that
    removes the room from the registry, and any sequence of such events.
    The settlement of a message leaves it as it is or replaces it with a
    new countdown registered for the same player.  Its own run, whether or
    not the room is still registered, sends the player a
    [TURN_TIME_UPDATE] and goes on while more than a second is left; its
    last run sends the update and [TURN_TIME_UP] and ends it, and the
    forfeit handling that follows does nothing when the room is no longer
    registered. *)
Theorem turn_timer_outlives_session st h roomId playerId timeLeft :
  wf_state st →
  turnTimerLive h roomId playerId timeLeft st →
  (∀ es, Forall (leavesTurnTimer h) es →
         turnTimerLive h roomId playerId timeLeft (run es st).1) ∧
  (∀ s, turnTimerLive h roomId playerId timeLeft (step (DISCONNECT s) st).1) ∧
  (∀ s, turnTimerLive h roomId playerId timeLeft (step (RETIRE s) st).1) ∧
  (∀ s g, turnTimerLive h roomId playerId timeLeft (step (MAKE_GUESS s g) st).1) ∧
  (∀ call db, turnTimerLive h roomId playerId timeLeft (step (GUESS_SETTLED call db) st).1) ∧
  (∀ h' roomId' ref t, intervals st !! h' = Some (RoomInterval roomId' ref t) →
         turnTimerLive h roomId playerId timeLeft (step (INTERVAL h') st).1) ∧
  (∀ k, turnTimerLive h roomId playerId timeLeft (step (TIMEOUT k) st).1) ∧
  (∀ call db now,
     let st' := (step (MESSAGE_SETTLED call db now) st).1 in
     turnTimerLive h roomId playerId timeLeft st' ∨
     (intervals st' !! h = None ∧
      ∃ h' roomId', turnTimers st' !! playerId = Some h' ∧
                    turnTimerLive h' roomId' playerId 900 st')) ∧
  (1 < timeLeft →
   step (INTERVAL h) st =
   (with_intervals (alter (set_timeLeft (timeLeft - 1)) h) st,
    [Emit playerId (TURN_TIME_UPDATE (timeLeft - 1) (timeLeft - 1 <=? 5))])) ∧
  (timeLeft ≤ 1 →
   let r := step (INTERVAL h) st in
   (∃ forfeit,
      r.2 = [Emit playerId (TURN_TIME_UPDATE (timeLeft - 1) true);
             ClearTimer h;
             Emit playerId TURN_TIME_UP] ++ forfeit ∧
      (rooms st !! roomId = None → forfeit = [])) ∧
   intervals r.1 !! h = None ∧
   (rooms st !! roomId = None →
    r.1 = with_turnTimers (delete playerId)
            (with_intervals (delete h)
               (with_intervals (alter (set_timeLeft (timeLeft - 1)) h) st)))).
Proof.
  intros Hwf Hl.
  assert (∀ e, leavesTurnTimer h e →
               turnTimerLive h roomId playerId timeLeft (step e st).1) as Hstep.
  { intros e He. by apply (keeps_step h roomId playerId timeLeft e He st). }
  split; [|split; [|split; [|split; [|split; [|split; [|split; [|split; [|split]]]]]]]].
  - intros es Hes. by apply (keeps_run h roomId playerId timeLeft es Hes st).
  - intros s. by apply Hstep.
  - intros s. by apply Hstep.
  - intros s g. by apply Hstep.
  - intros call db. by apply Hstep.
  - intros h' roomId' ref t Hh'. apply Hstep. simpl. intros ->.
    unfold turnTimerLive in Hl. congruence.
  - intros k. by apply Hstep.
  - intros call db now.
    by apply (message_replaces_turn_timer h roomId playerId timeLeft).
  - intros Hlt. by apply (turn_tick_running h roomId playerId timeLeft).
  - intros Hle. by apply (turn_tick_expiry h roomId playerId timeLeft).
Qed.

Lemma turn_timer_outlives_session_witness :
  let st := Scenario.abandoned in
  wf_state st ∧
  turnTimerLive 1 "r1" Scenario.bob 900 st ∧
  rooms st !! "r1" = None ∧
  turnTimerLive 1 "r1" Scenario.bob 900
    (run [DISCONNECT Scenario.alice; INTERVAL 0; MAKE_GUESS Scenario.bob (Some true)] st).1 ∧
  step (INTERVAL 1) st =
  (with_intervals (alter (set_timeLeft (900 - 1)) 1%nat) st,
   [Emit Scenario.bob (TURN_TIME_UPDATE (900 - 1) (900 - 1 <=? 5))]).
Proof.
  intros st.
  assert (wf_state st) as Hwf.
  { repeat apply preserves_run. apply wf_initial. }
  assert (turnTimerLive 1 "r1" Scenario.bob 900 st) as Hl by (vm_compute; reflexivity).
  destruct (turn_timer_outlives_session st 1%nat "r1" Scenario.bob 900 Hwf Hl)
    as (Hrun & _ & _ & _ & _ & _ & _ & _ & Htick & _).
  split; [exact Hwf|]. split; [exact Hl|]. split; [vm_compute; reflexivity|].
  split.
  - apply Hrun. repeat constructor. simpl. lia.
  - apply Htick. lia.
Defined.

(** Bob's countdown, left running in [Scenario.abandoned], runs down to its
    last second; its last run ends it without any forfeit notification. *)
Example turn_timer_expires_after_room_removed :
  let st := (run (replicate 899 (INTERVAL 1)) Scenario.abandoned).1 in
  turnTimerLive 1 "r1" Scenario.bob 1 st ∧
  (step (INTERVAL 1) st).2 =
  [Emit Scenario.bob (TURN_TIME_UPDATE 0 true); ClearTimer 1%nat; Emit Scenario.bob TURN_TIME_UP] ∧
  intervals (step (INTERVAL 1) st).1 !! 1%nat = None ∧
  turnTimers (step (INTERVAL 1) st).1 !! Scenario.bob = None.
Proof. repeat split; vm_compute; reflexivity. Qed.

(** ** Leaving the queue *)

(** X1: CANCEL_MATCHMAKING takes the caller, and nobody else, out of the queue
    and emits nothing; a second cancel, or a cancel by a socket that is not
    queued, changes nothing. *)
Theorem cancel_removes_only_the_caller st s :
  let r := step (CANCEL_MATCHMAKING s) st in
  r.2 = [] ∧
  JsMap.has s (waitingPlayers r.1) = false ∧
  (∀ p, p ≠ s → JsMap.has p (waitingPlayers r.1) = JsMap.has p (waitingPlayers st)) ∧
  (JsMap.has s (waitingPlayers st) = false → r.1 = st) ∧
  step (CANCEL_MATCHMAKING s) r.1 = (r.1, []).
Proof.
  simpl. unfold on_CANCEL_MATCHMAKING, modify. cbn [fst snd].
  split; [done|]. split; [apply JsMap_has_delete|]. split.
  { intros p Hne. by apply JsMap_has_delete_ne. }
  split.
  - intros Hhas. unfold with_waitingPlayers. rewrite JsMap_delete_absent by done.
    apply State_eta.
  - f_equal. unfold with_waitingPlayers at 1. cbn [waitingPlayers with_waitingPlayers].
    rewrite (JsMap_delete_absent s (JsMap.delete s _)) by apply JsMap_has_delete.
    done.
Qed.

(** X2: a socket that is in no registered room joins an empty queue: it is
    queued, alone, with the flag drawn for it, and is told to wait; no
    database call is made.  Cancelling then restores the state. *)
Theorem join_alone_waits_and_cancel_undoes st s coinIsAI newRoomId :
  socketRoom st s = None →
  waitingPlayers st = [] →
  let r := step (JOIN_MATCHMAKING s coinIsAI newRoomId) st in
  r.2 = [Emit s (WAITING_FOR_PLAYER "Waiting for another player to join...")] ∧
  waitingPlayers r.1 = [(s, {| socket := s; isAI := coinIsAI |})] ∧
  pending r.1 = pending st ∧
  (step (CANCEL_MATCHMAKING s) r.1).1 = st.
Proof.
  intros Hroom Hq r.
  set (e := {| socket := s; isAI := coinIsAI |}).
  assert (r = (with_waitingPlayers (λ _, [(s, e)]) st,
               [Emit s (WAITING_FOR_PLAYER "Waiting for another player to join...")])) as ->.
  { subst r. unfold step, handleMatchmaking.
    rewrite Hroom. rewrite bool_decide_eq_false_2 by (by intros [? ?]).
    assert (JsMap.has s (waitingPlayers st) = false) as -> by (by rewrite Hq).
    rewrite seq_modify. fold e.
    assert (with_waitingPlayers (JsMap.set s e) st = with_waitingPlayers (λ _, [(s, e)]) st)
      as -> by (unfold with_waitingPlayers; by rewrite Hq).
    reflexivity. }
  cbn [fst snd]. repeat (split; [done|]).
  unfold step, on_CANCEL_MATCHMAKING, modify. cbn [fst].
  unfold with_waitingPlayers, JsMap.delete. cbn.
  rewrite bool_decide_eq_true_2 by done. cbn. rewrite <- Hq. apply State_eta.
Qed.

Lemma join_alone_waits_and_cancel_undoes_witness :
  let r := step (JOIN_MATCHMAKING Scenario.alice true "r0") initial in
  r.2 = [Emit Scenario.alice (WAITING_FOR_PLAYER "Waiting for another player to join...")] ∧
  waitingPlayers r.1 = [(Scenario.alice, {| socket := Scenario.alice; isAI := true |})] ∧
  pending r.1 = pending initial ∧
  (step (CANCEL_MATCHMAKING Scenario.alice) r.1).1 = initial.
Proof.
  apply (join_alone_waits_and_cancel_undoes initial Scenario.alice true "r0");
    vm_compute; reflexivity.
Defined.

(** ** Sockets that are in no registered room *)

(** X3: on a socket whose [roomId] is unset, falsy or not in the registry,
    MAKE_GUESS is answered with an error; TYPING_STATUS and RETIRE do
    nothing at all, and a disconnect only takes the socket out of the
    queue.  None of them calls the database or touches a timer, and none
    reads its payload: it is so with or without one. *)
Theorem outside_a_room_nothing_happens st s :
  socketRoom st s = None →
  (∀ g, step (MAKE_GUESS s g) st = (st, [Emit s (ERROR "Invalid room")])) ∧
  (∀ b, step (TYPING_STATUS s b) st = (st, [])) ∧
  step (RETIRE s) st = (st, []) ∧
  step (DISCONNECT s) st = (with_waitingPlayers (JsMap.delete s) st, []).
Proof.
  intros H. repeat split; intros; unfold step.
  - unfold on_MAKE_GUESS. by rewrite ifInRoom_missing.
  - unfold on_TYPING_STATUS. by rewrite ifInRoom_missing.
  - unfold on_RETIRE. by rewrite ifInRoom_missing.
  - unfold handleDisconnect. rewrite seq_modify. by rewrite ifInRoom_missing.
Qed.

Lemma outside_a_room_nothing_happens_witness :
  socketRoom Scenario.waiting Scenario.alice = None ∧
  step (RETIRE Scenario.alice) Scenario.waiting = (Scenario.waiting, []) ∧
  step (DISCONNECT Scenario.alice) Scenario.waiting =
  (with_waitingPlayers (JsMap.delete Scenario.alice) Scenario.waiting, []).
Proof.
  assert (socketRoom Scenario.waiting Scenario.alice = None) as H by (vm_compute; reflexivity).
  destruct (outside_a_room_nothing_happens Scenario.waiting Scenario.alice H)
    as (_ & _ & Hr & Hd).
  split; [exact H|]. split; [exact Hr | exact Hd].
Defined.

Lemma empty_room_id_is_falsy st s :
  socketRoomId st !! s = Some "" → socketRoom st s = None.
Proof. intros H. unfold socketRoom. by rewrite H. Qed.

(** X4: the empty string is a falsy room id, and the substring
    [generateRoomId()] takes can be empty.  A pairing recorded under it
    registers the room and tells both players of the match, but neither is
    in a room for any handler afterwards: a message from either is
    answered with an error. *)
Theorem room_with_empty_id_is_unusable st call s e0 e1 c cid coinFirstTurn clock :
  pending st !! call = Some (AwaitConversation s [e0; e1] "") →
  usableConversation c = Some cid →
  let r := step (CONVERSATION_SETTLED call (DbOk c) coinFirstTurn clock) st in
  is_Some (rooms r.1 !! "") ∧
  In (Emit (socket e0) (MATCH_FOUND "" cid (isAI e0) coinFirstTurn ROOM_TIME_LIMIT)) r.2 ∧
  socketRoom r.1 (socket e0) = None ∧ socketRoom r.1 (socket e1) = None ∧
  (∀ p data, p = socket e0 ∨ p = socket e1 →
     step (SEND_MESSAGE p data) r.1 = (r.1, [Emit p (ERROR "Invalid room")])).
Proof.
  intros Hp Hcid r.
  destruct (pairing_settled st call s e0 e1 "" c cid coinFirstTurn clock Hp Hcid)
    as (He & Hg & _ & H0 & H1).
  fold r in He, Hg, H0, H1.
  pose proof (empty_room_id_is_falsy _ _ H0) as Hs0.
  pose proof (empty_room_id_is_falsy _ _ H1) as Hs1.
  split; [apply getRoom_rooms in Hg; by rewrite Hg|].
  split; [rewrite He; by left|]. split; [done|]. split; [done|].
  intros p data [->| ->]; unfold step, on_SEND_MESSAGE; by rewrite ifInRoom_missing.
Qed.

Lemma room_with_empty_id_is_unusable_witness :
  let st := (step (JOIN_MATCHMAKING Scenario.bob true "") Scenario.waiting).1 in
  let r := step (CONVERSATION_SETTLED 0 Scenario.conv true 0) st in
  pending st !! 0%nat
    = Some (AwaitConversation Scenario.bob [Scenario.entryA; Scenario.entryB] "") ∧
  is_Some (rooms r.1 !! "") ∧
  socketRoom r.1 Scenario.alice = None ∧
  step (SEND_MESSAGE Scenario.alice (Some "hi")) r.1
    = (r.1, [Emit Scenario.alice (ERROR "Invalid room")]).
Proof.
  intros st r.
  assert (pending st !! 0%nat
          = Some (AwaitConversation Scenario.bob [Scenario.entryA; Scenario.entryB] "")) as Hp
    by (vm_compute; reflexivity).
  destruct (room_with_empty_id_is_unusable st 0%nat Scenario.bob Scenario.entryA Scenario.entryB
              (Some {| conversation_id := Some 7 |}) 7 true 0 Hp eq_refl)
    as (Hr & _ & Hs & _ & Hm).
  split; [exact Hp|]. split; [exact Hr|]. split; [exact Hs|].
  apply Hm. by left.
Defined.

(** ** Members and non-members of a room *)

Lemma findSelf_Some s room p : findSelf s room = Some p → p = s ∧ In s (players room).
Proof.
  unfold findSelf. intros [Hin Hp]%find_some.
  apply bool_decide_eq_true in Hp. by subst p.
Qed.



(** In a room of two different players, each finds itself and the other. *)
Lemma find_in_pair a b room :
  players room = [a; b] → a ≠ b →
  findSelf a room = Some a ∧ findOther a room = Some b ∧
  findSelf b room = Some b ∧ findOther b room = Some a.
Proof.
  intros Hp Hne. unfold findSelf, findOther. rewrite Hp. cbn [find].
  rewrite !(bool_decide_eq_true_2 (a = a)), !(bool_decide_eq_true_2 (b = b)) by done.
  rewrite !(bool_decide_eq_false_2 (b = a)), !(bool_decide_eq_false_2 (a = b)) by done.
  done.
Qed.




(** With a player to notify, a TYPING_STATUS without payload throws. *)
Example typing_status_without_payload_throws :
  step (TYPING_STATUS Scenario.alice None) Scenario.matched
  = (Scenario.matched, [UncaughtTypeError]) ∧
  step (TYPING_STATUS Scenario.alice (Some true)) Scenario.matched
  = (Scenario.matched, [Emit Scenario.bob (OPPONENT_TYPING true)]) ∧
  step (TYPING_STATUS Scenario.alice None) Scenario.waiting = (Scenario.waiting, []).
Proof. repeat split; vm_compute; reflexivity. Qed.

(** ** Ending a session *)

Lemma inRoom_after_queue_delete st s p roomId ref room :
  inRoom st s roomId ref room →
  inRoom (with_waitingPlayers (JsMap.delete p) st) s roomId ref room.
Proof. by intros [H1 H2]. Qed.

(** X7: a disconnect of a socket in a room stops the registered room countdown
    first, then tells the other player that the opponent disconnected,
    with the leaver's type, and that it may guess; it marks the room
    inactive, leaves it registered and schedules its removal after 5000 ms.
    The leaver is also taken out of the queue. *)
Theorem disconnect_ends_the_session st s roomId ref room :
  inRoom st s roomId ref room →
  let r := step (DISCONNECT s) st in
  r.2 = match roomTimers st !! roomId with Some h => [ClearTimer h] | None => [] end ++
        match findOther s room with
        | Some otherPlayer =>
            if truthy otherPlayer
            then [Emit otherPlayer
                    (OPPONENT_DISCONNECTED "Your opponent has disconnected." (playerTypes room !! s));
                  Emit otherPlayer (YOUR_TURN false (Some true) None)]
            else []
        | None => []
        end ++
        [SetTimeout 5000 (DeleteRoomOfSocket s)] ∧
  getRoom r.1 roomId = Some (ref, set_isActive false room) ∧
  roomTimers r.1 !! roomId = None ∧
  (∀ h, roomTimers st !! roomId = Some h → intervals r.1 !! h = None) ∧
  timeouts r.1 = timeouts st ++ [(5000, DeleteRoomOfSocket s)] ∧
  JsMap.has s (waitingPlayers r.1) = false ∧
  turnTimers r.1 = turnTimers st.
Proof.
  intros Hin r. subst r. unfold step, handleDisconnect. rewrite seq_modify.
  rewrite (ifInRoom_found _ _ _ _ _ _ _ (inRoom_after_queue_delete _ _ s _ _ _ Hin)).
  set (st0 := with_waitingPlayers (JsMap.delete s) st).
  assert (roomTimers st0 = roomTimers st) as Hrt by done.
  set (notify := match findOther s room with
                 | Some otherPlayer =>
                     when (truthy otherPlayer)
                       (emit otherPlayer
                          (OPPONENT_DISCONNECTED "Your opponent has disconnected."
                             (playerTypes room !! s)) >>
                        emit otherPlayer (YOUR_TURN false (Some true) None))
                 | None => skip
                 end).
  assert (∀ st1, notify st1 =
            (st1, match findOther s room with
                  | Some otherPlayer =>
                      if truthy otherPlayer
                      then [Emit otherPlayer
                              (OPPONENT_DISCONNECTED "Your opponent has disconnected."
                                 (playerTypes room !! s));
                            Emit otherPlayer (YOUR_TURN false (Some true) None)]
                      else []
                  | None => []
                  end)) as Hnotify.
  { intros st1. subst notify. destruct (findOther s room) as [o|]; [|done].
    by destruct (truthy o). }
  rewrite seq_effects, seq_state, stopRoomTimer_effects, stopRoomTimer_state, Hrt.
  rewrite seq_effects, seq_state, !Hnotify. cbn [fst snd].
  unfold updateRoom. rewrite seq_modify. unfold setTimeout. cbn [fst snd].
  destruct Hin as [_ Hget].
  pose proof (getRoom_rooms _ _ _ _ Hget) as Hr.
  pose proof (getRoom_heap _ _ _ _ Hget) as Hh.
  split; [done|].
  destruct (roomTimers st !! roomId) as [h|] eqn:Ht; cbn.
  - split. { unfold getRoom. cbn. by rewrite Hr, lookup_alter_eq, Hh. }
    split; [apply lookup_delete_eq|]. split.
    { intros h' [= <-]. apply lookup_delete_eq. }
    split; [done|]. split; [apply JsMap_has_delete | done].
  - split. { unfold getRoom. cbn. by rewrite Hr, lookup_alter_eq, Hh. }
    split; [done|]. split; [done|].
    split; [done|]. split; [apply JsMap_has_delete | done].
Qed.

Lemma disconnect_ends_the_session_witness :
  let r := step (DISCONNECT Scenario.alice) Scenario.matched in
  inRoom Scenario.matched Scenario.alice "r1" 0%nat Scenario.room1 ∧
  getRoom r.1 "r1" = Some (0%nat, set_isActive false Scenario.room1) ∧
  roomTimers r.1 !! "r1" = None ∧
  timeouts r.1 = timeouts Scenario.matched ++ [(5000, DeleteRoomOfSocket Scenario.alice)].
Proof.
  intros r.
  assert (inRoom Scenario.matched Scenario.alice "r1" 0%nat Scenario.room1) as Hin
    by (split; vm_compute; reflexivity).
  destruct (disconnect_ends_the_session _ _ _ _ _ Hin) as (_ & Hg & Ht & _ & Hto & _).
  split; [exact Hin|]. split; [exact Hg|]. split; [exact Ht | exact Hto].
Defined.

(** X8: RETIRE by a socket in a room, in a well-formed state: the other player
    is told that the opponent retired, with the retiring player's type,
    and that it may guess; the room is marked inactive, stays registered,
    and its removal is scheduled after 5000 ms.  The handler does not look
    at [isActive]: retiring again before the removal notifies the opponent
    again and schedules a further removal. *)
Theorem retire_ends_the_session st s roomId ref room :
  wf_state st →
  inRoom st s roomId ref room →
  let r := step (RETIRE s) st in
  r.2 = match findOther s room with
        | Some otherPlayer =>
            if truthy otherPlayer
            then [Emit otherPlayer
                    (OPPONENT_DISCONNECTED "Your opponent has retired from the game."
                       (playerTypes room !! s));
                  Emit otherPlayer (YOUR_TURN false (Some true) None)]
            else []
        | None => []
        end ++
        [SetTimeout 5000 (DeleteRoomOfSocket s)] ∧
  getRoom r.1 roomId = Some (ref, set_isActive false room) ∧
  inRoom r.1 s roomId ref (set_isActive false room) ∧
  timeouts r.1 = timeouts st ++ [(5000, DeleteRoomOfSocket s)] ∧
  (step (RETIRE s) r.1).2 = r.2 ∧
  timeouts (step (RETIRE s) r.1).1
    = timeouts st ++ [(5000, DeleteRoomOfSocket s); (5000, DeleteRoomOfSocket s)].
Proof.
  intros Hwf Hin r.
  assert (∀ st0 room0,
            inRoom st0 s roomId ref room0 → roomTimer room0 = None →
            players room0 = players room → playerTypes room0 = playerTypes room →
            step (RETIRE s) st0 =
            (with_timeouts (λ l, l ++ [(5000, DeleteRoomOfSocket s)])
               (with_heap (alter (set_isActive false) ref) st0),
             match findOther s room with
             | Some otherPlayer =>
                 if truthy otherPlayer
                 then [Emit otherPlayer
                         (OPPONENT_DISCONNECTED "Your opponent has retired from the game."
                            (playerTypes room !! s));
                       Emit otherPlayer (YOUR_TURN false (Some true) None)]
                 else []
             | None => []
             end ++ [SetTimeout 5000 (DeleteRoomOfSocket s)])) as Hstep.
  { intros st0 room0 Hin0 Hrt Hpl Hpt. unfold step, on_RETIRE.
    rewrite (ifInRoom_found _ _ _ _ _ _ _ Hin0). rewrite Hrt, Hpt.
    unfold findOther. rewrite Hpl. fold (findOther s room).
    destruct (findOther s room) as [o|]; [destruct (truthy o)|];
      cbv [seq when emit skip updateRoom modify setTimeout]; reflexivity. }
  destruct Hin as [Hs Hget].
  pose proof (getRoom_rooms _ _ _ _ Hget) as Hr.
  pose proof (getRoom_heap _ _ _ _ Hget) as Hh.
  pose proof (wf_roomTimer_undefined _ Hwf _ _ Hh) as Hrt.
  assert (r = step (RETIRE s) st) as Hr0 by done.
  rewrite (Hstep st room (conj Hs Hget) Hrt eq_refl eq_refl) in Hr0.
  assert (inRoom r.1 s roomId ref (set_isActive false room)) as Hin1.
  { rewrite Hr0. split; [done|]. unfold getRoom. cbn. by rewrite Hr, lookup_alter_eq, Hh. }
  split; [by rewrite Hr0|]. split; [apply Hin1|]. split; [done|].
  split; [by rewrite Hr0|].
  rewrite (Hstep r.1 (set_isActive false room) Hin1 Hrt eq_refl eq_refl).
  split; [by rewrite Hr0|]. rewrite Hr0. cbn. by rewrite <- app_assoc.
Qed.

Lemma retire_ends_the_session_witness :
  let r := step (RETIRE Scenario.alice) Scenario.matched in
  wf_state Scenario.matched ∧
  inRoom Scenario.matched Scenario.alice "r1" 0%nat Scenario.room1 ∧
  getRoom r.1 "r1" = Some (0%nat, set_isActive false Scenario.room1) ∧
  timeouts (step (RETIRE Scenario.alice) r.1).1
    = timeouts Scenario.matched ++
      [(5000, DeleteRoomOfSocket Scenario.alice); (5000, DeleteRoomOfSocket Scenario.alice)].
Proof.
  intros r.
  assert (wf_state Scenario.matched) as Hwf.
  { repeat apply preserves_run. apply wf_initial. }
  assert (inRoom Scenario.matched Scenario.alice "r1" 0%nat Scenario.room1) as Hin
    by (split; vm_compute; reflexivity).
  destruct (retire_ends_the_session _ _ _ _ _ Hwf Hin) as (_ & Hg & _ & _ & _ & Hto).
  split; [exact Hwf|]. split; [exact Hin|]. split; [exact Hg | exact Hto].
Defined.

(** ** The room countdown *)

Lemma forEach_emit (l : list Pid) (f : Pid → OutEvent) st :
  forEach l (λ p, emit p (f p)) st = (st, map (λ p, Emit p (f p)) l).
Proof.
  unfold forEach, forEachI. generalize 0%nat.
  induction l as [|p l IH]; intros i; simpl; [done|].
  rewrite seq_emit. by rewrite IH.
Qed.

Lemma seq_effects_state_pair (c1 c2 : Cmd) st :
  (c1 >> c2) st = ((c2 (c1 st).1).1, (c1 st).2 ++ (c2 (c1 st).1).2).
Proof. unfold seq. destruct (c1 st) as [st1 e1]. simpl. by destruct (c2 st1). Qed.

Lemma insert_after_alter {V} (f : V → V) (h : nat) (x : V) (m : gmap nat V) :
  <[h := x]> (alter f h m) = <[h := x]> m.
Proof.
  apply map_eq. intros i. destruct (decide (h = i)) as [->|Hne].
  - by rewrite !lookup_insert_eq.
  - by rewrite !lookup_insert_ne, lookup_alter_ne.
Qed.

Lemma alter_as_insert {V} (f : V → V) (h : nat) (x : V) (m : gmap nat V) :
  m !! h = Some x → alter f h m = <[h := f x]> m.
Proof.
  intros Hx. apply map_eq. intros i. destruct (decide (h = i)) as [->|Hne].
  - by rewrite lookup_alter_eq, lookup_insert_eq, Hx.
  - by rewrite lookup_alter_ne, lookup_insert_ne.
Qed.

Lemma with_intervals_insert_twice h x y st :
  with_intervals (insert h x) (with_intervals (insert h y) st) = with_intervals (insert h x) st.
Proof. unfold with_intervals. cbn. by rewrite insert_insert_eq. Qed.

Lemma with_intervals_insert_id h x st :
  intervals st !! h = Some x → with_intervals (insert h x) st = st.
Proof. intros H. unfold with_intervals. rewrite insert_id by done. apply State_eta. Qed.

Lemma flat_map_countdown {A} (g : Z → list A) (t : Z) (n : nat) :
  flat_map (λ i : nat, g (t - Z.of_nat i)) (List.seq 1 (S n)) =
  g (t - 1) ++ flat_map (λ i : nat, g (t - 1 - Z.of_nat i)) (List.seq 1 n).
Proof.
  cbn [List.seq flat_map]. f_equal. rewrite <- seq_shift, flat_map_concat_map, map_map.
  rewrite flat_map_concat_map. f_equal. apply map_ext. intros i. f_equal. lia.
Qed.

(** One run of the countdown of an active room with more than a second
    left. *)
Lemma room_tick_running st h roomId ref timeLeft room :
  intervals st !! h = Some (RoomInterval roomId ref timeLeft) →
  heap st !! ref = Some room → isActive room = true → 1 < timeLeft →
  step (INTERVAL h) st =
  (with_intervals (insert h (RoomInterval roomId ref (timeLeft - 1))) st,
   map (λ p, Emit p (TIME_UPDATE (timeLeft - 1) (timeLeft - 1 <=? 30))) (players room)).
Proof.
  intros Hi Hh Ha Hlt. unfold step, intervalTick. rewrite Hi.
  unfold roomCountdownTick. rewrite Hh, Ha. cbn [negb].
  rewrite seq_modify. rewrite seq_effects_state_pair, forEach_emit. cbn [fst snd].
  replace (timeLeft - 1 <=? 0) with false by (symmetry; apply Z.leb_gt; lia).
  cbn [when skip]. rewrite app_nil_r. f_equal.
  unfold with_intervals. by rewrite (alter_as_insert _ _ _ _ Hi).
Qed.

(** X9: while the room stays active, [n] runs of its countdown, with more than
    [n] seconds left, send every player of the room the [n] successive
    values of the time left, flagged as low from 30 seconds down, and
    change nothing but the time left. *)
Theorem room_countdown_runs st h roomId ref timeLeft room (n : nat) :
  intervals st !! h = Some (RoomInterval roomId ref timeLeft) →
  heap st !! ref = Some room → isActive room = true →
  Z.of_nat n < timeLeft →
  run (replicate n (INTERVAL h)) st =
  (with_intervals (insert h (RoomInterval roomId ref (timeLeft - Z.of_nat n))) st,
   flat_map (λ i : nat,
               map (λ p, Emit p (TIME_UPDATE (timeLeft - Z.of_nat i) (timeLeft - Z.of_nat i <=? 30)))
                   (players room))
            (List.seq 1 n)).
Proof.
  revert st timeLeft. induction n as [|n IH]; intros st timeLeft Hi Hh Ha Hlt.
  - cbn. rewrite Z.sub_0_r. by rewrite with_intervals_insert_id.
  - cbn [replicate run].
    rewrite (flat_map_countdown
               (λ t, map (λ p, Emit p (TIME_UPDATE t (t <=? 30))) (players room))).
    unfold seq at 1. rewrite (room_tick_running st h roomId ref timeLeft room) by (done || lia).
    rewrite (IH _ (timeLeft - 1)); [| by cbn; rewrite lookup_insert_eq | done | done | lia].
    rewrite with_intervals_insert_twice.
    by replace (timeLeft - 1 - Z.of_nat n) with (timeLeft - Z.of_nat (S n)) by lia.
Qed.

Lemma room_countdown_runs_witness :
  run (replicate 119 (INTERVAL 0)) Scenario.matched =
  (with_intervals (insert 0%nat (RoomInterval "r1" 0%nat (120 - Z.of_nat 119))) Scenario.matched,
   flat_map (λ i : nat,
               map (λ p, Emit p (TIME_UPDATE (120 - Z.of_nat i) (120 - Z.of_nat i <=? 30)))
                   (players Scenario.room1))
            (List.seq 1 119)).
Proof.
  apply (room_countdown_runs Scenario.matched 0%nat "r1" 0%nat 120 Scenario.room1 119).
  - vm_compute; reflexivity.
  - vm_compute; reflexivity.
  - reflexivity.
  - lia.
Defined.

(** X10: the last run of the countdown of an active room: every player is sent
    the last update and then [ROOM_TIME_UP]; the countdown ends and is
    unregistered; the room is marked inactive, stays registered, and its
    removal is scheduled after 5000 ms. *)
Theorem room_countdown_expiry st h roomId ref timeLeft room :
  intervals st !! h = Some (RoomInterval roomId ref timeLeft) →
  heap st !! ref = Some room → isActive room = true → timeLeft ≤ 1 →
  let r := step (INTERVAL h) st in
  r.2 = map (λ p, Emit p (TIME_UPDATE (timeLeft - 1) true)) (players room) ++
        [ClearTimer h] ++
        map (λ p, Emit p (ROOM_TIME_UP "Time's up! Make your guess about your opponent."))
            (players room) ++
        [SetTimeout 5000 (DeleteRoom roomId)] ∧
  intervals r.1 !! h = None ∧
  roomTimers r.1 !! roomId = None ∧
  heap r.1 !! ref = Some (set_isActive false room) ∧
  rooms r.1 = rooms st ∧
  timeouts r.1 = timeouts st ++ [(5000, DeleteRoom roomId)] ∧
  turnTimers r.1 = turnTimers st.
Proof.
  intros Hi Hh Ha Hle r. subst r. unfold step, intervalTick. rewrite Hi.
  unfold roomCountdownTick. rewrite Hh, Ha. cbn [negb].
  replace (timeLeft - 1 <=? 0) with true by (symmetry; apply Z.leb_le; lia).
  replace (timeLeft - 1 <=? 30) with true by (symmetry; apply Z.leb_le; lia).
  cbn [when]. rewrite seq_modify, seq_effects_state_pair, forEach_emit. cbn [fst snd].
  rewrite seq_clearTimer, seq_modify, seq_effects_state_pair, forEach_emit. cbn [fst snd].
  unfold updateRoom. rewrite seq_modify. cbn.
  split; [done|]. split; [apply lookup_delete_eq|]. split; [apply lookup_delete_eq|].
  split; [by rewrite lookup_alter_eq, Hh | done].
Qed.

Lemma room_countdown_expiry_witness :
  let st := (run (replicate 119 (INTERVAL 0)) Scenario.matched).1 in
  let r := step (INTERVAL 0) st in
  intervals st !! 0%nat = Some (RoomInterval "r1" 0%nat 1) ∧
  intervals r.1 !! 0%nat = None ∧
  heap r.1 !! 0%nat = Some (set_isActive false Scenario.room1) ∧
  timeouts r.1 = timeouts st ++ [(5000, DeleteRoom "r1")].
Proof.
  intros st r.
  assert (intervals st !! 0%nat = Some (RoomInterval "r1" 0%nat 1)) as Hi
    by (vm_compute; reflexivity).
  assert (heap st !! 0%nat = Some Scenario.room1) as Hh by (vm_compute; reflexivity).
  destruct (room_countdown_expiry st 0%nat "r1" 0%nat 1 Scenario.room1 Hi Hh eq_refl)
    as (_ & H1 & _ & H2 & _ & H3 & _); [lia|].
  split; [exact Hi|]. split; [exact H1|]. split; [exact H2 | exact H3].
Defined.

(** X11: a run of the countdown of a room that is no longer active ends the
    countdown and unregisters it; nothing is emitted, and the room and the
    pending removals are untouched. *)
Theorem room_countdown_stops_when_inactive st h roomId ref timeLeft room :
  intervals st !! h = Some (RoomInterval roomId ref timeLeft) →
  heap st !! ref = Some room → isActive room = false →
  step (INTERVAL h) st =
  (with_roomTimers (delete roomId) (with_intervals (delete h) st), [ClearTimer h]).
Proof.
  intros Hi Hh Ha. unfold step, intervalTick. rewrite Hi.
  unfold roomCountdownTick. rewrite Hh, Ha. cbn [negb].
  by rewrite seq_clearTimer.
Qed.

Lemma room_countdown_stops_when_inactive_witness :
  let st := (step (RETIRE Scenario.alice) Scenario.matched).1 in
  isActive (set_isActive false Scenario.room1) = false ∧
  step (INTERVAL 0) st =
  (with_roomTimers (delete "r1") (with_intervals (delete 0%nat) st), [ClearTimer 0%nat]).
Proof.
  intros st. split; [reflexivity|].
  apply (room_countdown_stops_when_inactive st 0%nat "r1" 0%nat 120
           (set_isActive false Scenario.room1)).
  - vm_compute; reflexivity.
  - vm_compute; reflexivity.
  - reflexivity.
Defined.

(** ** The turn countdown *)

(** X12: [n] runs of a turn countdown with more than [n] seconds left send its
    player the [n] successive values of the time left, flagged as low from
    5 seconds down, and change nothing but the time left; the room is not
    consulted. *)
Theorem turn_countdown_runs st h roomId playerId timeLeft (n : nat) :
  turnTimerLive h roomId playerId timeLeft st →
  Z.of_nat n < timeLeft →
  run (replicate n (INTERVAL h)) st =
  (with_intervals (insert h (TurnInterval roomId playerId (timeLeft - Z.of_nat n))) st,
   map (λ i : nat,
          Emit playerId (TURN_TIME_UPDATE (timeLeft - Z.of_nat i)
                                          (timeLeft - Z.of_nat i <=? 5)))
       (List.seq 1 n)).
Proof.
  revert st timeLeft. induction n as [|n IH]; intros st timeLeft Hl Hlt.
  - cbn. rewrite Z.sub_0_r. by rewrite with_intervals_insert_id.
  - cbn [replicate run]. unfold seq at 1.
    rewrite (turn_tick_running h roomId playerId timeLeft st Hl) by lia.
    assert (turnTimerLive h roomId playerId (timeLeft - 1)
              (with_intervals (alter (set_timeLeft (timeLeft - 1)) h) st)) as Hl1.
    { unfold turnTimerLive in *. cbn. by rewrite lookup_alter_eq, Hl. }
    rewrite (IH _ (timeLeft - 1) Hl1) by lia.
    f_equal.
    + unfold with_intervals. cbn. rewrite insert_after_alter.
      by replace (timeLeft - 1 - Z.of_nat n) with (timeLeft - Z.of_nat (S n)) by lia.
    + cbn [List.seq map app]. f_equal. rewrite <- (seq_shift n 1), map_map.
      apply map_ext. intros i. by replace (timeLeft - 1 - Z.of_nat i)
                                  with (timeLeft - Z.of_nat (S i)) by lia.
Qed.

Lemma turn_countdown_runs_witness :
  turnTimerLive 1 "r1" Scenario.bob 900 Scenario.abandoned ∧
  run (replicate 899 (INTERVAL 1)) Scenario.abandoned =
  (with_intervals (insert 1%nat (TurnInterval "r1" Scenario.bob (900 - Z.of_nat 899)))
     Scenario.abandoned,
   map (λ i : nat,
          Emit Scenario.bob (TURN_TIME_UPDATE (900 - Z.of_nat i) (900 - Z.of_nat i <=? 5)))
       (List.seq 1 899)).
Proof.
  assert (turnTimerLive 1 "r1" Scenario.bob 900 Scenario.abandoned) as Hl
    by (vm_compute; reflexivity).
  split; [exact Hl|].
  apply (turn_countdown_runs Scenario.abandoned 1%nat "r1" Scenario.bob 900 899 Hl). lia.
Defined.

(** X13: the last run of a turn countdown whose room is still registered: after
    the update and [TURN_TIME_UP], the registered room countdown is
    stopped, the player is told it lost its turn and the other player that
    the opponent forfeited.  The room is left as it is, active or not, and
    registered; no removal is scheduled and no turn countdown is started. *)
Theorem turn_expiry_forfeits_without_ending_session st h roomId playerId timeLeft ref room :
  turnTimerLive h roomId playerId timeLeft st →
  timeLeft ≤ 1 →
  getRoom st roomId = Some (ref, room) →
  let r := step (INTERVAL h) st in
  r.2 = [Emit playerId (TURN_TIME_UPDATE (timeLeft - 1) true);
         ClearTimer h;
         Emit playerId TURN_TIME_UP] ++
        match roomTimers st !! roomId with Some h' => [ClearTimer h'] | None => [] end ++
        [Emit playerId (FORFEIT_RESULT "You've lost your turn due to time running out.")] ++
        match findOther playerId room with
        | Some otherPlayer => if truthy otherPlayer then [Emit otherPlayer OPPONENT_FORFEIT] else []
        | None => []
        end ∧
  getRoom r.1 roomId = Some (ref, room) ∧
  timeouts r.1 = timeouts st ∧
  roomTimers r.1 !! roomId = None ∧
  turnTimers r.1 = delete playerId (turnTimers st) ∧
  nextHandle r.1 = nextHandle st.
Proof.
  intros Hl Hle Hget r. subst r. unfold step, intervalTick. rewrite Hl.
  unfold turnCountdownTick. rewrite seq_modify, seq_emit.
  replace (timeLeft - 1 <=? 0) with true by (symmetry; apply Z.leb_le; lia).
  replace (timeLeft - 1 <=? 5) with true by (symmetry; apply Z.leb_le; lia).
  cbn [when]. rewrite seq_clearTimer, seq_modify, seq_emit. cbn [fst snd].
  set (st1 := with_turnTimers _ _).
  assert (getRoom st1 roomId = Some (ref, room)) as Hget1 by done.
  unfold handleForfeit. rewrite Hget1.
  rewrite seq_effects_state_pair, stopRoomTimer_effects, stopRoomTimer_state.
  rewrite seq_emit. cbn [fst snd].
  assert (roomTimers st1 = roomTimers st) as -> by done.
  assert (∀ st2, (match findOther playerId room with
                  | Some otherPlayer => when (truthy otherPlayer) (emit otherPlayer OPPONENT_FORFEIT)
                  | None => skip
                  end) st2 =
                 (st2, match findOther playerId room with
                       | Some otherPlayer =>
                           if truthy otherPlayer then [Emit otherPlayer OPPONENT_FORFEIT] else []
                       | None => []
                       end)) as Hother.
  { intros st2. destruct (findOther playerId room) as [o|]; [|done]. by destruct (truthy o). }
  rewrite !Hother. cbn [fst snd]. split; [done|].
  destruct (roomTimers st !! roomId) as [h'|] eqn:Ht; cbn.
  - repeat split; try done. apply lookup_delete_eq.
  - repeat split; done.
Qed.

Lemma turn_expiry_forfeits_without_ending_session_witness :
  let st := (run (SEND_MESSAGE Scenario.alice (Some "hi") :: MESSAGE_SETTLED 1 (DbOk ()) "t0"
                  :: replicate 899 (INTERVAL 1)) Scenario.matched).1 in
  let r := step (INTERVAL 1) st in
  turnTimerLive 1 "r1" Scenario.bob 1 st ∧
  r.2 = [Emit Scenario.bob (TURN_TIME_UPDATE (1 - 1) true);
         ClearTimer 1%nat;
         Emit Scenario.bob TURN_TIME_UP;
         ClearTimer 0%nat;
         Emit Scenario.bob (FORFEIT_RESULT "You've lost your turn due to time running out.");
         Emit Scenario.alice OPPONENT_FORFEIT] ∧
  roomActive r.1 "r1" = Some true ∧
  timeouts r.1 = [].
Proof.
  intros st r.
  assert (turnTimerLive 1 "r1" Scenario.bob 1 st) as Hl by (vm_compute; reflexivity).
  assert (getRoom st "r1" = Some (0%nat, push_message {| text := "hi"; timestamp := "t0" |}
                                           Scenario.room1)) as Hg
    by (vm_compute; reflexivity).
  destruct (turn_expiry_forfeits_without_ending_session st 1%nat "r1" Scenario.bob 1 _ _ Hl
              ltac:(lia) Hg) as (He & Hg' & Hto & _).
  fold r in He, Hg', Hto.
  split; [exact Hl|]. split.
  - rewrite He. vm_compute. reflexivity.
  - split; [unfold roomActive; by rewrite Hg'|]. rewrite Hto. vm_compute. reflexivity.
Defined.

(** ** The scheduled removal of a room *)

(** X14: the removal scheduled by the room countdown unregisters the room and
    does nothing else: nothing is emitted, no countdown is stopped or
    unregistered, the room object is untouched, and a socket of that room
    is from then on in no registered room. *)
Theorem cleanup_closes_the_room st k d roomId s :
  timeouts st !! k = Some (d, DeleteRoom roomId) →
  socketRoomId st !! s = Some roomId →
  let r := step (TIMEOUT k) st in
  r.2 = [] ∧
  rooms r.1 = delete roomId (rooms st) ∧
  socketRoom r.1 s = None ∧
  timeouts r.1 = delete k (timeouts st) ∧
  heap r.1 = heap st ∧ intervals r.1 = intervals st ∧
  roomTimers r.1 = roomTimers st ∧ turnTimers r.1 = turnTimers st ∧
  socketRoomId r.1 = socketRoomId st ∧ waitingPlayers r.1 = waitingPlayers st.
Proof.
  intros Hk Hs r. subst r. unfold step, timeoutFire. rewrite Hk. cbn.
  repeat split; try done.
  unfold socketRoom. cbn. rewrite Hs, lookup_delete_eq.
  by rewrite andb_false_r.
Qed.

Lemma cleanup_closes_the_room_witness :
  let st := (run (replicate 120 (INTERVAL 0)) Scenario.matched).1 in
  let r := step (TIMEOUT 0) st in
  timeouts st !! 0%nat = Some (5000, DeleteRoom "r1") ∧
  socketRoom st Scenario.alice = Some "r1" ∧
  socketRoom r.1 Scenario.alice = None ∧
  r.2 = [].
Proof.
  intros st r.
  assert (timeouts st !! 0%nat = Some (5000, DeleteRoom "r1")) as Hk
    by (vm_compute; reflexivity).
  assert (socketRoomId st !! Scenario.alice = Some "r1") as Hs by (vm_compute; reflexivity).
  destruct (cleanup_closes_the_room st 0%nat 5000 "r1" Scenario.alice Hk Hs)
    as (He & _ & Hn & _).
  split; [exact Hk|]. split; [vm_compute; reflexivity|]. split; [exact Hn | exact He].
Defined.

(** X15: the removal scheduled by RETIRE or by a disconnection reads the
    socket's room identifier when it runs, not when it was scheduled: it
    unregisters the room the socket is assigned to at that time, which is
    another room when the socket has been matched again in between.  Every
    socket assigned to that room is then in no registered room; nothing is
    emitted. *)
Theorem cleanup_of_socket_follows_reassignment st k d s roomId p :
  timeouts st !! k = Some (d, DeleteRoomOfSocket s) →
  socketRoomId st !! s = Some roomId →
  socketRoomId st !! p = Some roomId →
  let r := step (TIMEOUT k) st in
  r.2 = [] ∧ rooms r.1 = delete roomId (rooms st) ∧ socketRoom r.1 p = None.
Proof.
  intros Hk Hs Hp r. subst r. unfold step, timeoutFire. rewrite Hk. unfold runTimeout.
  cbn [socketRoomId with_timeouts]. rewrite Hs. cbn.
  split; [done|]. split; [done|].
  unfold socketRoom. cbn. rewrite Hp, lookup_delete_eq. by rewrite andb_false_r.
Qed.

Lemma cleanup_of_socket_follows_reassignment_witness :
  let st := (run [DISCONNECT Scenario.bob; RETIRE Scenario.alice; TIMEOUT 0;
                  JOIN_MATCHMAKING Scenario.alice true "r2";
                  JOIN_MATCHMAKING "C" false "r2";
                  CONVERSATION_SETTLED 1 Scenario.conv true 7] Scenario.matched).1 in
  timeouts st !! 0%nat = Some (5000, DeleteRoomOfSocket Scenario.alice) ∧
  socketRoom st "C" = Some "r2" ∧
  socketRoom (step (TIMEOUT 0) st).1 "C" = None.
Proof.
  intros st.
  assert (timeouts st !! 0%nat = Some (5000, DeleteRoomOfSocket Scenario.alice)) as Hk
    by (vm_compute; reflexivity).
  assert (socketRoomId st !! Scenario.alice = Some "r2") as Hs by (vm_compute; reflexivity).
  assert (socketRoomId st !! "C" = Some "r2") as Hp by (vm_compute; reflexivity).
  split; [exact Hk|]. split; [vm_compute; reflexivity|].
  exact (proj2 (proj2 (cleanup_of_socket_follows_reassignment st 0%nat 5000 Scenario.alice
                         "r2" "C" Hk Hs Hp))).
Defined.

(** ** The relay of a message *)

(** X16: a stored message, settled while its sender is still in the room: the
    message is appended to the history of the room, and a fresh countdown
    of 900 seconds is registered for the recipient.  A countdown
    registered for the sender keeps running: sending a message does not
    stop the sender's own turn countdown. *)
Theorem stored_message_starts_recipient_countdown
    st call s ref otherPlayer data_text now roomId room :
  wf_state st →
  pending st !! call = Some (AwaitMessage s ref otherPlayer data_text) →
  inRoom st s roomId ref room →
  s ≠ otherPlayer →
  let r := step (MESSAGE_SETTLED call (DbOk ()) now) st in
  roomMessages r.1 roomId = Some (messages room ++ [{| text := data_text; timestamp := now |}]) ∧
  turnTimers r.1 !! otherPlayer = Some (nextHandle st) ∧
  turnTimerLive (nextHandle st) roomId otherPlayer 900 r.1 ∧
  (∀ h, turnTimers st !! otherPlayer = Some h → intervals r.1 !! h = None) ∧
  (∀ h c, turnTimers st !! s = Some h → intervals st !! h = Some c →
          turnTimers r.1 !! s = Some h ∧ intervals r.1 !! h = Some c).
Proof.
  intros Hwf Hp [Hsr Hget] Hne r. subst r. unfold step.
  rewrite (settle_pending _ _ _ _ _ Hp eq_refl).
  unfold resume_SEND_MESSAGE, updateRoom. rewrite seq_modify, !seq_emit. cbn [fst].
  cbn [socketRoomId with_heap with_pending].
  assert (socketRoomId st !! s = Some roomId) as Hs.
  { unfold socketRoom in Hsr. destruct (socketRoomId st !! s) as [x|]; [|done].
    destruct (truthy x && _); congruence. }
  rewrite Hs. unfold getRoom in Hget.
  destruct (rooms st !! roomId) as [ref'|] eqn:Hr; [|done].
  destruct (heap st !! ref') as [room'|] eqn:Hh; [|done].
  injection Hget as -> ->.
  unfold startTurnCountdown. cbn [rooms with_heap with_pending]. rewrite Hr.
  cbn [turnTimers with_heap with_pending].
  assert (∀ c0 : Cmd, (c0 >> setInterval (TurnInterval roomId otherPlayer (TURN_TIME_LIMIT / 1000))
                               (λ timer, with_turnTimers (insert otherPlayer timer)))
                      (with_heap (alter (push_message {| text := data_text; timestamp := now |}) ref)
                                 (with_pending (delete call) st)) =
                      (let st1 := (c0 (with_heap (alter (push_message {| text := data_text; timestamp := now |}) ref)
                                                 (with_pending (delete call) st))).1 in
                       (with_turnTimers (insert otherPlayer (nextHandle st1))
                          (with_nextHandle S
                             (with_intervals (insert (nextHandle st1)
                                (TurnInterval roomId otherPlayer (TURN_TIME_LIMIT / 1000))) st1)),
                        (c0 (with_heap (alter (push_message {| text := data_text; timestamp := now |}) ref)
                                       (with_pending (delete call) st))).2
                        ++ [SetInterval (nextHandle st1)
                              (TurnInterval roomId otherPlayer (TURN_TIME_LIMIT / 1000))]))) as Hseq.
  { intros c0. unfold seq, setInterval. by destruct (c0 _). }
  rewrite Hseq. clear Hseq. cbv zeta.
  assert (TURN_TIME_LIMIT / 1000 = 900) as -> by reflexivity.
  destruct (turnTimers st !! otherPlayer) as [h0|] eqn:Ht.
  - cbn [clearTimer fst snd nextHandle with_intervals with_heap with_pending].
    unfold roomMessages, getRoom, turnTimerLive. cbn. rewrite Hr, lookup_alter_eq, Hh.
    rewrite !lookup_insert_eq.
    destruct (wf_turnTimers _ Hwf _ _ Ht) as [Hlt0 Hc0].
    split_and!; try done.
    + intros h [= <-]. by rewrite lookup_insert_ne, lookup_delete_eq by lia.
    + intros h c Hth Hic. destruct (wf_turnTimers _ Hwf _ _ Hth) as [Hlt Hc].
      split; [by rewrite lookup_insert_ne|].
      rewrite lookup_insert_ne by lia.
      rewrite lookup_delete_ne; [done|].
      intros <-. pose proof (Hc _ Hic) as H1. pose proof (Hc0 _ Hic) as H2.
      destruct c as [|? p ?]; [done|]. simpl in H1, H2. congruence.
  - cbn [skip fst snd nextHandle with_intervals with_heap with_pending].
    unfold roomMessages, getRoom, turnTimerLive. cbn. rewrite Hr, lookup_alter_eq, Hh.
    rewrite !lookup_insert_eq.
    split_and!; try done.
    intros h c Hth Hic. destruct (wf_turnTimers _ Hwf _ _ Hth) as [Hlt Hc].
    split; [by rewrite lookup_insert_ne|].
    by rewrite lookup_insert_ne by lia.
Qed.

Lemma stored_message_starts_recipient_countdown_witness :
  let st := (run [SEND_MESSAGE Scenario.alice (Some "hi"); MESSAGE_SETTLED 1 (DbOk ()) "t0";
                  SEND_MESSAGE Scenario.bob (Some "yo")] Scenario.matched).1 in
  let r := step (MESSAGE_SETTLED 2 (DbOk ()) "t1") st in
  turnTimers st !! Scenario.bob = Some 1%nat ∧
  turnTimers r.1 !! Scenario.alice = Some (nextHandle st) ∧
  turnTimers r.1 !! Scenario.bob = Some 1%nat ∧
  intervals r.1 !! 1%nat = Some (TurnInterval "r1" Scenario.bob 900).
Proof.
  intros st r.
  assert (wf_state st) as Hwf.
  { repeat apply preserves_run. apply wf_initial. }
  assert (pending st !! 2%nat = Some (AwaitMessage Scenario.bob 0%nat Scenario.alice "yo")) as Hp
    by (vm_compute; reflexivity).
  assert (inRoom st Scenario.bob "r1" 0%nat
            (push_message {| text := "hi"; timestamp := "t0" |} Scenario.room1)) as Hin
    by (split; vm_compute; reflexivity).
  assert (turnTimers st !! Scenario.bob = Some 1%nat) as Ht by (vm_compute; reflexivity).
  assert (intervals st !! 1%nat = Some (TurnInterval "r1" Scenario.bob 900)) as Hi
    by (vm_compute; reflexivity).
  destruct (stored_message_starts_recipient_countdown st 2%nat Scenario.bob 0%nat Scenario.alice
              "yo" "t1" "r1" _ Hwf Hp Hin ltac:(done)) as (_ & H1 & _ & _ & H2).
  destruct (H2 _ _ Ht Hi) as [H3 H4].
  split; [exact Ht|]. split; [exact H1|]. split; [exact H3 | exact H4].
Defined.

(** X17: a stored message settled after the room was unregistered, or after
    [roomId] of the sender was never set: both players are still sent the
    message and the recipient [YOUR_TURN], and the message is appended to
    the room object the handler holds, but no turn countdown is started. *)
Theorem message_settled_after_room_removal st call s ref otherPlayer data_text now :
  pending st !! call = Some (AwaitMessage s ref otherPlayer data_text) →
  (∀ roomId, socketRoomId st !! s = Some roomId → rooms st !! roomId = None) →
  step (MESSAGE_SETTLED call (DbOk ()) now) st =
  (with_heap (alter (push_message {| text := data_text; timestamp := now |}) ref)
     (with_pending (delete call) st),
   [Emit s (RECEIVE_MESSAGE data_text now true);
    Emit otherPlayer (RECEIVE_MESSAGE data_text now false);
    Emit otherPlayer (YOUR_TURN true None (Some TURN_TIME_LIMIT))]).
Proof.
  intros Hp Hgone. unfold step. rewrite (settle_pending _ _ _ _ _ Hp eq_refl).
  unfold resume_SEND_MESSAGE, updateRoom. rewrite seq_modify, !seq_emit.
  cbn [socketRoomId with_heap with_pending text timestamp].
  destruct (socketRoomId st !! s) as [roomId|] eqn:Hs; [|done].
  unfold startTurnCountdown. cbn [rooms with_heap with_pending].
  by rewrite (Hgone roomId eq_refl).
Qed.

Lemma message_settled_after_room_removal_witness :
  let st := (run [SEND_MESSAGE Scenario.alice (Some "hi"); RETIRE Scenario.bob; TIMEOUT 0]
                 Scenario.matched).1 in
  let r := step (MESSAGE_SETTLED 1 (DbOk ()) "t0") st in
  rooms st !! "r1" = None ∧
  r.2 = [Emit Scenario.alice (RECEIVE_MESSAGE "hi" "t0" true);
         Emit Scenario.bob (RECEIVE_MESSAGE "hi" "t0" false);
         Emit Scenario.bob (YOUR_TURN true None (Some TURN_TIME_LIMIT))] ∧
  turnTimers r.1 = ∅.
Proof.
  intros st r.
  assert (pending st !! 1%nat = Some (AwaitMessage Scenario.alice 0%nat Scenario.bob "hi")) as Hp
    by (vm_compute; reflexivity).
  assert (∀ roomId, socketRoomId st !! Scenario.alice = Some roomId → rooms st !! roomId = None)
    as Hgone.
  { intros roomId H. assert (roomId = "r1") as -> by (vm_compute in H; congruence).
    vm_compute. reflexivity. }
  split; [vm_compute; reflexivity|].
  subst r. rewrite (message_settled_after_room_removal st 1%nat _ _ _ _ "t0" Hp Hgone).
  split; [reflexivity|]. vm_compute. reflexivity.
Defined.

(** X18: a message whose storage fails leaves no trace: after SEND_MESSAGE and
    the failed settlement, only the counter of database calls differs from
    the state before; the sender alone is told, and nothing is relayed. *)
Theorem failed_message_leaves_no_trace st s data_text now roomId ref room sender otherPlayer :
  wf_state st →
  inRoom st s roomId ref room →
  findSelf s room = Some sender → findOther s room = Some otherPlayer →
  truthy sender = true → truthy otherPlayer = true →
  run [SEND_MESSAGE s (Some data_text); MESSAGE_SETTLED (nextCall st) DbThrow now] st =
  (with_nextCall S st,
   [DbCall (nextCall st)
      (CreateMessage roomId (bool_decide (players room !! 0%nat = Some s)) data_text s);
    Emit s (ERROR "Failed to send message")]).
Proof.
  intros Hwf Hin Hself Hother Hts Hto.
  cbn [run]. rewrite seq_effects_state_pair, !seq_state, !seq_effects.
  rewrite (on_SEND_MESSAGE_suspends st s data_text roomId ref room sender otherPlayer
             Hin Hself Hother Hts Hto).
  cbn [fst snd]. unfold step.
  rewrite (settle_pending _ _ _ (AwaitMessage s ref otherPlayer data_text)
             (resume_SEND_MESSAGE s ref otherPlayer data_text DbThrow now));
    [|apply lookup_insert_eq | done].
  cbn [resume_SEND_MESSAGE emit skip fst snd app]. f_equal.
  unfold with_pending, with_nextCall. cbn. f_equal.
  rewrite delete_insert_eq. apply delete_id.
  destruct (pending st !! nextCall st) as [k|] eqn:Hk; [|done].
  apply (wf_pending_allocated _ Hwf) in Hk. lia.
Qed.

Lemma failed_message_leaves_no_trace_witness :
  run [SEND_MESSAGE Scenario.alice (Some "hi"); MESSAGE_SETTLED (nextCall Scenario.matched) DbThrow "t0"]
      Scenario.matched =
  (with_nextCall S Scenario.matched,
   [DbCall (nextCall Scenario.matched) (CreateMessage "r1" true "hi" Scenario.alice);
    Emit Scenario.alice (ERROR "Failed to send message")]).
Proof.
  assert (wf_state Scenario.matched) as Hwf.
  { repeat apply preserves_run. apply wf_initial. }
  assert (inRoom Scenario.matched Scenario.alice "r1" 0%nat Scenario.room1) as Hin
    by (split; vm_compute; reflexivity).
  apply (failed_message_leaves_no_trace Scenario.matched Scenario.alice "hi" "t0" "r1" 0%nat
           Scenario.room1 Scenario.alice Scenario.bob Hwf Hin);
    vm_compute; reflexivity.
Defined.

(** ** A guess without payload *)

(** MAKE_GUESS without payload, on a socket in a room: the room countdown
    is stopped as for any guess; reading [data.isAI] then throws inside
    the [try], so the guesser is answered [Failed to submit guess] and
    the persistence service is not called. *)
Lemma guess_without_payload st s roomId ref room :
  inRoom st s roomId ref room →
  step (MAKE_GUESS s None) st =
  ((stopRoomTimer roomId st).1,
   match roomTimers st !! roomId with Some h => [ClearTimer h] | None => [] end ++
   [Emit s (ERROR "Failed to submit guess")]).
Proof.
  intros Hin. unfold step, on_MAKE_GUESS. rewrite (ifInRoom_found _ _ _ _ _ _ _ Hin).
  by rewrite seq_effects_state_pair, stopRoomTimer_effects.
Qed.

(** ** Composition of invariants *)

Lemma invariant_skip I : invariant I skip.
Proof. by intros st H. Qed.

Lemma invariant_seq I c1 c2 : invariant I c1 → invariant I c2 → invariant I (c1 >> c2).
Proof. intros H1 H2 st H. rewrite seq_state. by apply H2, H1. Qed.

Lemma invariant_when I b c : invariant I c → invariant I (when b c).
Proof. destruct b; simpl; [done|]. intros _. apply invariant_skip. Qed.

Lemma invariant_emit I to ev : invariant I (emit to ev).
Proof. by intros st H. Qed.

Lemma invariant_throw I : invariant I throw.
Proof. by intros st H. Qed.

Lemma invariant_forEachFrom {A} I (l : list A) body i :
  (∀ i x, invariant I (body i x)) → invariant I (forEachFrom i l body).
Proof.
  intros Hb. revert i. induction l as [|x l IH]; intros i; simpl.
  - apply invariant_skip.
  - apply invariant_seq; [apply Hb | apply IH].
Qed.

Lemma invariant_forEach {A} I (l : list A) body :
  (∀ x, invariant I (body x)) → invariant I (forEach l body).
Proof. intros Hb. apply invariant_forEachFrom. intros _. apply Hb. Qed.

Lemma invariant_ifInRoom I s body otherwise :
  (∀ roomId ref room, invariant I (body roomId ref room)) →
  invariant I otherwise →
  invariant I (ifInRoom s body otherwise).
Proof.
  intros Hb Ho st H. unfold ifInRoom. destruct (socketRoom st s) as [roomId|]; [|by apply Ho].
  destruct (getRoom st roomId) as [[ref room]|]; [|done]. by apply Hb.
Qed.

Lemma invariant_settle I call resume :
  invariant I (modify (with_pending (delete call))) →
  (∀ k c, resume k = Some c → invariant I c) →
  invariant I (settle call resume).
Proof.
  intros Hd Hr st H. unfold settle. destruct (pending st !! call) as [k|]; [|done].
  destruct (resume k) as [c|] eqn:Hk; [|done].
  apply (Hr _ _ Hk). by apply Hd in H.
Qed.

Lemma invariant_run I es : (∀ e, invariant I (step e)) → invariant I (run es).
Proof.
  intros Hs. induction es as [|e es IH]; simpl; [apply invariant_skip|].
  by apply invariant_seq.
Qed.

Lemma invariant_reachable I st :
  I initial → (∀ e, invariant I (step e)) → reachable st → I st.
Proof. intros H0 Hs. induction 1 as [|st e _ IH]; [done | by apply Hs]. Qed.

(** ** Every live countdown is the registered one *)

Lemma registered_frame st st' :
  intervals st' = intervals st → roomTimers st' = roomTimers st →
  turnTimers st' = turnTimers st →
  timers_registered st → timers_registered st'.
Proof. unfold timers_registered. by intros -> -> ->. Qed.

Ltac frame_registered := intros st H; by apply (registered_frame st).

Lemma registered_clearTimer h : invariant timers_registered (clearTimer h).
Proof.
  intros st [Hr Ht]. split; cbn.
  - intros h' roomId ref t [_ H]%lookup_delete_Some. eauto.
  - intros h' roomId p t [_ H]%lookup_delete_Some. eauto.
Qed.

Lemma registered_set_timeLeft h t :
  invariant timers_registered (modify (with_intervals (alter (set_timeLeft t) h))).
Proof.
  intros st [Hr Ht]. split; cbn.
  - intros h' roomId ref t' [(-> & x & H & Hx)|[_ H]]%lookup_alter_Some; [|by eauto].
    destruct x; simpl in Hx; [|done]. injection Hx as <- <- _. eauto.
  - intros h' roomId p t' [(-> & x & H & Hx)|[_ H]]%lookup_alter_Some; [|by eauto].
    destruct x; simpl in Hx; [done|]. injection Hx as <- <- _. eauto.
Qed.

Lemma registered_unregister_room st h roomId :
  timers_registered st → roomTimers st !! roomId = Some h →
  timers_registered (with_roomTimers (delete roomId) (with_intervals (delete h) st)).
Proof.
  intros [Hr Ht] Hreg. split; cbn.
  - intros h' roomId' ref t [Hne H]%lookup_delete_Some. apply Hr in H.
    rewrite lookup_delete_ne; [done|]. intros <-. congruence.
  - intros h' roomId' p t [_ H]%lookup_delete_Some. eauto.
Qed.

Lemma registered_unregister_turn st h p :
  timers_registered st → turnTimers st !! p = Some h →
  timers_registered (with_turnTimers (delete p) (with_intervals (delete h) st)).
Proof.
  intros [Hr Ht] Hreg. split; cbn.
  - intros h' roomId' ref t [_ H]%lookup_delete_Some. eauto.
  - intros h' roomId' p' t [Hne H]%lookup_delete_Some. apply Ht in H.
    rewrite lookup_delete_ne; [done|]. intros <-. congruence.
Qed.

Lemma registered_stopRoomTimer roomId : invariant timers_registered (stopRoomTimer roomId).
Proof.
  intros st H. rewrite stopRoomTimer_state.
  destruct (roomTimers st !! roomId) as [h|] eqn:Hreg; [|done].
  by apply registered_unregister_room.
Qed.

Lemma registered_handleForfeit roomId playerId :
  invariant timers_registered (handleForfeit roomId playerId).
Proof.
  intros st H. unfold handleForfeit. destruct (getRoom st roomId) as [[ref room]|]; [|done].
  revert st H. apply invariant_seq; [apply registered_stopRoomTimer|].
  apply invariant_seq; [apply invariant_emit|].
  destruct (findOther playerId room); [|apply invariant_skip].
  apply invariant_when, invariant_emit.
Qed.

Lemma registered_startRoomCountdown roomId :
  invariant timers_registered (startRoomCountdown roomId).
Proof.
  intros st [Hr Ht]. unfold startRoomCountdown.
  destruct (rooms st !! roomId) as [ref|]; [|done].
  rewrite seq_state. unfold setInterval. cbn [fst].
  assert (∀ h' roomId' ref' t,
            intervals (match roomTimers st !! roomId with
                       | Some h => clearTimer h
                       | None => skip
                       end st).1 !! h' = Some (RoomInterval roomId' ref' t) →
            roomId' ≠ roomId ∧ roomTimers st !! roomId' = Some h') as Hr'.
  { intros h' roomId' ref' t H.
    destruct (roomTimers st !! roomId) as [h|] eqn:Hreg; cbn in H.
    - apply lookup_delete_Some in H as [Hne H]. apply Hr in H as H'.
      split; [|done]. intros ->. congruence.
    - apply Hr in H as H'. split; [|done]. intros ->. congruence. }
  assert (∀ h' roomId' p t,
            intervals (match roomTimers st !! roomId with
                       | Some h => clearTimer h
                       | None => skip
                       end st).1 !! h' = Some (TurnInterval roomId' p t) →
            turnTimers st !! p = Some h') as Ht'.
  { intros h' roomId' p t H.
    destruct (roomTimers st !! roomId) as [h|]; cbn in H; [|by eauto].
    apply lookup_delete_Some in H as [_ H]. eauto. }
  assert (roomTimers (match roomTimers st !! roomId with
                      | Some h => clearTimer h
                      | None => skip
                      end st).1 = roomTimers st) as Hsame
    by (by destruct (roomTimers st !! roomId)).
  assert (turnTimers (match roomTimers st !! roomId with
                      | Some h => clearTimer h
                      | None => skip
                      end st).1 = turnTimers st) as Hsame'
    by (by destruct (roomTimers st !! roomId)).
  revert Hr' Ht' Hsame Hsame'. generalize (match roomTimers st !! roomId with
                                           | Some h => clearTimer h
                                           | None => skip
                                           end st).1.
  intros st1 Hr' Ht' Hsame Hsame'. split; cbn; rewrite ?Hsame, ?Hsame'.
  - intros h' roomId' ref' t [[<- [= <- <- <-]]|[Hne H]]%lookup_insert_Some.
    + apply lookup_insert_eq.
    + destruct (Hr' _ _ _ _ H) as [Hne' H']. by rewrite lookup_insert_ne.
  - intros h' roomId' p t [[_ [=]]|[Hne H]]%lookup_insert_Some. eauto.
Qed.

Lemma registered_startTurnCountdown roomId playerId :
  invariant timers_registered (startTurnCountdown roomId playerId).
Proof.
  intros st [Hr Ht]. unfold startTurnCountdown.
  destruct (rooms st !! roomId) as [ref|]; [|done].
  rewrite seq_state. unfold setInterval. cbn [fst].
  assert (∀ h' roomId' p t,
            intervals (match turnTimers st !! playerId with
                       | Some h => clearTimer h
                       | None => skip
                       end st).1 !! h' = Some (TurnInterval roomId' p t) →
            p ≠ playerId ∧ turnTimers st !! p = Some h') as Ht'.
  { intros h' roomId' p t H.
    destruct (turnTimers st !! playerId) as [h|] eqn:Hreg; cbn in H.
    - apply lookup_delete_Some in H as [Hne H]. apply Ht in H as H'.
      split; [|done]. intros ->. congruence.
    - apply Ht in H as H'. split; [|done]. intros ->. congruence. }
  assert (∀ h' roomId' ref' t,
            intervals (match turnTimers st !! playerId with
                       | Some h => clearTimer h
                       | None => skip
                       end st).1 !! h' = Some (RoomInterval roomId' ref' t) →
            roomTimers st !! roomId' = Some h') as Hr'.
  { intros h' roomId' ref' t H.
    destruct (turnTimers st !! playerId) as [h|]; cbn in H; [|by eauto].
    apply lookup_delete_Some in H as [_ H]. eauto. }
  assert (roomTimers (match turnTimers st !! playerId with
                      | Some h => clearTimer h
                      | None => skip
                      end st).1 = roomTimers st) as Hsame
    by (by destruct (turnTimers st !! playerId)).
  assert (turnTimers (match turnTimers st !! playerId with
                      | Some h => clearTimer h
                      | None => skip
                      end st).1 = turnTimers st) as Hsame'
    by (by destruct (turnTimers st !! playerId)).
  revert Hr' Ht' Hsame Hsame'. generalize (match turnTimers st !! playerId with
                                           | Some h => clearTimer h
                                           | None => skip
                                           end st).1.
  intros st1 Hr' Ht' Hsame Hsame'. split; cbn; rewrite ?Hsame, ?Hsame'.
  - intros h' roomId' ref' t [[_ [=]]|[Hne H]]%lookup_insert_Some. eauto.
  - intros h' roomId' p t [[<- [= <- <- <-]]|[Hne H]]%lookup_insert_Some.
    + apply lookup_insert_eq.
    + destruct (Ht' _ _ _ _ H) as [Hne' H']. by rewrite lookup_insert_ne.
Qed.

Lemma registered_intervalTick h : invariant timers_registered (intervalTick h).
Proof.
  intros st H. unfold intervalTick.
  destruct (intervals st !! h) as [[roomId ref timeLeft|roomId playerId timeLeft]|] eqn:Hi;
    [| |done].
  - assert (roomTimers st !! roomId = Some h) as Hreg by (destruct H as [Hr _]; eauto).
    unfold roomCountdownTick. destruct (heap st !! ref) as [room|]; [|done].
    destruct (negb (isActive room)).
    + rewrite seq_clearTimer. cbn. by apply registered_unregister_room.
    + rewrite seq_modify, seq_state, forEach_emit. cbn [fst].
      apply (registered_set_timeLeft h (timeLeft - 1)) in H. cbn [modify fst] in H.
      destruct (timeLeft - 1 <=? 0); [|done]. cbn [when].
      rewrite seq_clearTimer. cbn [fst]. rewrite seq_modify, seq_state, forEach_emit.
      cbn [fst]. unfold updateRoom. rewrite seq_modify. cbn [setTimeout fst].
      eapply registered_frame; [..|apply (registered_unregister_room _ h roomId H Hreg)];
        done.
  - assert (turnTimers st !! playerId = Some h) as Hreg by (destruct H as [_ Ht]; eauto).
    unfold turnCountdownTick. rewrite seq_modify, seq_emit. cbn [fst].
    apply (registered_set_timeLeft h (timeLeft - 1)) in H. cbn [modify fst] in H.
    destruct (timeLeft - 1 <=? 0); [|done]. cbn [when].
    rewrite seq_clearTimer. cbn [fst]. rewrite seq_modify, seq_emit. cbn [fst].
    apply registered_handleForfeit. by apply registered_unregister_turn.
Qed.

Lemma registered_step e : invariant timers_registered (step e).
Proof.
  destruct e; cbn [step].
  - intros st H. unfold handleMatchmaking.
    destruct (bool_decide _); [done|].
    destruct (JsMap.has s (waitingPlayers st)); [done|].
    rewrite seq_state. unfold modify. cbn [fst].
    destruct (Nat.leb _ _); [|done]. unfold beginMatch.
    destruct (_ !! 0%nat) as [p0|]; [|done].
    destruct (_ !! 1%nat) as [p1|]; done.
  - frame_registered.
  - apply invariant_ifInRoom; [|apply invariant_emit]. intros roomId ref room.
    destruct (findSelf s room) as [sender|];
      [|destruct (findOther s room); apply invariant_emit].
    destruct (findOther s room) as [otherPlayer|]; [|apply invariant_emit].
    destruct (truthy sender && truthy otherPlayer); [|apply invariant_emit].
    destruct data; [frame_registered | apply invariant_emit].
  - apply invariant_ifInRoom; [|apply invariant_skip]. intros roomId ref room.
    destruct (findOther s room); [|apply invariant_skip].
    apply invariant_when. destruct data; [apply invariant_emit | apply invariant_throw].
  - apply invariant_ifInRoom; [|apply invariant_emit]. intros roomId ref room.
    apply invariant_seq; [apply registered_stopRoomTimer|].
    destruct data; [frame_registered | apply invariant_emit].
  - apply invariant_ifInRoom; [|apply invariant_skip]. intros roomId ref room.
    apply invariant_seq.
    + destruct (findOther s room); [|apply invariant_skip].
      apply invariant_when. apply invariant_seq; [apply invariant_emit|].
      apply invariant_seq; [|apply invariant_emit].
      destruct (roomTimer room); [|apply invariant_skip].
      apply invariant_seq; [apply registered_clearTimer|]. frame_registered.
    + apply invariant_seq; frame_registered.
  - apply invariant_seq; [frame_registered|].
    apply invariant_ifInRoom; [|apply invariant_skip]. intros roomId ref room.
    apply invariant_seq; [apply registered_stopRoomTimer|].
    apply invariant_seq.
    + destruct (findOther s room); [|apply invariant_skip].
      apply invariant_when. apply invariant_seq; apply invariant_emit.
    + apply invariant_seq; frame_registered.
  - apply registered_intervalTick.
  - intros st H. unfold timeoutFire. destruct (timeouts st !! k) as [[delay c]|]; [|done].
    destruct c as [s|roomId]; cbn; [destruct (socketRoomId st !! s)|]; done.
  - apply invariant_settle; [frame_registered|]. intros [| |s ps roomId] c0 [= <-].
    unfold resume_handleMatchmaking.
    destruct db as [c|]; [|apply invariant_seq; [apply invariant_emit | frame_registered]].
    destruct (usableConversation c) as [cid|];
      [|apply invariant_seq; [apply invariant_emit | frame_registered]].
    apply invariant_seq; [frame_registered|].
    apply invariant_seq.
    { apply invariant_forEach. intros player. apply invariant_seq; frame_registered. }
    apply invariant_seq; [|apply registered_startRoomCountdown].
    apply invariant_forEachFrom. intros i player st H. unfold notifyMatch.
    by destruct (getRoom st roomId) as [[ref room]|].
  - apply invariant_settle; [frame_registered|]. intros [s ref otherPlayer data_text| |] c0 [= <-].
    unfold resume_SEND_MESSAGE. destruct db; [|apply invariant_emit].
    apply invariant_seq; [frame_registered|].
    repeat (apply invariant_seq; [apply invariant_emit|]).
    intros st H. destruct (socketRoomId st !! s); [|done].
    by apply registered_startTurnCountdown.
  - apply invariant_settle; [frame_registered|]. intros [|s ref data_isAI|] c0 [= <-].
    unfold resume_MAKE_GUESS. destruct db; [|apply invariant_emit].
    apply invariant_seq; [apply invariant_emit|].
    intros st H. destruct (heap st !! ref) as [room|]; [|done].
    destruct (findOther s room) as [o|]; [|done]. by destruct (truthy o).
Qed.

Lemma reachable_registered st : reachable st → timers_registered st.
Proof.
  apply invariant_reachable; [|apply registered_step].
  split; intros ? ? ? ? H; cbn in H; by rewrite lookup_empty in H.
Qed.

Lemma stopped_room_has_no_countdown st roomId h ref t :
  timers_registered st →
  intervals (stopRoomTimer roomId st).1 !! h ≠ Some (RoomInterval roomId ref t).
Proof.
  intros [Hr _]. rewrite stopRoomTimer_state.
  destruct (roomTimers st !! roomId) as [h0|] eqn:Hreg; cbn.
  - intros [Hne H]%lookup_delete_Some. apply Hr in H. congruence.
  - intros H. apply Hr in H. congruence.
Qed.

Lemma reachable_matched : reachable Scenario.matched.
Proof. repeat apply reachable_run. constructor. Qed.

(** X19: in every state the server can reach, a room id has at most one live
    room countdown and a player at most one live turn countdown: starting
    a countdown always ends the one it replaces. *)
Theorem live_countdowns_are_unique st :
  reachable st →
  (∀ h1 h2 roomId ref1 ref2 t1 t2,
     intervals st !! h1 = Some (RoomInterval roomId ref1 t1) →
     intervals st !! h2 = Some (RoomInterval roomId ref2 t2) → h1 = h2) ∧
  (∀ h1 h2 roomId1 roomId2 p t1 t2,
     intervals st !! h1 = Some (TurnInterval roomId1 p t1) →
     intervals st !! h2 = Some (TurnInterval roomId2 p t2) → h1 = h2).
Proof.
  intros [Hr Ht]%reachable_registered. split.
  - intros h1 h2 roomId ref1 ref2 t1 t2 H1%Hr H2%Hr. congruence.
  - intros h1 h2 roomId1 roomId2 p t1 t2 H1%Ht H2%Ht. congruence.
Qed.

Lemma live_countdowns_are_unique_witness :
  let st := (run [SEND_MESSAGE Scenario.alice (Some "hi"); MESSAGE_SETTLED 1 (DbOk ()) "t0";
                  SEND_MESSAGE Scenario.alice (Some "again"); MESSAGE_SETTLED 2 (DbOk ()) "t1"]
                 Scenario.matched).1 in
  intervals st !! 2%nat = Some (TurnInterval "r1" Scenario.bob 900) ∧
  ∀ h roomId t, intervals st !! h = Some (TurnInterval roomId Scenario.bob t) → h = 2%nat.
Proof.
  intros st.
  assert (reachable st) as Hreach by (apply reachable_run, reachable_matched).
  assert (intervals st !! 2%nat = Some (TurnInterval "r1" Scenario.bob 900)) as Hi
    by (vm_compute; reflexivity).
  split; [exact Hi|]. intros h roomId t H.
  destruct (live_countdowns_are_unique st Hreach) as [_ Hu].
  exact (Hu _ _ _ _ _ _ _ H Hi).
Defined.

(** X20: in every state the server can reach, a guess, with or without
    payload, or a disconnection by a socket in a room leaves no live room
    countdown for that room id: the countdown they stop is the one that
    was running. *)
Theorem guess_and_disconnect_stop_the_room_countdown st s roomId ref room h ref' t :
  reachable st →
  inRoom st s roomId ref room →
  (∀ g, intervals (step (MAKE_GUESS s g) st).1 !! h ≠ Some (RoomInterval roomId ref' t)) ∧
  intervals (step (DISCONNECT s) st).1 !! h ≠ Some (RoomInterval roomId ref' t).
Proof.
  intros Hreg%reachable_registered Hin. split.
  - intros g. unfold step, on_MAKE_GUESS. rewrite (ifInRoom_found _ _ _ _ _ _ _ Hin).
    rewrite seq_state. destruct g; by apply stopped_room_has_no_countdown.
  - unfold step, handleDisconnect. rewrite seq_modify.
    rewrite (ifInRoom_found _ _ _ _ _ _ _ (inRoom_after_queue_delete _ _ s _ _ _ Hin)).
    rewrite !seq_state. unfold updateRoom, setTimeout, modify. cbn [fst intervals with_timeouts with_heap].
    assert (∀ st1, intervals (match findOther s room with
                              | Some otherPlayer =>
                                  when (truthy otherPlayer)
                                    (emit otherPlayer
                                       (OPPONENT_DISCONNECTED "Your opponent has disconnected."
                                          (playerTypes room !! s)) >>
                                     emit otherPlayer (YOUR_TURN false (Some true) None))
                              | None => skip
                              end st1).1 = intervals st1) as ->.
    { intros st1. destruct (findOther s room) as [o|]; [|done]. by destruct (truthy o). }
    by apply stopped_room_has_no_countdown.
Qed.

Lemma guess_and_disconnect_stop_the_room_countdown_witness :
  intervals Scenario.matched !! 0%nat = Some (RoomInterval "r1" 0%nat 120) ∧
  intervals (step (MAKE_GUESS Scenario.alice (Some true)) Scenario.matched).1 !! 0%nat
    ≠ Some (RoomInterval "r1" 0%nat 120) ∧
  intervals (step (DISCONNECT Scenario.alice) Scenario.matched).1 !! 0%nat
    ≠ Some (RoomInterval "r1" 0%nat 120).
Proof.
  assert (inRoom Scenario.matched Scenario.alice "r1" 0%nat Scenario.room1) as Hin
    by (split; vm_compute; reflexivity).
  destruct (guess_and_disconnect_stop_the_room_countdown Scenario.matched Scenario.alice "r1"
              0%nat Scenario.room1 0%nat 0%nat 120 reachable_matched Hin) as [Hg Hd].
  split; [vm_compute; reflexivity|]. split; [apply Hg | exact Hd].
Defined.

(** ** Every room has two distinct players *)

Lemma paired_frame st st' :
  heap st' = heap st → pending st' = pending st → paired st → paired st'.
Proof. unfold paired. by intros -> ->. Qed.

Ltac frame_paired := intros st H; by apply (paired_frame st).

Lemma paired_updateRoom ref f :
  (∀ r, players (f r) = players r ∧ playerTypes (f r) = playerTypes r) →
  invariant paired (updateRoom ref f).
Proof.
  intros Hf st [Hh Hp]. split; [|done]. cbn.
  intros ref' room [(-> & x & H & ->)|[_ H]]%lookup_alter_Some; [|by eauto].
  destruct (Hf x) as [-> ->]. eauto.
Qed.

Lemma paired_delete_pending call : invariant paired (modify (with_pending (delete call))).
Proof.
  intros st [Hh Hp]. split; [done|]. cbn.
  intros call' s ps roomId [_ H]%lookup_delete_Some. eauto.
Qed.

Lemma paired_await r k :
  (∀ s ps roomId, k = AwaitConversation s ps roomId →
                  ∃ e0 e1, ps = [e0; e1] ∧ socket e0 ≠ socket e1) →
  invariant paired (await r k).
Proof.
  intros Hk st [Hh Hp]. split; [done|]. cbn.
  intros call s ps roomId [[_ ->]|[_ H]]%lookup_insert_Some; eauto.
Qed.

Lemma paired_roomsSet roomId room a b :
  players room = [a; b] → a ≠ b →
  is_Some (playerTypes room !! a) → is_Some (playerTypes room !! b) →
  invariant paired (roomsSet roomId room).
Proof.
  intros Hroom Hne Ha Hb st [Hh Hp]. split; [|done]. cbn.
  intros ref room' [[_ <-]|[_ H]]%lookup_insert_Some; [|by eauto].
  by exists a, b.
Qed.

Lemma paired_stopRoomTimer roomId : invariant paired (stopRoomTimer roomId).
Proof.
  intros st H. rewrite stopRoomTimer_state. by destruct (roomTimers st !! roomId).
Qed.

Lemma paired_handleForfeit roomId playerId : invariant paired (handleForfeit roomId playerId).
Proof.
  intros st H. unfold handleForfeit. destruct (getRoom st roomId) as [[ref room]|]; [|done].
  revert st H. apply invariant_seq; [apply paired_stopRoomTimer|].
  apply invariant_seq; [apply invariant_emit|].
  destruct (findOther playerId room); [|apply invariant_skip].
  apply invariant_when, invariant_emit.
Qed.

Lemma paired_startRoomCountdown roomId : invariant paired (startRoomCountdown roomId).
Proof.
  intros st H. unfold startRoomCountdown. destruct (rooms st !! roomId) as [ref|]; [|done].
  rewrite seq_state. by destruct (roomTimers st !! roomId).
Qed.

Lemma paired_startTurnCountdown roomId playerId :
  invariant paired (startTurnCountdown roomId playerId).
Proof.
  intros st H. unfold startTurnCountdown. destruct (rooms st !! roomId) as [ref|]; [|done].
  rewrite seq_state. by destruct (turnTimers st !! playerId).
Qed.

Lemma paired_intervalTick h : invariant paired (intervalTick h).
Proof.
  intros st H. unfold intervalTick.
  destruct (intervals st !! h) as [[roomId ref timeLeft|roomId playerId timeLeft]|];
    [| |done]; revert st H.
  - intros st H. unfold roomCountdownTick. destruct (heap st !! ref) as [room|]; [|done].
    destruct (negb (isActive room)); revert st H.
    + apply invariant_seq; frame_paired.
    + apply invariant_seq; [frame_paired|].
      apply invariant_seq; [apply invariant_forEach; intros; apply invariant_emit|].
      apply invariant_when.
      apply invariant_seq; [frame_paired|]. apply invariant_seq; [frame_paired|].
      apply invariant_seq; [apply invariant_forEach; intros; apply invariant_emit|].
      apply invariant_seq; [by apply paired_updateRoom | frame_paired].
  - apply invariant_seq; [frame_paired|]. apply invariant_seq; [apply invariant_emit|].
    apply invariant_when.
    apply invariant_seq; [frame_paired|]. apply invariant_seq; [frame_paired|].
    apply invariant_seq; [apply invariant_emit | apply paired_handleForfeit].
Qed.

(** The two entries at the front of a well-formed queue have different
    sockets. *)
Lemma front_of_queue_distinct st p0 p1 :
  wf_state st →
  take 2 (JsMap.values (waitingPlayers st)) !! 0%nat = Some p0 →
  take 2 (JsMap.values (waitingPlayers st)) !! 1%nat = Some p1 →
  take 2 (JsMap.values (waitingPlayers st)) = [p0; p1] ∧ socket p0 ≠ socket p1.
Proof.
  intros Hwf. pose proof (wf_queue_keys _ Hwf) as Hk. pose proof (wf_queue_nodup _ Hwf) as Hn.
  destruct (waitingPlayers st) as [|[k0 e0] [|[k1 e1] rest]]; [done..|].
  cbn. intros [= <-] [= <-]. split; [done|].
  apply Forall_cons in Hk as [Hk0 Hk]. apply Forall_cons in Hk as [Hk1 _].
  cbn in Hk0, Hk1. subst k0 k1. cbn in Hn.
  apply NoDup_cons in Hn as [Hn _]. intros Heq. apply Hn. rewrite Heq. left.
Qed.

Lemma paired_step e st : wf_state st → paired st → paired (step e st).1.
Proof.
  intros Hwf. destruct e; cbn [step]; revert st Hwf.
  - intros st Hwf H. unfold handleMatchmaking.
    destruct (bool_decide _); [done|].
    destruct (JsMap.has s (waitingPlayers st)) eqn:Hhas; [done|].
    rewrite seq_state. unfold modify. cbn [fst].
    pose proof (wf_enqueue s {| socket := s; isAI := coinIsAI |} st Hwf Hhas eq_refl) as Hwf'.
    assert (paired (with_waitingPlayers (JsMap.set s {| socket := s; isAI := coinIsAI |}) st))
      as H' by done.
    revert Hwf' H'.
    generalize (with_waitingPlayers (JsMap.set s {| socket := s; isAI := coinIsAI |}) st).
    intros st1 Hwf1 H1.
    destruct (Nat.leb _ _); [|done]. unfold beginMatch.
    destruct (_ !! 0%nat) as [p0|] eqn:H0; [|done].
    destruct (_ !! 1%nat) as [p1|] eqn:H1'; [|done].
    destruct (front_of_queue_distinct st1 p0 p1 Hwf1 H0 H1') as [Hps Hne].
    apply paired_await; [|done]. intros s' ps roomId [= _ <- _]. eauto.
  - intros st _. revert st. frame_paired.
  - intros st _. revert st.
    apply invariant_ifInRoom; [|apply invariant_emit]. intros roomId ref room.
    destruct (findSelf s room) as [sender|];
      [|destruct (findOther s room); apply invariant_emit].
    destruct (findOther s room) as [otherPlayer|]; [|apply invariant_emit].
    destruct (truthy sender && truthy otherPlayer); [|apply invariant_emit].
    destruct data; [by apply paired_await | apply invariant_emit].
  - intros st _. revert st.
    apply invariant_ifInRoom; [|apply invariant_skip]. intros roomId ref room.
    destruct (findOther s room); [|apply invariant_skip].
    apply invariant_when. destruct data; [apply invariant_emit | apply invariant_throw].
  - intros st _. revert st.
    apply invariant_ifInRoom; [|apply invariant_emit]. intros roomId ref room.
    apply invariant_seq; [apply paired_stopRoomTimer|].
    destruct data; [by apply paired_await | apply invariant_emit].
  - intros st _. revert st.
    apply invariant_ifInRoom; [|apply invariant_skip]. intros roomId ref room.
    apply invariant_seq.
    + destruct (findOther s room); [|apply invariant_skip].
      apply invariant_when. apply invariant_seq; [apply invariant_emit|].
      apply invariant_seq; [|apply invariant_emit].
      destruct (roomTimer room); [|apply invariant_skip].
      apply invariant_seq; [frame_paired | by apply paired_updateRoom].
    + apply invariant_seq; [by apply paired_updateRoom | frame_paired].
  - intros st _. revert st.
    apply invariant_seq; [frame_paired|].
    apply invariant_ifInRoom; [|apply invariant_skip]. intros roomId ref room.
    apply invariant_seq; [apply paired_stopRoomTimer|].
    apply invariant_seq.
    + destruct (findOther s room); [|apply invariant_skip].
      apply invariant_when. apply invariant_seq; apply invariant_emit.
    + apply invariant_seq; [by apply paired_updateRoom | frame_paired].
  - intros st _. revert st. apply paired_intervalTick.
  - intros st _ H. unfold timeoutFire. destruct (timeouts st !! k) as [[delay c]|]; [|done].
    destruct c as [s|roomId]; cbn; [destruct (socketRoomId st !! s)|]; done.
  - intros st _ H. unfold settle.
    destruct (pending st !! call) as [[| |s ps roomId]|] eqn:Hp; [done..| |done].
    destruct (proj2 H _ _ _ _ Hp) as (e0 & e1 & -> & Hne).
    apply (paired_delete_pending call) in H. cbn [modify fst] in H. revert H.
    generalize (with_pending (delete call) st). clear Hp. clear st.
    unfold resume_handleMatchmaking.
    destruct db as [c|]; [|apply invariant_seq; [apply invariant_emit | frame_paired]].
    destruct (usableConversation c) as [cid|];
      [|apply invariant_seq; [apply invariant_emit | frame_paired]].
    apply invariant_seq.
    { apply (paired_roomsSet _ _ (socket e0) (socket e1)); [done..| |].
      - cbn. rewrite lookup_insert_ne, lookup_insert_eq by done. eauto.
      - cbn. rewrite lookup_insert_eq. eauto. }
    apply invariant_seq.
    { apply invariant_forEach. intros player. apply invariant_seq; frame_paired. }
    apply invariant_seq; [|apply paired_startRoomCountdown].
    apply invariant_forEachFrom. intros i player st H. unfold notifyMatch.
    by destruct (getRoom st roomId) as [[ref room]|].
  - intros st _. revert st.
    apply invariant_settle; [apply paired_delete_pending|].
    intros [s ref otherPlayer data_text| |] c0 [= <-].
    unfold resume_SEND_MESSAGE. destruct db; [|apply invariant_emit].
    apply invariant_seq; [by apply paired_updateRoom|].
    repeat (apply invariant_seq; [apply invariant_emit|]).
    intros st H. destruct (socketRoomId st !! s); [|done].
    by apply paired_startTurnCountdown.
  - intros st _. revert st.
    apply invariant_settle; [apply paired_delete_pending|].
    intros [|s ref data_isAI|] c0 [= <-].
    unfold resume_MAKE_GUESS. destruct db; [|apply invariant_emit].
    apply invariant_seq; [apply invariant_emit|].
    intros st H. destruct (heap st !! ref) as [room|]; [|done].
    destruct (findOther s room) as [o|]; [|done]. by destruct (truthy o).
Qed.

Lemma reachable_paired st : reachable st → paired st.
Proof.
  induction 1 as [|st e Hreach IH].
  - split; intros; simplify_map_eq.
  - apply paired_step; [by apply reachable_wf | done].
Qed.

(** X21: in every state the server can reach, every room object has exactly two
    players; they are different sockets, each is the opponent the handlers
    find for the other, and the room records a type for each of them. *)
Theorem rooms_have_two_distinct_players st ref room :
  reachable st →
  heap st !! ref = Some room →
  ∃ a b, players room = [a; b] ∧ a ≠ b ∧
         findOther a room = Some b ∧ findOther b room = Some a ∧
         is_Some (playerTypes room !! a) ∧ is_Some (playerTypes room !! b).
Proof.
  intros [Hh _]%reachable_paired Hroom.
  destruct (Hh _ _ Hroom) as (a & b & Hp & Hne & Ha & Hb).
  exists a, b. destruct (find_in_pair a b room Hp Hne) as (_ & Hab & _ & Hba). done.
Qed.

Lemma rooms_have_two_distinct_players_witness :
  heap Scenario.matched !! 0%nat = Some Scenario.room1 ∧
  ∃ a b, players Scenario.room1 = [a; b] ∧ a ≠ b ∧
         findOther a Scenario.room1 = Some b ∧ findOther b Scenario.room1 = Some a ∧
         is_Some (playerTypes Scenario.room1 !! a) ∧ is_Some (playerTypes Scenario.room1 !! b).
Proof.
  assert (heap Scenario.matched !! 0%nat = Some Scenario.room1) as Hh
    by (vm_compute; reflexivity).
  split; [exact Hh|].
  exact (rooms_have_two_distinct_players Scenario.matched 0%nat Scenario.room1
           reachable_matched Hh).
Defined.




(** ** The queue and the recorded types *)

(** X23: in every state the server can reach, a socket is queued at most once
    and every entry of the queue is filed under its own socket id. *)
Theorem queue_entries_are_unique st :
  reachable st →
  NoDup (waitingPlayers st).*1 ∧
  ∀ k e, (k, e) ∈ waitingPlayers st → k = socket e.
Proof.
  intros Hwf%reachable_wf. split; [apply (wf_queue_nodup _ Hwf)|].
  intros k e Hin. pose proof (wf_queue_keys _ Hwf) as Hk.
  rewrite Forall_forall in Hk. by apply Hk in Hin.
Qed.

Lemma queue_entries_are_unique_witness :
  waitingPlayers Scenario.pairing = [(Scenario.alice, Scenario.entryA);
                                     (Scenario.bob, Scenario.entryB)] ∧
  NoDup (waitingPlayers Scenario.pairing).*1.
Proof.
  split; [vm_compute; reflexivity|].
  apply (queue_entries_are_unique Scenario.pairing).
  repeat apply reachable_run. constructor.
Defined.

(** X24: the type [playerTypes] records for a socket is the flag of the last
    entry of the pair list with that socket, and none when no entry has
    it. *)
Theorem playerTypes_last_entry_wins ps s :
  playerTypesOf ps !! s = isAI <$> find (λ p, bool_decide (socket p = s)) (reverse ps).
Proof.
  unfold playerTypesOf. induction ps as [|p ps IH] using rev_ind.
  - cbn. apply lookup_empty.
  - rewrite fold_left_app, reverse_snoc. cbn [fold_left find].
    destruct (bool_decide (socket p = s)) eqn:Hd.
    + apply bool_decide_eq_true in Hd. subst s. apply lookup_insert_eq.
    + apply bool_decide_eq_false in Hd. by rewrite lookup_insert_ne.
Qed.

(** ** Queued sockets fail the room test *)

Lemma exclusive_frame st st' :
  waitingPlayers st' = waitingPlayers st → socketRoomId st' = socketRoomId st →
  rooms st' = rooms st →
  exclusive st → exclusive st'.
Proof. unfold exclusive, socketRoom. by intros -> -> ->. Qed.

Ltac frame_exclusive :=
  let st := fresh "st" in let H := fresh "H" in
  intros st H; by apply (exclusive_frame st).

Lemma JsMap_has_delete_true {V} (k k' : string) (m : list (string * V)) :
  JsMap.has k' (JsMap.delete k m) = true → k' ≠ k ∧ JsMap.has k' m = true.
Proof.
  intros H. destruct (decide (k' = k)) as [->|Hne].
  - by rewrite JsMap_has_delete in H.
  - by rewrite JsMap_has_delete_ne in H.
Qed.

Lemma exclusive_delete_waiting s :
  invariant exclusive (modify (with_waitingPlayers (JsMap.delete s))).
Proof. intros st H p [_ Hp]%JsMap_has_delete_true. by apply H. Qed.

Lemma exclusive_delete_room roomId st :
  exclusive st → exclusive (with_rooms (delete roomId) st).
Proof.
  intros H p Hp. apply H in Hp. unfold socketRoom in *. cbn.
  destruct (socketRoomId st !! p) as [r|]; [|done].
  destruct (truthy r); [|done]. cbn in *.
  destruct (decide (r = roomId)) as [->|Hne].
  - by rewrite lookup_delete_eq.
  - rewrite lookup_delete_ne by done. done.
Qed.

Lemma exclusive_stopRoomTimer roomId : invariant exclusive (stopRoomTimer roomId).
Proof.
  intros st H. rewrite stopRoomTimer_state.
  destruct (roomTimers st !! roomId); [|done]. revert st H. frame_exclusive.
Qed.

Lemma exclusive_handleForfeit roomId playerId : invariant exclusive (handleForfeit roomId playerId).
Proof.
  intros st H. unfold handleForfeit. destruct (getRoom st roomId) as [[ref room]|]; [|done].
  revert st H. apply invariant_seq; [apply exclusive_stopRoomTimer|].
  apply invariant_seq; [apply invariant_emit|].
  destruct (findOther playerId room); [|apply invariant_skip].
  apply invariant_when, invariant_emit.
Qed.

Lemma exclusive_startRoomCountdown roomId : invariant exclusive (startRoomCountdown roomId).
Proof.
  intros st H. unfold startRoomCountdown. destruct (rooms st !! roomId) as [ref|]; [|done].
  rewrite seq_state. destruct (roomTimers st !! roomId); revert st H; frame_exclusive.
Qed.

Lemma exclusive_startTurnCountdown roomId playerId :
  invariant exclusive (startTurnCountdown roomId playerId).
Proof.
  intros st H. unfold startTurnCountdown. destruct (rooms st !! roomId) as [ref|]; [|done].
  rewrite seq_state. destruct (turnTimers st !! playerId); revert st H; frame_exclusive.
Qed.

Lemma exclusive_intervalTick h : invariant exclusive (intervalTick h).
Proof.
  intros st H. unfold intervalTick.
  destruct (intervals st !! h) as [[roomId ref timeLeft|roomId playerId timeLeft]|];
    [| |done]; revert st H.
  - intros st H. unfold roomCountdownTick. destruct (heap st !! ref) as [room|]; [|done].
    destruct (negb (isActive room)); revert st H.
    + apply invariant_seq; frame_exclusive.
    + apply invariant_seq; [frame_exclusive|].
      apply invariant_seq; [apply invariant_forEach; intros; apply invariant_emit|].
      apply invariant_when.
      apply invariant_seq; [frame_exclusive|]. apply invariant_seq; [frame_exclusive|].
      apply invariant_seq; [apply invariant_forEach; intros; apply invariant_emit|].
      apply invariant_seq; frame_exclusive.
  - apply invariant_seq; [frame_exclusive|]. apply invariant_seq; [apply invariant_emit|].
    apply invariant_when.
    apply invariant_seq; [frame_exclusive|]. apply invariant_seq; [frame_exclusive|].
    apply invariant_seq; [apply invariant_emit | apply exclusive_handleForfeit].
Qed.

(** Moving a player from the queue to a room keeps the others apart. *)
Lemma exclusive_assign player roomId :
  invariant exclusive
    (modify (with_socketRoomId (insert (socket player) roomId)) >>
     modify (with_waitingPlayers (JsMap.delete (socket player)))).
Proof.
  intros st H p. rewrite seq_modify. cbn. intros [Hne Hp]%JsMap_has_delete_true.
  apply H in Hp. unfold socketRoom in *. cbn. by rewrite lookup_insert_ne.
Qed.

(** Registering a room under an id no socket holds. *)
Lemma exclusive_roomsSet roomId room st :
  (∀ s', socketRoomId st !! s' ≠ Some roomId) →
  exclusive st → exclusive (roomsSet roomId room st).1.
Proof.
  intros Hfresh H p Hp. apply H in Hp. unfold socketRoom in *. cbn.
  destruct (socketRoomId st !! p) as [r|] eqn:Hr; [|done].
  destruct (truthy r); [|done]. cbn in *.
  rewrite lookup_insert_ne; [done|]. intros <-. by apply (Hfresh p).
Qed.

(** X25: the handlers' room test, [socket.roomId && rooms.has(socket.roomId)],
    fails for every socket of the waiting list: the room id stored on a
    queued socket names no registered room.  Every event keeps it so,
    provided the id under which a room is registered is stored on no
    socket, that is, [generateRoomId] does not return an id a second
    time.  This is about the stored room id, not about the player lists:
    a queued socket can be a player of a registered room whose id it no
    longer holds. *)
Theorem queued_sockets_fail_the_room_test st e :
  exclusive st → freshRoomId st e → exclusive (step e st).1.
Proof.
  intros H Hfresh. destruct e; cbn [step];
    try (cbn in Hfresh; lazymatch type of Hfresh with True => clear Hfresh; revert st H end).
  - intros st H. unfold handleMatchmaking.
    destruct (bool_decide (is_Some (socketRoom st s))) eqn:Hroom; [done|].
    apply bool_decide_eq_false in Hroom.
    destruct (JsMap.has s (waitingPlayers st)) eqn:Hhas; [done|].
    rewrite seq_state. unfold modify. cbn [fst].
    assert (exclusive (with_waitingPlayers (JsMap.set s {| socket := s; isAI := coinIsAI |}) st))
      as H'.
    { intros p. cbn. rewrite JsMap_set_fresh by done.
      intros Hp. change (socketRoom st p = None).
      apply JsMap_has_elem_of in Hp. rewrite fmap_app in Hp.
      apply elem_of_app in Hp as [Hp|Hp].
      - apply H. by apply JsMap_has_elem_of.
      - apply list_elem_of_singleton in Hp. cbn in Hp. subst p.
        destruct (socketRoom st s); [|done]. destruct Hroom. eauto. }
    revert H'.
    generalize (with_waitingPlayers (JsMap.set s {| socket := s; isAI := coinIsAI |}) st).
    clear. intros st H.
    destruct (Nat.leb _ _); [|done]. unfold beginMatch.
    destruct (_ !! 0%nat) as [p0|].
    + destruct (_ !! 1%nat) as [p1|]; revert st H.
      * frame_exclusive.
      * apply invariant_seq; [apply invariant_emit | apply exclusive_delete_waiting].
    + revert st H.
      apply invariant_seq; [apply invariant_emit | apply exclusive_delete_waiting].
  - apply exclusive_delete_waiting.
  - apply invariant_ifInRoom; [|apply invariant_emit]. intros roomId ref room.
    destruct (findSelf s room) as [sender|];
      [|destruct (findOther s room); apply invariant_emit].
    destruct (findOther s room) as [otherPlayer|]; [|apply invariant_emit].
    destruct (truthy sender && truthy otherPlayer); [|apply invariant_emit].
    destruct data; [frame_exclusive | apply invariant_emit].
  - apply invariant_ifInRoom; [|apply invariant_skip]. intros roomId ref room.
    destruct (findOther s room); [|apply invariant_skip].
    apply invariant_when. destruct data; [apply invariant_emit | apply invariant_throw].
  - apply invariant_ifInRoom; [|apply invariant_emit]. intros roomId ref room.
    apply invariant_seq; [apply exclusive_stopRoomTimer|].
    destruct data; [frame_exclusive | apply invariant_emit].
  - apply invariant_ifInRoom; [|apply invariant_skip]. intros roomId ref room.
    apply invariant_seq.
    + destruct (findOther s room); [|apply invariant_skip].
      apply invariant_when. apply invariant_seq; [apply invariant_emit|].
      apply invariant_seq; [|apply invariant_emit].
      destruct (roomTimer room); [|apply invariant_skip].
      apply invariant_seq; frame_exclusive.
    + apply invariant_seq; frame_exclusive.
  - apply invariant_seq; [apply exclusive_delete_waiting|].
    apply invariant_ifInRoom; [|apply invariant_skip]. intros roomId ref room.
    apply invariant_seq; [apply exclusive_stopRoomTimer|].
    apply invariant_seq.
    + destruct (findOther s room); [|apply invariant_skip].
      apply invariant_when. apply invariant_seq; apply invariant_emit.
    + apply invariant_seq; frame_exclusive.
  - apply exclusive_intervalTick.
  - intros st H. unfold timeoutFire. destruct (timeouts st !! k) as [[delay c]|]; [|done].
    assert (exclusive (with_timeouts (delete k) st)) as H' by done.
    destruct c as [s|roomId]; cbn [runTimeout socketRoomId with_timeouts fst].
    + destruct (socketRoomId st !! s); [|done]. by apply exclusive_delete_room.
    + by apply exclusive_delete_room.
  - unfold settle.
    destruct (pending st !! call) as [[| |s ps roomId]|] eqn:Hp; [done..| |done].
    assert (exclusive (with_pending (delete call) st)) as H' by done.
    unfold resume_handleMatchmaking.
    destruct db as [c|];
      [|revert H'; generalize (with_pending (delete call) st);
        apply invariant_seq; [apply invariant_emit | apply exclusive_delete_waiting]].
    destruct (usableConversation c) as [cid|] eqn:Hc;
      [|revert H'; generalize (with_pending (delete call) st);
        apply invariant_seq; [apply invariant_emit | apply exclusive_delete_waiting]].
    rewrite seq_state.
    assert (exclusive (roomsSet roomId (newRoom ps coinFirstTurn clock)
                         (with_pending (delete call) st)).1) as H''.
    { apply exclusive_roomsSet; [|done]. apply (Hfresh s ps roomId cid Hp Hc). }
    revert H''. generalize (roomsSet roomId (newRoom ps coinFirstTurn clock)
                              (with_pending (delete call) st)).1.
    apply invariant_seq.
    { apply invariant_forEach. intros player. apply exclusive_assign. }
    apply invariant_seq; [|apply exclusive_startRoomCountdown].
    apply invariant_forEachFrom. intros i player st1 H1. unfold notifyMatch.
    by destruct (getRoom st1 roomId) as [[ref room]|].
  - apply invariant_settle; [frame_exclusive|].
    intros [s ref otherPlayer data_text| |] c0 [= <-].
    unfold resume_SEND_MESSAGE. destruct db; [|apply invariant_emit].
    apply invariant_seq; [frame_exclusive|].
    repeat (apply invariant_seq; [apply invariant_emit|]).
    intros st H. destruct (socketRoomId st !! s); [|done].
    by apply exclusive_startTurnCountdown.
  - apply invariant_settle; [frame_exclusive|].
    intros [|s ref data_isAI|] c0 [= <-].
    unfold resume_MAKE_GUESS. destruct db; [|apply invariant_emit].
    apply invariant_seq; [apply invariant_emit|].
    intros st H. destruct (heap st !! ref) as [room|]; [|done].
    destruct (findOther s room) as [o|]; [|done]. by destruct (truthy o).
Qed.

Lemma queued_sockets_fail_the_room_test_witness :
  let e := CONVERSATION_SETTLED 0 Scenario.conv true 0 in
  exclusive Scenario.pairing ∧ freshRoomId Scenario.pairing e ∧
  exclusive (step e Scenario.pairing).1.
Proof.
  intros e.
  assert (socketRoomId Scenario.pairing = ∅) as Hs by (vm_compute; reflexivity).
  assert (exclusive Scenario.pairing) as H.
  { intros s _. unfold socketRoom. by rewrite Hs, lookup_empty. }
  assert (freshRoomId Scenario.pairing e) as Hf.
  { intros s ps roomId cid _ _ s'. by rewrite Hs, lookup_empty. }
  split; [exact H|]. split; [exact Hf|].
  exact (queued_sockets_fail_the_room_test Scenario.pairing e H Hf).
Defined.
